(** * L-BFGS inner solver and mesh handler: a shallow embedding

    The development follows these source files:

    - [adpack/optimal_control/methods/pdas_inner_solvers/inner_lbfgs.py]
      (class [InnerLBFGS]: [compute_search_direction] and [run]);
    - [cestrel/geometry.py] (classes [_MeshHandler] and [MeshQuality],
      [import_mesh], [regular_mesh] and [regular_box_mesh]);
    - [adpack/pde_problems/gradient_problem.py] and
      [cestrel/_pde_problems/shape_gradient_problem.py] ([solve]).

    Conventions of the embedding.

    - A Python [float] is a rational number ([Q]); rounding and NaN are not
      modelled.  Python's [a / b] on floats raises [ZeroDivisionError] when
      [b == 0.0]; this is [pydiv].  Where an infinity decides what the code
      does, in [rho = 1 / <y,s>] of the history update, the division is
      [reciprocal], which returns an infinity from the overflow threshold
      of the doubles on.
    - A finite-element function is the list of its coefficients ([vec]); a
      tuple of control-shaped functions is a list of such vectors
      ([control]).  The loops [for j in range(len(self.controls))] walk the
      components of such tuples in lock step; a tuple with a different
      number of components, or a component of a different dimension, raises
      [ValueError] ([zip_exact]).
    - Exceptions are values of [exn]; fallible code lives in [result]. *)

From Stdlib Require Import String List ZArith QArith Qminmax Qround Bool Lia Lqa.
From Stdlib Require Import Qabs Ascii DecimalString.
Import ListNotations.

Set Implicit Arguments.

(* ===================================================================== *)
(** ** Exceptions and the error monad                                     *)
(* ===================================================================== *)

Inductive exn : Type :=
| IndexError
| ValueError
| ZeroDivisionError
| AssertionError (msg : string)
| AttributeError
| KrylovError
| SystemExit (msg : string)
| RuntimeError.

Inductive result (A : Type) : Type :=
| Ok (a : A)
| Raise (e : exn).

Arguments Ok {A} a.
Arguments Raise {A} e.

Definition bind {A B} (m : result A) (k : A -> result B) : result B :=
  match m with
  | Ok a => k a
  | Raise e => Raise e
  end.

Declare Scope result_scope.
Delimit Scope result_scope with result.
Notation "x <- m ;; k" := (bind m (fun x => k))
  (at level 100, m at next level, right associativity) : result_scope.
Notation "' p <- m ;; k" := (bind m (fun x => match x with p => k end))
  (at level 100, p pattern, m at next level, right associativity) : result_scope.
Open Scope result_scope.
Open Scope Q_scope.

(** Monadic left fold: the body of a [for] loop run over a list of indices. *)
Fixpoint foldM {A B} (f : A -> B -> result A) (l : list B) (a : A) : result A :=
  match l with
  | [] => Ok a
  | b :: l' => a' <- f a b ;; foldM f l' a'
  end.

(** Lock-step traversal of two tuples; a length mismatch is a shape error. *)
Fixpoint zip_exact {A B C} (f : A -> B -> result C) (la : list A) (lb : list B)
  : result (list C) :=
  match la, lb with
  | [], [] => Ok []
  | a :: la', b :: lb' =>
      c <- f a b ;; cs <- zip_exact f la' lb' ;; Ok (c :: cs)
  | _, _ => Raise ValueError
  end.

(* ===================================================================== *)
(** ** Floats, vectors and control tuples                                 *)
(* ===================================================================== *)

Definition vec : Type := list Q.
Definition control : Type := list vec.

(** Python float division. *)
Definition pydiv (a b : Q) : result Q :=
  if Qeq_bool b 0 then Raise ZeroDivisionError else Ok (a / b).

(** A double that may be an infinity. *)
Inductive double : Type :=
| Real (q : Q)
| Inf (negative : bool).

(** The least magnitude that is rounded to an infinity: the largest finite
    double, [2^1024 - 2^971], plus half a unit in its last place. *)
Definition overflow_threshold : Q := inject_Z (2 ^ 1024 - 2 ^ 970).

(** Python's [1/x] on a float [x]: [ZeroDivisionError] at [0.0], and an
    infinity where the quotient overflows, as it does for every double
    [x] with [0 < |x| <= 2^-1024].  The rounding of a finite quotient is
    not modelled. *)
Definition reciprocal (x : Q) : result double :=
  if Qeq_bool x 0 then Raise ZeroDivisionError
  else if Qle_bool overflow_threshold (Qabs (1 / x))
       then Ok (Inf (negb (Qle_bool 0 x)))
       else Ok (Real (1 / x)).

(** [x > 0] and [x <= 0] on floats. *)
Definition gt0 (x : Q) : bool := negb (Qle_bool x 0).
Definition le0 (x : Q) : bool := Qle_bool x 0.

(** [d[i]] on a deque or list, with Python's negative indices. *)
Definition deque_get {A} (l : list A) (i : Z) : result A :=
  let n := Z.of_nat (length l) in
  let k := if (i <? 0)%Z then (i + n)%Z else i in
  if ((k <? 0) || (n <=? k))%Z then Raise IndexError
  else match nth_error l (Z.to_nat k) with
       | Some x => Ok x
       | None => Raise IndexError
       end.

(** [v[k] = x] for one index. *)
Fixpoint set_item (v : vec) (k : nat) (x : Q) : result vec :=
  match v, k with
  | [], _ => Raise IndexError
  | _ :: v', O => Ok (x :: v')
  | a :: v', S k' => v'' <- set_item v' k' x ;; Ok (a :: v'')
  end.

(** [v[idx] = 0.0] for an index array [idx]. *)
Fixpoint set_active (v : vec) (idx : list nat) : result vec :=
  match idx with
  | [] => Ok v
  | k :: idx' => v' <- set_item v k 0 ;; set_active v' idx'
  end.

(** [v[:] = w[:] ; v[idx] = 0.0] for every component. *)
Definition assign_zero_active (w : control) (idx_active : list (list nat))
  : result control :=
  zip_exact set_active w idx_active.

(** Componentwise arithmetic on vectors of one function space. *)
Fixpoint vec_zip (f : Q -> Q -> Q) (v w : vec) : result vec :=
  match v, w with
  | [], [] => Ok []
  | a :: v', b :: w' => r <- vec_zip f v' w' ;; Ok (f a b :: r)
  | _, _ => Raise ValueError
  end.

(** [d[j][:] -= alpha * y[j][:]] for every component [j]. *)
Definition sub_scaled (alpha : Q) (d y : control) : result control :=
  zip_exact (vec_zip (fun a b => a - alpha * b)) d y.

(** [d[j][:] += s[j][:] * c] for every component [j]. *)
Definition add_scaled (c : Q) (d s : control) : result control :=
  zip_exact (vec_zip (fun a b => a + b * c)) d s.

(** The Euclidean scalar product of two control tuples: the instance of
    [form_handler.scalar_product] used for worked examples. *)
Definition dot_vec (v w : vec) : Q :=
  fold_right Qplus 0 (map (fun p => fst p * snd p) (combine v w)).
Definition dot (a b : control) : Q :=
  fold_right Qplus 0 (map (fun p => dot_vec (fst p) (snd p)) (combine a b)).

(* ===================================================================== *)
(** ** The solver object                                                  *)
(* ===================================================================== *)

(** What the solver writes to the outside: its diagnostics and its calls
    of [self.line_search.search], in program order. *)
Inductive event : Type :=
| Print (msg : string)
| PrintResults
| LineSearch (direction : control).

(** The attributes of an [InnerLBFGS] object.  When [memory_vectors <= 0]
    the three deques and [gradients_prev] do not exist in the source; they
    are then never read, and are empty here. *)
Record InnerLBFGS : Type := {
  (* configuration, fixed by [__init__] *)
  maximum_iterations : Z;
  tolerance : Q;
  atol : Q;
  rtol : Q;
  soft_exit : bool;
  memory_vectors : Z;
  use_bfgs_scaling : bool;
  (* fields *)
  reduced_gradient : control;
  gradients_prev : control;
  search_directions : control;
  storage_y : control;
  storage_s : control;
  (* L-BFGS memory *)
  history_s : list control;
  history_y : list control;
  history_rho : list Q;
  (* counters and norms *)
  iteration : Z;
  first_gradient_norm : Q;
  first_iteration : bool;
  gradient_norm : Q;
  gradient_norm_initial : Q;
  relative_norm : Q;
  directional_derivative : Q;
  stepsize : Q;
  line_search_broken : bool;
  (* observable output *)
  trace : list event
}.

(** [fenics.Function(V)]: the zero function of a space of dimension [n]. *)
Definition Function (n : nat) : vec := repeat 0 n.

(** [InnerLBFGS.__init__] (lines 17-38), for control spaces of the given
    dimensions and the given configuration values.  The attributes that
    the base class [OptimizationAlgorithm] and the line search own
    ([atol], [rtol], [soft_exit], [search_directions], [iteration],
    [stepsize], [line_search_broken], the norms) start at the values
    given here; [run] and the line search overwrite them before they are
    read. *)
Definition init (control_spaces : list nat)
           (max_it : Z) (tol a r : Q) (soft : bool) (mv : Z) (scaling : bool)
  : InnerLBFGS :=
  {| maximum_iterations := max_it; tolerance := tol; atol := a; rtol := r;
     soft_exit := soft; memory_vectors := mv; use_bfgs_scaling := scaling;
     reduced_gradient := map Function control_spaces;
     gradients_prev := map Function control_spaces;
     search_directions := map Function control_spaces;
     storage_y := map Function control_spaces;
     storage_s := map Function control_spaces;
     history_s := []; history_y := []; history_rho := [];
     iteration := 0;
     first_gradient_norm := 1; first_iteration := true;
     gradient_norm := 0; gradient_norm_initial := 0; relative_norm := 1;
     directional_derivative := 0; stepsize := 1;
     line_search_broken := false;
     trace := [] |}.

(** The object with its L-BFGS memory replaced. *)
Definition with_history (self : InnerLBFGS)
           (hs hy : list control) (hrho : list Q) : InnerLBFGS :=
  {| maximum_iterations := maximum_iterations self;
     tolerance := tolerance self; atol := atol self; rtol := rtol self;
     soft_exit := soft_exit self; memory_vectors := memory_vectors self;
     use_bfgs_scaling := use_bfgs_scaling self;
     reduced_gradient := reduced_gradient self;
     gradients_prev := gradients_prev self;
     search_directions := search_directions self;
     storage_y := storage_y self; storage_s := storage_s self;
     history_s := hs; history_y := hy; history_rho := hrho;
     iteration := iteration self;
     first_gradient_norm := first_gradient_norm self;
     first_iteration := first_iteration self;
     gradient_norm := gradient_norm self;
     gradient_norm_initial := gradient_norm_initial self;
     relative_norm := relative_norm self;
     directional_derivative := directional_derivative self;
     stepsize := stepsize self;
     line_search_broken := line_search_broken self;
     trace := trace self |}.

(* ===================================================================== *)
(** ** InnerLBFGS.compute_search_direction                                *)
(* ===================================================================== *)

Section SearchDirection.

(** [self.form_handler.scalar_product], a collaborator outside the file. *)
Variable scalar_product : control -> control -> Q.

(** One pass of the first loop (lines 50-54). *)
Definition forward_step (self : InnerLBFGS) (acc : control * list Q) (i : nat)
  : result (control * list Q) :=
  let '(d, history_alpha) := acc in
  rho <- deque_get (history_rho self) (Z.of_nat i) ;;
  s <- deque_get (history_s self) (Z.of_nat i) ;;
  let alpha := rho * scalar_product s d in
  y <- deque_get (history_y self) (Z.of_nat i) ;;
  d' <- sub_scaled alpha d y ;;
  Ok (d', history_alpha ++ [alpha]).

(** Lines 56-59. *)
Definition scaling_factor (self : InnerLBFGS) : result Q :=
  if use_bfgs_scaling self && (0 <? iteration self)%Z then
    y0 <- deque_get (history_y self) 0 ;;
    s0 <- deque_get (history_s self) 0 ;;
    pydiv (scalar_product y0 s0) (scalar_product y0 y0)
  else Ok 1.

(** Lines 61-63. *)
Definition scale_zero_active (factor : Q) (d : control)
           (idx_active : list (list nat)) : result control :=
  zip_exact (fun v idx => set_active (map (fun x => x * factor) v) idx)
            d idx_active.

(** One pass of the second loop (lines 65-69). *)
Definition backward_step (self : InnerLBFGS) (history_alpha : list Q)
           (d : control) (i : nat) : result control :=
  let k := (-1 - Z.of_nat i)%Z in
  rho <- deque_get (history_rho self) k ;;
  y <- deque_get (history_y self) k ;;
  let beta := rho * scalar_product y d in
  s <- deque_get (history_s self) k ;;
  alpha <- deque_get history_alpha k ;;
  add_scaled (alpha - beta) d s.

(** Lines 45-69: the two-loop recursion up to, and excluding, the last
    loop, which zeroes the active entries and negates. *)
Definition two_loop_recursion (self : InnerLBFGS) (grad : control)
           (idx_active : list (list nat)) : result control :=
  d0 <- assign_zero_active grad idx_active ;;
  let range := seq 0 (length (history_s self)) in
  '(d1, history_alpha) <- foldM (forward_step self) range (d0, []) ;;
  factor <- scaling_factor self ;;
  d2 <- scale_zero_active factor d1 idx_active ;;
  foldM (backward_step self history_alpha) range d2.

(** Lines 71-73. *)
Definition zero_active_negate (d : control) (idx_active : list (list nat))
  : result control :=
  zip_exact (fun v idx =>
               v' <- set_active v idx ;; Ok (map (fun x => x * (-1 # 1)) v'))
            d idx_active.

(** Lines 75-78. *)
Definition negative_gradient (grad : control) (idx_active : list (list nat))
  : result control :=
  zip_exact (fun g idx => set_active (map Qopp g) idx) grad idx_active.

(** Lines 42-80.  The value returned is [self.search_directions]. *)
Definition compute_search_direction (self : InnerLBFGS) (grad : control)
           (idx_active : list (list nat)) : result control :=
  if (0 <? memory_vectors self)%Z && (0 <? length (history_s self))%nat then
    d <- two_loop_recursion self grad idx_active ;;
    zero_active_negate d idx_active
  else
    negative_gradient grad idx_active.

End SearchDirection.

(* ===================================================================== *)
(** ** InnerLBFGS.run                                                     *)
(* ===================================================================== *)

(** The three PDE problems whose [has_solution] flag [run] resets. *)
Inductive problem : Type := StateProblem | AdjointProblem | GradientProblem.

(** [d.pop()]: drop the oldest (rightmost) entry. *)
Definition deque_pop {A} (l : list A) : result (list A) :=
  match l with
  | [] => Raise IndexError
  | _ :: _ => Ok (removelast l)
  end.

Definition neg_control (g : control) : control := map (map Qopp) g.

(** [d[j][:] = -g[j][:]] for every component (lines 111-112). *)
Definition assign_negated (d g : control) : result control :=
  zip_exact (fun v w => if (length v =? length w)%nat then Ok (map Qopp w)
                        else Raise ValueError) d g.

Definition add_trace (self : InnerLBFGS) (evs : list event) : InnerLBFGS :=
  {| maximum_iterations := maximum_iterations self;
     tolerance := tolerance self; atol := atol self; rtol := rtol self;
     soft_exit := soft_exit self; memory_vectors := memory_vectors self;
     use_bfgs_scaling := use_bfgs_scaling self;
     reduced_gradient := reduced_gradient self;
     gradients_prev := gradients_prev self;
     search_directions := search_directions self;
     storage_y := storage_y self; storage_s := storage_s self;
     history_s := history_s self; history_y := history_y self;
     history_rho := history_rho self;
     iteration := iteration self;
     first_gradient_norm := first_gradient_norm self;
     first_iteration := first_iteration self;
     gradient_norm := gradient_norm self;
     gradient_norm_initial := gradient_norm_initial self;
     relative_norm := relative_norm self;
     directional_derivative := directional_derivative self;
     stepsize := stepsize self;
     line_search_broken := line_search_broken self;
     trace := trace self ++ evs |}.

Section Run.

(** Collaborators that live outside the file.  [World] is the state they
    own (controls, cached PDE solutions, the line search's bookkeeping). *)
Variable scalar_product : control -> control -> Q.
Variable World : Type.
(** [p.has_solution = False]. *)
Variable invalidate : problem -> World -> World.
(** [self.gradient_problem.solve()]; the value is [self.gradients]. *)
Variable gradient_problem_solve : World -> result (World * control).
(** [self.line_search.search(d)]; the values are [self.stepsize] and
    [self.line_search_broken] as the search leaves them. *)
Variable line_search_search : control -> World -> result (World * Q * bool).
(** numpy's square root and numpy's division of [float64] values (which
    does not raise). *)
Variable np_sqrt : Q -> Q.
Variable np_divide : Q -> Q -> Q.

(** Lines 86-103. *)
Definition run_setup (self : InnerLBFGS) (w : World)
           (idx_active : list (list nat)) : result (InnerLBFGS * World) :=
  let w := invalidate StateProblem w in
  let w := invalidate AdjointProblem w in
  let w := invalidate GradientProblem w in
  '(w, gradients) <- gradient_problem_solve w ;;
  rg <- assign_zero_active gradients idx_active ;;
  let gn := np_sqrt (scalar_product rg rg) in
  Ok ({| maximum_iterations := maximum_iterations self;
         tolerance := tolerance self; atol := atol self; rtol := rtol self;
         soft_exit := soft_exit self; memory_vectors := memory_vectors self;
         use_bfgs_scaling := use_bfgs_scaling self;
         reduced_gradient := rg;
         gradients_prev := gradients_prev self;
         search_directions := search_directions self;
         storage_y := storage_y self; storage_s := storage_s self;
         history_s := history_s self; history_y := history_y self;
         history_rho := history_rho self;
         iteration := 0;
         first_gradient_norm :=
           if first_iteration self then gn else first_gradient_norm self;
         first_iteration := false;
         gradient_norm := gn;
         gradient_norm_initial := gn;
         relative_norm := 1;
         directional_derivative := directional_derivative self;
         stepsize := stepsize self;
         line_search_broken := line_search_broken self;
         trace := trace self |}, w).

(** The negation of the [while] condition (line 105). *)
Definition converged (self : InnerLBFGS) : bool :=
  Qle_bool (gradient_norm self)
           (atol self + rtol self * gradient_norm_initial self)
  || Qle_bool (np_divide (relative_norm self * gradient_norm_initial self)
                         (first_gradient_norm self))
              (tolerance self / 2).

(** Lines 108-112: the descent safeguard.  The values are the direction
    handed on and the diagnostics printed. *)
Definition descent_safeguard (d reduced : control)
  : result (control * list event) :=
  if gt0 (scalar_product d reduced) then
    d' <- assign_negated d reduced ;;
    Ok (d', [Print "No descent direction found"])
  else Ok (d, []).

(** Lines 106-114. *)
Definition search_step (self : InnerLBFGS) (w : World)
           (idx_active : list (list nat)) : result (InnerLBFGS * World) :=
  d <- compute_search_direction scalar_product self
         (reduced_gradient self) idx_active ;;
  let dd := scalar_product d (reduced_gradient self) in
  '(d, printed) <- descent_safeguard d (reduced_gradient self) ;;
  '(w, step, broken) <- line_search_search d w ;;
  Ok ({| maximum_iterations := maximum_iterations self;
         tolerance := tolerance self; atol := atol self; rtol := rtol self;
         soft_exit := soft_exit self; memory_vectors := memory_vectors self;
         use_bfgs_scaling := use_bfgs_scaling self;
         reduced_gradient := reduced_gradient self;
         gradients_prev := gradients_prev self;
         search_directions := d;
         storage_y := storage_y self; storage_s := storage_s self;
         history_s := history_s self; history_y := history_y self;
         history_rho := history_rho self;
         iteration := iteration self;
         first_gradient_norm := first_gradient_norm self;
         first_iteration := first_iteration self;
         gradient_norm := gradient_norm self;
         gradient_norm_initial := gradient_norm_initial self;
         relative_norm := relative_norm self;
         directional_derivative := dd;
         stepsize := step;
         line_search_broken := broken;
         trace := trace self ++ printed ++ [LineSearch d] |}, w).

(** Lines 122-136. *)
Definition gradient_step (self : InnerLBFGS) (w : World)
           (idx_active : list (list nat)) : result (InnerLBFGS * World) :=
  let prev := if (0 <? memory_vectors self)%Z then reduced_gradient self
              else gradients_prev self in
  let w := invalidate AdjointProblem w in
  let w := invalidate GradientProblem w in
  '(w, gradients) <- gradient_problem_solve w ;;
  rg <- assign_zero_active gradients idx_active ;;
  let gn := np_sqrt (scalar_product rg rg) in
  Ok ({| maximum_iterations := maximum_iterations self;
         tolerance := tolerance self; atol := atol self; rtol := rtol self;
         soft_exit := soft_exit self; memory_vectors := memory_vectors self;
         use_bfgs_scaling := use_bfgs_scaling self;
         reduced_gradient := rg;
         gradients_prev := prev;
         search_directions := search_directions self;
         storage_y := storage_y self; storage_s := storage_s self;
         history_s := history_s self; history_y := history_y self;
         history_rho := history_rho self;
         iteration := iteration self;
         first_gradient_norm := first_gradient_norm self;
         first_iteration := first_iteration self;
         gradient_norm := gn;
         gradient_norm_initial := gradient_norm_initial self;
         relative_norm := np_divide gn (gradient_norm_initial self);
         directional_derivative := directional_derivative self;
         stepsize := stepsize self;
         line_search_broken := line_search_broken self;
         trace := trace self |}, w).

(** Lines 153-156. *)
Definition truncate (memory : Z) (hs hy : list control) (hrho : list Q)
  : result (list control * list control * list Q) :=
  if (memory <? Z.of_nat (length hs))%Z then
    hs' <- deque_pop hs ;;
    hy' <- deque_pop hy ;;
    hrho' <- deque_pop hrho ;;
    Ok (hs', hy', hrho')
  else Ok (hs, hy, hrho).

(** Lines 146-156: the push of [rho] and what follows, on [history_s] and
    [history_y] after their pushes and [history_rho] before its push.  A
    finite [rho] is not [0.0], and [1/rho] has its sign.  An infinite
    [rho] is in the deque only until the test of line 148: [1/rho] is then
    [0.0] or [-0.0], the test [1/rho <= 0] holds and the three deques are
    replaced by empty ones. *)
Definition clear_and_truncate (memory : Z) (rho : double)
           (hs hy : list control) (hrho : list Q)
  : result (list control * list control * list Q) :=
  match rho with
  | Real rho =>
      inv_rho <- pydiv 1 rho ;;
      let '(hs, hy, hrho) :=
        if le0 inv_rho then ([], [], []) else (hs, hy, rho :: hrho) in
      truncate memory hs hy hrho
  | Inf _ => truncate memory [] [] []
  end.

(** Lines 138-156. *)
Definition update_history (self : InnerLBFGS) : result InnerLBFGS :=
  if (0 <? memory_vectors self)%Z then
    sy <- zip_exact (vec_zip Qminus)
            (reduced_gradient self) (gradients_prev self) ;;
    let ss := map (map (fun x => stepsize self * x))
                  (search_directions self) in
    let hy := sy :: history_y self in
    let hs := ss :: history_s self in
    rho <- reciprocal (scalar_product sy ss) ;;
    '(hs, hy, hrho) <- clear_and_truncate (memory_vectors self) rho
                         hs hy (history_rho self) ;;
    Ok {| maximum_iterations := maximum_iterations self;
          tolerance := tolerance self; atol := atol self; rtol := rtol self;
          soft_exit := soft_exit self; memory_vectors := memory_vectors self;
          use_bfgs_scaling := use_bfgs_scaling self;
          reduced_gradient := reduced_gradient self;
          gradients_prev := gradients_prev self;
          search_directions := search_directions self;
          storage_y := sy; storage_s := ss;
          history_s := hs; history_y := hy; history_rho := hrho;
          iteration := iteration self;
          first_gradient_norm := first_gradient_norm self;
          first_iteration := first_iteration self;
          gradient_norm := gradient_norm self;
          gradient_norm_initial := gradient_norm_initial self;
          relative_norm := relative_norm self;
          directional_derivative := directional_derivative self;
          stepsize := stepsize self;
          line_search_broken := line_search_broken self;
          trace := trace self |}
  else Ok self.

(** Lines 158-165.  The boolean tells whether the loop is left by
    [break]. *)
Definition finish_iteration (self : InnerLBFGS) : result (InnerLBFGS * bool) :=
  let self :=
    {| maximum_iterations := maximum_iterations self;
       tolerance := tolerance self; atol := atol self; rtol := rtol self;
       soft_exit := soft_exit self; memory_vectors := memory_vectors self;
       use_bfgs_scaling := use_bfgs_scaling self;
       reduced_gradient := reduced_gradient self;
       gradients_prev := gradients_prev self;
       search_directions := search_directions self;
       storage_y := storage_y self; storage_s := storage_s self;
       history_s := history_s self; history_y := history_y self;
       history_rho := history_rho self;
       iteration := iteration self + 1;
       first_gradient_norm := first_gradient_norm self;
       first_iteration := first_iteration self;
       gradient_norm := gradient_norm self;
       gradient_norm_initial := gradient_norm_initial self;
       relative_norm := relative_norm self;
       directional_derivative := directional_derivative self;
       stepsize := stepsize self;
       line_search_broken := line_search_broken self;
       trace := trace self |} in
  if (maximum_iterations self <=? iteration self)%Z then
    if soft_exit self then
      Ok (add_trace self
            [PrintResults; Print "Maximum number of iterations exceeded."],
          true)
    else Raise (SystemExit "Maximum number of iterations exceeded.")
  else Ok (self, false).

(** Lines 106-165: one pass through the body of the [while] loop. *)
Definition iteration_body (self : InnerLBFGS) (w : World)
           (idx_active : list (list nat))
  : result (InnerLBFGS * World * bool) :=
  '(self, w) <- search_step self w idx_active ;;
  if line_search_broken self then
    if soft_exit self then
      Ok (add_trace self [Print "Armijo rule failed."], w, true)
    else Raise (SystemExit "Armijo rule failed.")
  else
    '(self, w) <- gradient_step self w idx_active ;;
    self <- update_history self ;;
    '(self, stop) <- finish_iteration self ;;
    Ok (self, w, stop).

(** The [while] loop (line 105).  [None]: the fuel ran out. *)
Fixpoint while_loop (fuel : nat) (self : InnerLBFGS) (w : World)
         (idx_active : list (list nat)) : option (result (InnerLBFGS * World)) :=
  if converged self then Some (Ok (self, w))
  else match fuel with
       | O => None
       | S fuel' =>
           match iteration_body self w idx_active with
           | Raise e => Some (Raise e)
           | Ok (self', w', true) => Some (Ok (self', w'))
           | Ok (self', w', false) => while_loop fuel' self' w' idx_active
           end
       end.

(** As many passes as the iteration counter allows. *)
Definition run_fuel (self : InnerLBFGS) : nat :=
  Z.to_nat (Z.max 1 (maximum_iterations self)).

(** Lines 84-165. *)
Definition run (self : InnerLBFGS) (w : World) (idx_active : list (list nat))
  : option (result (InnerLBFGS * World)) :=
  match run_setup self w idx_active with
  | Raise e => Some (Raise e)
  | Ok (self0, w0) => while_loop (run_fuel self0) self0 w0 idx_active
  end.

End Run.

(* ===================================================================== *)
(** ** cestrel/geometry.py: numpy reductions                              *)
(* ===================================================================== *)

(** [np.min] and [np.max]; both raise [ValueError] on an empty array. *)
Definition np_min (x : list Q) : result Q :=
  match x with
  | [] => Raise ValueError
  | a :: x' => Ok (fold_left Qmin x' a)
  end.

Definition np_max (x : list Q) : result Q :=
  match x with
  | [] => Raise ValueError
  | a :: x' => Ok (fold_left Qmax x' a)
  end.

(** [np.average]: the sum over the number of entries.  (On an empty array
    numpy answers NaN, which has no counterpart here.) *)
Definition np_average (x : list Q) : Q :=
  fold_right Qplus 0 x / inject_Z (Z.of_nat (length x)).

(* ===================================================================== *)
(** ** MeshQuality: the C++ kernels [skewness] and [maximum_angle]        *)
(* ===================================================================== *)

(** A mesh: vertex coordinates, cell connectivity, topological and
    geometric dimension. *)
Record Mesh : Type := {
  coordinates : list (list Q);
  cells : list (list nat);
  tdim : nat;
  geometric_dimension : nat
}.

(** [DOLFIN_PI] and [acos(1.0/3.0)], as the doubles they are. *)
Definition DOLFIN_PI : Q := 884279719003555 # 281474976710656.
Definition acos_one_third : Q := 1385937093311029 # 1125899906842624.

(** dolfin's [Point]: three coordinates, the missing ones zero. *)
Definition Point : Type := (Q * Q * Q)%type.

Definition point_of (c : list Q) : Point :=
  (nth 0 c 0, nth 1 c 0, nth 2 c 0).

Definition psub (p q : Point) : Point :=
  let '(a, b, c) := p in let '(x, y, z) := q in (a - x, b - y, c - z).
Definition pdot (p q : Point) : Q :=
  let '(a, b, c) := p in let '(x, y, z) := q in a * x + b * y + c * z.
Definition pcross (p q : Point) : Point :=
  let '(a, b, c) := p in let '(x, y, z) := q in
  (b * z - c * y, c * x - a * z, a * y - b * x).
Definition pscale (k : Q) (p : Point) : Point :=
  let '(a, b, c) := p in (k * a, k * b, k * c).
Definition pdivide (p : Point) (k : Q) : Point :=
  let '(a, b, c) := p in (a / k, b / k, c / k).

(** The score of one angle under each measure, and [std::min_element]. *)
Definition skewness_angle (opt_angle a : Q) : Q :=
  1 - Qmax ((a - opt_angle) / (DOLFIN_PI - opt_angle))
           ((opt_angle - a) / opt_angle).

Definition maximum_angle_angle (opt_angle a : Q) : Q :=
  1 - Qmax ((a - opt_angle) / (DOLFIN_PI - opt_angle)) 0.

Definition min_element (quals : list Q) : Q :=
  match quals with
  | [] => 0
  | q :: quals' => fold_left Qmin quals' q
  end.

Section Kernels.

(** The C library's [acos] and [sqrt] on doubles. *)
Variable acos : Q -> Q.
Variable sqrt : Q -> Q.

Definition pnorm (p : Point) : Q := sqrt (pdot p p).

Definition vertex_point (mesh : Mesh) (i : nat) : Point :=
  point_of (nth i (coordinates mesh) []).

(** [angles_triangle]. *)
Definition angles_triangle (mesh : Mesh) (cell : list nat) : list Q :=
  let p0 := vertex_point mesh (nth 0 cell O) in
  let p1 := vertex_point mesh (nth 1 cell O) in
  let p2 := vertex_point mesh (nth 2 cell O) in
  let e0 := psub p1 p0 in
  let e1 := psub p2 p0 in
  let e2 := psub p2 p1 in
  let e0 := pdivide e0 (pnorm e0) in
  let e1 := pdivide e1 (pnorm e1) in
  let e2 := pdivide e2 (pnorm e2) in
  [acos (pdot e0 e1); acos (pdot e0 e2); acos (pdot e1 e2)].

(** [dihedral_angles]. *)
Definition dihedral_angles (mesh : Mesh) (cell : list nat) : list Q :=
  let p0 := vertex_point mesh (nth 0 cell O) in
  let p1 := vertex_point mesh (nth 1 cell O) in
  let p2 := vertex_point mesh (nth 2 cell O) in
  let p3 := vertex_point mesh (nth 3 cell O) in
  let e0 := psub p1 p0 in
  let e1 := psub p2 p0 in
  let e2 := psub p3 p0 in
  let e3 := psub p2 p1 in
  let e4 := psub p3 p1 in
  let n0 := pcross e0 e1 in
  let n1 := pcross e0 e2 in
  let n2 := pcross e1 e2 in
  let n3 := pcross e3 e4 in
  let n0 := pdivide n0 (pnorm n0) in
  let n1 := pdivide n1 (pnorm n1) in
  let n2 := pdivide n2 (pnorm n2) in
  let n3 := pdivide n3 (pnorm n3) in
  [acos (pdot n0 n1); acos (- pdot n0 n2); acos (pdot n1 n2);
   acos (pdot n0 n3); acos (pdot n1 (pscale (-1 # 1) n3)); acos (pdot n2 n3)].

(** The part the two kernels share: the angles of a cell and the optimal
    angle, by dimension; [dolfin_error] otherwise. *)
Definition cell_angles (mesh : Mesh) (cell : list nat) : result (list Q * Q) :=
  match tdim mesh with
  | 2%nat => Ok (angles_triangle mesh cell, DOLFIN_PI / 3)
  | 3%nat => Ok (dihedral_angles mesh cell, acos_one_third)
  | _ => Raise RuntimeError
  end.

Fixpoint for_cells (score : Q -> Q -> Q) (mesh : Mesh) (cs : list (list nat))
  : result (list Q) :=
  match cs with
  | [] => Ok []
  | cell :: cs' =>
      '(angs, opt_angle) <- cell_angles mesh cell ;;
      let cf := min_element (map (score opt_angle) angs) in
      rest <- for_cells score mesh cs' ;;
      Ok (cf :: rest)
  end.

(** The kernels; the value is the array of the cell function. *)
Definition skewness (mesh : Mesh) : result (list Q) :=
  for_cells skewness_angle mesh (cells mesh).

Definition maximum_angle (mesh : Mesh) : result (list Q) :=
  for_cells maximum_angle_angle mesh (cells mesh).

(** The class methods of [MeshQuality] built on the kernels. *)
Definition min_skewness (mesh : Mesh) : result Q :=
  q <- skewness mesh ;; np_min q.

Definition avg_skewness (mesh : Mesh) : result Q :=
  q <- maximum_angle mesh ;; Ok (np_average q).

Definition min_maximum_angle (mesh : Mesh) : result Q :=
  q <- maximum_angle mesh ;; np_min q.

Definition avg_maximum_angle (mesh : Mesh) : result Q :=
  q <- maximum_angle mesh ;; Ok (np_average q).

End Kernels.

(* ===================================================================== *)
(** ** _MeshHandler                                                       *)
(* ===================================================================== *)

(** A configuration value read with [float(...)], fallback ['inf']. *)
Inductive bound : Type := Finite (q : Q) | Infinity.

(** A dolfin [Function] handed to [move_mesh]: what [ufl_element()] tells
    about it, and its coefficient vector. *)
Record Transformation : Type := {
  family : string;
  degree : Z;
  value_shape : list nat;
  vector : vec
}.

Record MeshHandler : Type := {
  mesh : Mesh;
  (** the mesh the bounding box tree was last built from *)
  bbtree : Mesh;
  volume_change : bound;
  angle_change : bound;
  mesh_quality_measure : string;
  mesh_quality_type : string;
  current_mesh_quality : Q;
  (** [None]: the attribute does not exist yet *)
  old_coordinates : option (list (list Q));
  transformation_container : vec
}.

Definition with_coordinates (m : Mesh) (c : list (list Q)) : Mesh :=
  {| coordinates := c; cells := cells m; tdim := tdim m;
     geometric_dimension := geometric_dimension m |}.

(** [self.mesh.coordinates()[:, :] = c ; self.bbtree.build(self.mesh)]. *)
Definition set_coordinates_and_build (self : MeshHandler) (c : list (list Q))
  : MeshHandler :=
  {| mesh := with_coordinates (mesh self) c;
     bbtree := with_coordinates (mesh self) c;
     volume_change := volume_change self; angle_change := angle_change self;
     mesh_quality_measure := mesh_quality_measure self;
     mesh_quality_type := mesh_quality_type self;
     current_mesh_quality := current_mesh_quality self;
     old_coordinates := old_coordinates self;
     transformation_container := transformation_container self |}.

Definition set_old_coordinates (self : MeshHandler) (c : list (list Q))
  : MeshHandler :=
  {| mesh := mesh self; bbtree := bbtree self;
     volume_change := volume_change self; angle_change := angle_change self;
     mesh_quality_measure := mesh_quality_measure self;
     mesh_quality_type := mesh_quality_type self;
     current_mesh_quality := current_mesh_quality self;
     old_coordinates := Some c;
     transformation_container := transformation_container self |}.

Definition set_transformation_container (self : MeshHandler) (v : vec)
  : MeshHandler :=
  {| mesh := mesh self; bbtree := bbtree self;
     volume_change := volume_change self; angle_change := angle_change self;
     mesh_quality_measure := mesh_quality_measure self;
     mesh_quality_type := mesh_quality_type self;
     current_mesh_quality := current_mesh_quality self;
     old_coordinates := old_coordinates self;
     transformation_container := v |}.

Definition set_current_mesh_quality (self : MeshHandler) (q : Q)
  : MeshHandler :=
  {| mesh := mesh self; bbtree := bbtree self;
     volume_change := volume_change self; angle_change := angle_change self;
     mesh_quality_measure := mesh_quality_measure self;
     mesh_quality_type := mesh_quality_type self;
     current_mesh_quality := q;
     old_coordinates := old_coordinates self;
     transformation_container := transformation_container self |}.

(** [x in l] for a list of strings. *)
Definition str_in (x : string) (l : list string) : bool :=
  existsb (String.eqb x) l.

(** [M.flatten().tolist().count(i)]. *)
Definition occurences_of (i : nat) (M : list (list nat)) : nat :=
  count_occ Nat.eq_dec (concat M) i.

(** [cells[cells_idx]]: the rows of [cells] picked by an index array. *)
Fixpoint take_rows (cs : list (list nat)) (cells_idx : list nat)
  : result (list (list nat)) :=
  match cells_idx with
  | [] => Ok []
  | k :: rest =>
      match nth_error cs k with
      | None => Raise IndexError
      | Some row => M <- take_rows cs rest ;; Ok (row :: M)
      end
  end.

Section Handler.

(** The C library's [acos] and [sqrt], numpy's division, and the parts of
    dolfin and PETSc the handler calls. *)
Variable acos : Q -> Q.
Variable sqrt : Q -> Q.
Variable np_divide : Q -> Q -> Q.
(** [fenics.MeshQuality.radius_ratios(mesh).array()]. *)
Variable radius_ratios : Mesh -> list Q.
(** [cond.vector()[:]] after the projection solve of the condition number. *)
Variable condition_solve : Mesh -> list Q.
(** The projection solve of [__test_a_priori]: the solution [x[:]], the
    cell values of [det(I + grad(transformation_container))], and
    [ksp_prior.getConvergedReason()]. *)
Variable prior_solve : Mesh -> vec -> list Q * Z.
(** [fenics.ALE.move(mesh, transformation)]; the value is the new
    coordinate array, of the shape of the old one. *)
Variable ALE_move : Mesh -> Transformation -> result (list (list Q)).
(** [bbtree.compute_entity_collisions(Point(x))]. *)
Variable compute_entity_collisions : Mesh -> list Q -> list nat.

Definition min_radius_ratios (m : Mesh) : result Q :=
  np_min (radius_ratios m).

Definition avg_radius_ratios (m : Mesh) : result Q :=
  Ok (np_average (radius_ratios m)).

Definition condition_quality (m : Mesh) : list Q :=
  map (np_divide (sqrt (inject_Z (Z.of_nat (geometric_dimension m)))))
      (condition_solve m).

Definition min_condition_number (m : Mesh) : result Q :=
  np_min (condition_quality m).

Definition avg_condition_number (m : Mesh) : result Q :=
  Ok (np_average (condition_quality m)).

(** [compute_mesh_quality]. *)
Definition compute_mesh_quality (self : MeshHandler) : result MeshHandler :=
  let measure := mesh_quality_measure self in
  let m := mesh self in
  if str_in (mesh_quality_type self) ["min"; "minimum"]%string then
    if (measure =? "skewness")%string then
      q <- min_skewness acos sqrt m ;; Ok (set_current_mesh_quality self q)
    else if (measure =? "maximum_angle")%string then
      q <- min_maximum_angle acos sqrt m ;; Ok (set_current_mesh_quality self q)
    else if (measure =? "radius_ratios")%string then
      q <- min_radius_ratios m ;; Ok (set_current_mesh_quality self q)
    else if (measure =? "condition_number")%string then
      q <- min_condition_number m ;; Ok (set_current_mesh_quality self q)
    else Ok self
  else
    if (measure =? "skewness")%string then
      q <- avg_skewness acos sqrt m ;; Ok (set_current_mesh_quality self q)
    else if (measure =? "maximum_angle")%string then
      q <- avg_maximum_angle acos sqrt m ;; Ok (set_current_mesh_quality self q)
    else if (measure =? "radius_ratios")%string then
      q <- avg_radius_ratios m ;; Ok (set_current_mesh_quality self q)
    else if (measure =? "condition_number")%string then
      q <- avg_condition_number m ;; Ok (set_current_mesh_quality self q)
    else Ok self.

(** [revert_transformation]. *)
Definition revert_transformation (self : MeshHandler) : result MeshHandler :=
  match old_coordinates self with
  | None => Raise AttributeError
  | Some c => Ok (set_coordinates_and_build self c)
  end.

(** [__test_a_priori].  Besides the verdict, the handler comes back: the
    check overwrites [transformation_container]. *)
Definition test_a_priori (self : MeshHandler) (transformation : Transformation)
  : result (bool * MeshHandler) :=
  match volume_change self with
  | Finite vc =>
      if negb (length (transformation_container self)
               =? length (vector transformation))%nat
      then Raise ValueError
      else
        let self := set_transformation_container self (vector transformation) in
        let '(x, reason) := prior_solve (mesh self)
                                        (transformation_container self) in
        if (reason <? 0)%Z then Raise KrylovError
        else
          min_det <- np_min x ;;
          max_det <- np_max x ;;
          bound_low <- pydiv 1 vc ;;
          Ok (Qle_bool bound_low min_det && Qle_bool max_det vc, self)
  | Infinity => Ok (true, self)
  end.

(** The loop of [__test_a_posteriori] over the vertices, from vertex [i]
    on; [true]: a self intersection was found. *)
Fixpoint find_self_intersection (self : MeshHandler) (i : nat)
         (coords : list (list Q)) : result bool :=
  match coords with
  | [] => Ok false
  | x :: coords' =>
      let cells_idx := compute_entity_collisions (bbtree self) x in
      let intersections := length cells_idx in
      M <- take_rows (cells (mesh self)) cells_idx ;;
      let occurences := occurences_of i M in
      if (occurences <? intersections)%nat then Ok true
      else find_self_intersection self (S i) coords'
  end.

(** [__test_a_posteriori]. *)
Definition test_a_posteriori (self : MeshHandler)
  : result (bool * MeshHandler) :=
  self_intersections <- find_self_intersection self 0
                          (coordinates (mesh self)) ;;
  if self_intersections then
    self <- revert_transformation self ;; Ok (false, self)
  else
    self <- compute_mesh_quality self ;; Ok (true, self).

(** The condition of the [assert] that opens [move_mesh]. *)
Definition valid_transformation (transformation : Transformation) : bool :=
  (family transformation =? "Lagrange")%string
  && (degree transformation =? 1)%Z.

(** [move_mesh]. *)
Definition move_mesh (self : MeshHandler) (transformation : Transformation)
  : result (bool * MeshHandler) :=
  if negb (valid_transformation transformation) then
    Raise (AssertionError "Not a valid mesh transformation")
  else
    '(feasible, self) <- test_a_priori self transformation ;;
    if negb feasible then Ok (false, self)
    else
      let self := set_old_coordinates self (coordinates (mesh self)) in
      moved <- ALE_move (mesh self) transformation ;;
      let self := set_coordinates_and_build self moved in
      test_a_posteriori self.

End Handler.

(* ===================================================================== *)
(** ** _MeshHandler: construction and [compute_decreases]                 *)
(* ===================================================================== *)

(** The options of the section [MeshQuality] of the configuration, as the
    handler reads them; [None]: the option is absent and the fallback of
    the call applies. *)
Record MeshQualityConfig : Type := {
  cfg_volume_change : option bound;
  cfg_angle_change : option bound;
  cfg_tol_lower : option Q;
  cfg_tol_upper : option Q;
  cfg_measure : option string;
  cfg_type : option string
}.

(** The handler after the part of [__init__] that precedes the remeshing
    initialisations (lines 351-393), with the attributes that part adds
    and the warnings it issues. *)
Record HandlerSetup : Type := {
  handler : MeshHandler;
  mesh_quality_tol_lower : Q;
  mesh_quality_tol_upper : Q;
  radius_ratios_initial : list Q;
  warnings : list string
}.

Definition fallback {A} (value : option A) (default : A) : A :=
  match value with
  | Some a => a
  | None => default
  end.

(** [a < b] on floats. *)
Definition lt_float (a b : Q) : bool := negb (Qle_bool b a).

(** [b > x] for a bound [b] that may be [inf]. *)
Definition bound_gt (b : bound) (x : Q) : bool :=
  match b with
  | Finite q => lt_float x q
  | Infinity => true
  end.

Section HandlerSetupCode.

Variable acos : Q -> Q.
Variable sqrt : Q -> Q.
Variable np_divide : Q -> Q -> Q.
Variable radius_ratios : Mesh -> list Q.
Variable condition_solve : Mesh -> list Q.
(** The dimension of [shape_form_handler.deformation_space]. *)
Variable deformation_dim : nat.

(** [__init__], lines 351-393, with [__setup_decrease_computation]
    (the assertion of line 480) and [__setup_a_priori] (lines 559-575). *)
Definition init_mesh_handler (m : Mesh) (config : MeshQualityConfig)
  : result HandlerSetup :=
  let vc := fallback (cfg_volume_change config) Infinity in
  let ac := fallback (cfg_angle_change config) Infinity in
  let lower := fallback (cfg_tol_lower config) (1 # 20) in
  let upper := fallback (cfg_tol_upper config) (1 # 10) in
  if negb (lt_float lower upper) then
    Raise (AssertionError "The lower remeshing tolerance has to be strictly smaller than the upper remeshing tolerance")
  else
    let warned :=
      if lt_float ((9 # 10) * upper) lower
      then ["You are using a lower remesh tolerance close to the upper one. This may slow down the optimization considerably."%string]
      else [] in
    let measure := fallback (cfg_measure config) "skewness"%string in
    if negb (str_in measure ["skewness"; "maximum_angle"; "radius_ratios";
                             "condition_number"]%string) then
      Raise (AssertionError "MeshQuality measure has to be one of `skewness`, `maximum_angle`, `condition_number`, or `radius_ratios`.")
    else
      let type := fallback (cfg_type config) "min"%string in
      if negb (str_in type ["min"; "minimum"; "avg"; "average"]%string) then
        Raise (AssertionError "MeshQuality type has to be one of `min`, `minimum`, `avg`, or `average`.")
      else
        self <- compute_mesh_quality acos sqrt np_divide radius_ratios
                  condition_solve
                  {| mesh := m; bbtree := m;
                     volume_change := vc; angle_change := ac;
                     mesh_quality_measure := measure;
                     mesh_quality_type := type;
                     current_mesh_quality := 1;
                     old_coordinates := None;
                     transformation_container := [] |} ;;
        if negb (bound_gt ac 0) then
          Raise (AssertionError "Angle change has to be positive")
        else
          match vc with
          | Finite v =>
              if negb (lt_float 1 v) then
                Raise (AssertionError "Volume change has to be larger than 1")
              else
                Ok {| handler := set_transformation_container
                                   self (Function deformation_dim);
                      mesh_quality_tol_lower := lower;
                      mesh_quality_tol_upper := upper;
                      radius_ratios_initial := radius_ratios m;
                      warnings := warned |}
          | Infinity =>
              Ok {| handler := self;
                    mesh_quality_tol_lower := lower;
                    mesh_quality_tol_upper := upper;
                    radius_ratios_initial := radius_ratios m;
                    warnings := warned |}
          end.

(** The projection solve of [compute_decreases]: the solution [x[:]], the
    cell values of the Frobenius norm of the gradient of the search
    direction, and [ksp_frobenius.getConvergedReason()]. *)
Variable frobenius_solve : Mesh -> vec -> list Q * Z.
(** numpy's [log] and [ceil]. *)
Variable np_log : Q -> Q.
Variable np_ceil : Q -> Q.

(** [compute_decreases] (lines 504-547).  [beta_armijo] is the option of
    that name of the configuration, with fallback 2. *)
Definition compute_decreases (self : MeshHandler) (beta_armijo : option Q)
           (search_direction : vec) (stepsize : Q) : result Q :=
  if negb (bound_gt (angle_change self) 0) then
    Raise (AssertionError "Angle change has to be positive")
  else
    match angle_change self with
    | Infinity => Ok 0
    | Finite ac =>
        let '(x, reason) := frobenius_solve (mesh self) search_direction in
        if (reason <? 0)%Z then Raise KrylovError
        else
          frobenius_norm <- np_max x ;;
          let beta := fallback beta_armijo 2 in
          quotient <- pydiv ac stepsize ;;
          let numerator := np_log (np_divide quotient frobenius_norm) in
          inverse_beta <- pydiv 1 beta ;;
          Ok (Qmax (np_ceil (np_divide numerator (np_log inverse_beta))) 0)
    end.

End HandlerSetupCode.

(* ===================================================================== *)
(** ** Module level functions: [regular_mesh] and [regular_box_mesh]      *)
(* ===================================================================== *)

(** The exceptions of the module level functions: those of [exn] and the
    further Python exceptions these functions can end in. *)
Inductive py_error : Type :=
| Builtin (e : exn)
| TypeError
| OverflowError
| Exception (msg : string)
| NoSectionError
| NoOptionError
| KeyError
| FileNotFoundError.

Inductive outcome (A : Type) : Type :=
| Return (a : A)
| Throw (e : py_error).

Arguments Return {A} a.
Arguments Throw {A} e.

(** [int(x)] on a float: truncation towards zero. *)
Definition py_int (x : Q) : Z := Z.quot (Qnum x) (Zpos (Qden x)).

(** [np.round]: to the nearest integer, a tie to the even one. *)
Definition np_round (q : Q) : Z :=
  let f := Qfloor q in
  match Qcompare (q - inject_Z f) (1 # 2) with
  | Lt => f
  | Gt => (f + 1)%Z
  | Eq => if Z.even f then f else (f + 1)%Z
  end.

(** [int(np.round(length/size_min*n))].  [size_min] is a numpy float, so
    a division by [0.0] raises nothing: it gives inf, -inf or nan, the
    product with [n] likewise, and [int] then raises [OverflowError] (on
    an infinity) or [ValueError] (on nan). *)
Definition point_count (n : Z) (size_min length : Q) : outcome Z :=
  if Qeq_bool size_min 0 then
    if Qeq_bool length 0 || (n =? 0)%Z then Throw (Builtin ValueError)
    else Throw OverflowError
  else Return (np_round (length / size_min * inject_Z n)).

(** The list comprehension of [num_points]. *)
Fixpoint point_counts (n : Z) (size_min : Q) (sizes : list Q)
  : outcome (list Z) :=
  match sizes with
  | [] => Return []
  | length :: rest =>
      match point_count n size_min length with
      | Throw e => Throw e
      | Return k =>
          match point_counts n size_min rest with
          | Throw e => Throw e
          | Return ks => Return (k :: ks)
          end
      end
  end.

(** What the two functions ask of dolfin: a [RectangleMesh] or [BoxMesh]
    between two corners with given numbers of elements, and the boundary
    markers, each with the axis and the coordinate of its plane, in the
    order of marking. *)
Record MeshRequest : Type := {
  request_dim : nat;
  lower_corner : list Q;
  upper_corner : list Q;
  num_points : list Z;
  boundary_markers : list (nat * nat * Q)
}.

Definition list_min (sizes : list Q) : Q :=
  match sizes with
  | [] => 0
  | a :: rest => fold_left Qmin rest a
  end.

Definition marker (id axis : nat) (coordinate : Q) : nat * nat * Q :=
  (id, axis, coordinate).

(** [regular_mesh] (lines 130-224). *)
Definition regular_mesh (n L_x L_y : Q) (L_z : option Q)
  : outcome MeshRequest :=
  let n := py_int n in
  let sizes := match L_z with
               | None => [L_x; L_y]
               | Some lz => [L_x; L_y; lz]
               end in
  let size_min := list_min sizes in
  match point_counts n size_min sizes with
  | Throw e => Throw e
  | Return counts =>
      match L_z with
      | None =>
          Return {| request_dim := 2;
                    lower_corner := [0; 0]; upper_corner := sizes;
                    num_points := counts;
                    boundary_markers :=
                      [marker 1 0 0; marker 2 0 L_x; marker 3 1 0; marker 4 1 L_y ] |}
      | Some lz =>
          Return {| request_dim := 3;
                    lower_corner := [0; 0; 0]; upper_corner := sizes;
                    num_points := counts;
                    boundary_markers :=
                      [marker 1 0 0; marker 2 0 L_x; marker 3 1 0; marker 4 1 L_y;
                       marker 5 2 0; marker 6 2 lz ] |}
      end
  end.

(** [regular_box_mesh] (lines 228-337). *)
Definition regular_box_mesh (n S_x S_y : Q) (S_z : option Q)
           (E_x E_y : Q) (E_z : option Q) : outcome MeshRequest :=
  let n := py_int n in
  if negb (lt_float S_x E_x) then
    Throw (Builtin (AssertionError "Incorrect input for the x-coordinate"))
  else if negb (lt_float S_y E_y) then
    Throw (Builtin (AssertionError "Incorrect input for the y-coordinate"))
  else
    match S_z, E_z with
    | None, None =>
        let sizes := [E_x - S_x; E_y - S_y] in
        match point_counts n (list_min sizes) sizes with
        | Throw e => Throw e
        | Return counts =>
            Return {| request_dim := 2;
                      lower_corner := [S_x; S_y];
                      upper_corner := [E_x; E_y];
                      num_points := counts;
                      boundary_markers :=
                        [marker 1 0 S_x; marker 2 0 E_x;
                         marker 3 1 S_y; marker 4 1 E_y ] |}
        end
    | Some sz, Some ez =>
        if negb (lt_float sz ez) then
          Throw (Builtin
                   (AssertionError "Incorrect input for the z-coordinate"))
        else
          let sizes := [E_x - S_x; E_y - S_y; ez - sz] in
          match point_counts n (list_min sizes) sizes with
          | Throw e => Throw e
          | Return counts =>
              Return {| request_dim := 3;
                        lower_corner := [S_x; S_y; sz];
                        upper_corner := [E_x; E_y; ez];
                        num_points := counts;
                        boundary_markers :=
                          [marker 1 0 S_x; marker 2 0 E_x;
                           marker 3 1 S_y; marker 4 1 E_y;
                           marker 5 2 sz; marker 6 2 ez ] |}
          end
    | _, _ => Throw TypeError
    end.

(* ===================================================================== *)
(** ** GradientProblem.solve and ShapeGradientProblem.solve               *)
(* ===================================================================== *)

(** [str(k)] and [format(k, 'd')] for an int. *)
Definition py_str_int (k : Z) : string := NilZero.string_of_int (Z.to_int k).

(** The attributes of a [GradientProblem] that [solve] reads and writes;
    [gradient_norm_squared] does not exist before the first solve. *)
Record GradientProblemSelf : Type := {
  gradients : control;
  has_solution : bool;
  gradient_norm_squared : option Q
}.

(** The vector of [self.gradients[i]], written in place. *)
Fixpoint set_component (g : control) (i : nat) (x : vec) : control :=
  match g, i with
  | [], _ => []
  | _ :: g', O => x :: g'
  | a :: g', S i' => a :: set_component g' i' x
  end.

Section GradientProblemCode.

(** Collaborators that live outside the file.  [World] is the state of the
    state and adjoint problems and of the forms, [rhs] an assembled
    right-hand side. *)
Variable World : Type.
Variable rhs : Type.
Variable scalar_product : control -> control -> Q.
Variable state_problem_solve : World -> result World.
Variable adjoint_problem_solve : World -> result World.
(** [self.form_handler.control_dim]. *)
Variable control_dim : nat.
(** [fenics.assemble(self.form_handler.gradient_forms_rhs[i])]. *)
Variable assemble_rhs : nat -> World -> result rhs.
(** [self.form_handler.ksps[i].solve(b, x)], from the initial guess [x]:
    the solution written into [x] and [getConvergedReason()].  A solve
    that does not converge raises nothing, it reports a negative reason. *)
Variable ksp_solve : nat -> rhs -> vec -> vec * Z.

(** [__init__] (lines 38-60): one zero function per control space, here
    given by its dimension. *)
Definition GradientProblem_init (control_spaces : list nat)
  : GradientProblemSelf :=
  {| gradients := map (fun n => repeat 0 n) control_spaces;
     has_solution := false;
     gradient_norm_squared := None |}.

(** The loop of lines 78-84: the gradients as the loop leaves them, and
    how it ended. *)
Fixpoint solve_components (indices : list nat) (w : World) (g : control)
  : control * result unit :=
  match indices with
  | [] => (g, Ok tt)
  | i :: rest =>
      match assemble_rhs i w with
      | Raise e => (g, Raise e)
      | Ok b =>
          match nth_error g i with
          | None => (g, Raise IndexError)
          | Some x =>
              let '(x', reason) := ksp_solve i b x in
              let g' := set_component g i x' in
              if (reason <? 0)%Z then
                (g', Raise (SystemExit
                              ("Krylov solver did not converge. Reason: "
                               ++ py_str_int reason)))
              else solve_components rest w g'
          end
      end
  end.

(** [solve] (lines 64-90): the object as the call leaves it, and the
    world with the returned gradients, or the exception. *)
Definition GradientProblem_solve (self : GradientProblemSelf) (w : World)
  : GradientProblemSelf * result (World * control) :=
  match state_problem_solve w with
  | Raise e => (self, Raise e)
  | Ok w =>
      match adjoint_problem_solve w with
      | Raise e => (self, Raise e)
      | Ok w =>
          if negb (has_solution self) then
            match solve_components (seq 0 control_dim) w (gradients self) with
            | (g, Raise e) =>
                ({| gradients := g;
                    has_solution := has_solution self;
                    gradient_norm_squared := gradient_norm_squared self |},
                 Raise e)
            | (g, Ok _) =>
                ({| gradients := g;
                    has_solution := true;
                    gradient_norm_squared := Some (scalar_product g g) |},
                 Ok (w, g))
            end
          else (self, Ok (w, gradients self))
      end
  end.

End GradientProblemCode.

(** The attributes of a [ShapeGradientProblem] that [solve] reads and
    writes. *)
Record ShapeGradientProblemSelf : Type := {
  gradient : vec;
  shape_has_solution : bool;
  shape_gradient_norm_squared : Q
}.

Section ShapeGradientProblemCode.

Variable World : Type.
Variable rhs : Type.
Variable shape_scalar_product : vec -> vec -> Q.
Variable state_problem_solve : World -> result World.
Variable adjoint_problem_solve : World -> result World.
(** [self.shape_form_handler.regularization.update_geometric_quantities()]. *)
Variable update_geometric_quantities : World -> result World.
(** [assembler.assemble(fe_shape_derivative_vector)] and its PETSc vector. *)
Variable assemble_shape_derivative : World -> result (World * rhs).
(** [_solve_linear_problem(ksp, scalar_product_matrix, b, x)]: the solution
    written into [x]. *)
Variable solve_linear_problem : World -> rhs -> vec -> result vec.

(** [__init__] (lines 17-39), for a deformation space of dimension [n]. *)
Definition ShapeGradientProblem_init (n : nat) : ShapeGradientProblemSelf :=
  {| gradient := repeat 0 n;
     shape_has_solution := false;
     shape_gradient_norm_squared := 1 |}.

(** [solve] (lines 43-66). *)
Definition ShapeGradientProblem_solve (self : ShapeGradientProblemSelf)
           (w : World) : result (ShapeGradientProblemSelf * World * vec) :=
  w <- state_problem_solve w ;;
  w <- adjoint_problem_solve w ;;
  if negb (shape_has_solution self) then
    w <- update_geometric_quantities w ;;
    '(w, b) <- assemble_shape_derivative w ;;
    x <- solve_linear_problem w b (gradient self) ;;
    Ok ({| gradient := x;
           shape_has_solution := true;
           shape_gradient_norm_squared := shape_scalar_product x x |},
        w, x)
  else Ok (self, w, gradient self).

End ShapeGradientProblemCode.

(* ===================================================================== *)
(** ** Strings, paths, the configuration and the process                  *)
(* ===================================================================== *)

Definition newline : string := String "010"%char EmptyString.

(** [s[:n]]. *)
Fixpoint str_take (n : nat) (s : string) : string :=
  match n, s with
  | S n', String c s' => String c (str_take n' s')
  | _, _ => EmptyString
  end.

Fixpoint str_drop (n : nat) (s : string) : string :=
  match n, s with
  | S n', String _ s' => str_drop n' s'
  | _, _ => s
  end.

(** [s[-n:]] and [s[:-n]] for [n > 0]. *)
Definition str_last (n : nat) (s : string) : string :=
  str_drop (String.length s - n) s.

Definition str_but_last (n : nat) (s : string) : string :=
  str_take (String.length s - n) s.

Definition is_slash (c : ascii) : bool := Ascii.eqb c "/"%char.

Fixpoint has_slash (p : string) : bool :=
  match p with
  | EmptyString => false
  | String c p' => is_slash c || has_slash p'
  end.

Fixpoint all_slashes (p : string) : bool :=
  match p with
  | EmptyString => true
  | String c p' => is_slash c && all_slashes p'
  end.

(** [os.path.split(p)[1]]: what follows the last slash. *)
Fixpoint basename (p : string) : string :=
  match p with
  | EmptyString => EmptyString
  | String _ p' => if has_slash p then basename p' else p
  end.

(** [head.rstrip('/')]. *)
Fixpoint rstrip_slashes (p : string) : string :=
  match p with
  | EmptyString => EmptyString
  | String c p' => if all_slashes p then EmptyString
                   else String c (rstrip_slashes p')
  end.

(** [os.path.dirname(p)]: the part up to the last slash, without its
    trailing slashes unless it consists of slashes only. *)
Definition dirname (p : string) : string :=
  let head := str_take (String.length p - String.length (basename p)) p in
  if negb (String.eqb head "") && negb (all_slashes head)
  then rstrip_slashes head
  else head.

(** [s.lower()] on ASCII. *)
Definition lower_ascii (c : ascii) : ascii :=
  let n := nat_of_ascii c in
  if (65 <=? n)%nat && (n <=? 90)%nat then ascii_of_nat (n + 32) else c.

Fixpoint lower (s : string) : string :=
  match s with
  | EmptyString => EmptyString
  | String c s' => String (lower_ascii c) (lower s')
  end.

(** The section [Mesh] of the configuration: for each option the code
    reads the string that [get] returns for it, [None] for an option that
    is absent. *)
Record MeshSection : Type := {
  option_remesh : option string;
  option_mesh_file : option string;
  option_gmsh_file : option string;
  option_show_gmsh_output : option string
}.

(** The configuration as far as the code reads it; [None]: there is no
    section [Mesh]. *)
Definition ConfigParser : Type := option MeshSection.

(** [config.get('Mesh', key)], without fallback. *)
Definition config_get (config : ConfigParser)
           (key : MeshSection -> option string) : outcome string :=
  match config with
  | None => Throw NoSectionError
  | Some section =>
      match key section with
      | None => Throw NoOptionError
      | Some value => Return value
      end
  end.

(** [ConfigParser.BOOLEAN_STATES], looked up with the lowered value. *)
Definition BOOLEAN_STATES (value : string) : option bool :=
  if str_in value ["1"; "yes"; "true"; "on"]%string then Some true
  else if str_in value ["0"; "no"; "false"; "off"]%string then Some false
  else None.

(** [config.getboolean('Mesh', key, fallback=fallback)]. *)
Definition config_getboolean (config : ConfigParser)
           (key : MeshSection -> option string) (fallback : bool)
  : outcome bool :=
  match config_get config key with
  | Throw _ => Return fallback
  | Return value =>
      match BOOLEAN_STATES (lower value) with
      | Some b => Return b
      | None => Throw (Builtin ValueError)
      end
  end.

(** [temp_dict['output_dict']]. *)
Record OutputDict : Type := {
  out_state_solves : Z;
  out_adjoint_solves : Z;
  out_iterations : Z;
  out_cost_function_value : list Q;
  out_gradient_norm : list Q;
  out_stepsize : list Q;
  out_MeshQuality : list Q
}.

(** [temp_dict['OptimizationRoutine']]. *)
Record OptimizationRoutineDict : Type := {
  key_iteration_counter : option Z;
  key_gradient_norm_initial : option Q
}.

(** The dictionary [temp_dict] with the keys the code reads and writes;
    [None]: the key is absent.  The values have the types the code stores
    under these keys. *)
Record TempDict : Type := {
  key_geo_file : option string;
  key_temp_dir : option string;
  key_mesh_file : option string;
  key_gmsh_file : option string;
  key_remesh_counter : option Z;
  key_OptimizationRoutine : option OptimizationRoutineDict;
  key_output_dict : option OutputDict
}.

Definition set_key_output_dict (d : TempDict) (v : OutputDict) : TempDict :=
  {| key_geo_file := key_geo_file d; key_temp_dir := key_temp_dir d;
     key_mesh_file := key_mesh_file d; key_gmsh_file := key_gmsh_file d;
     key_remesh_counter := key_remesh_counter d;
     key_OptimizationRoutine := key_OptimizationRoutine d;
     key_output_dict := Some v |}.

Definition set_key_remesh_counter (d : TempDict) (v : Z) : TempDict :=
  {| key_geo_file := key_geo_file d; key_temp_dir := key_temp_dir d;
     key_mesh_file := key_mesh_file d; key_gmsh_file := key_gmsh_file d;
     key_remesh_counter := Some v;
     key_OptimizationRoutine := key_OptimizationRoutine d;
     key_output_dict := key_output_dict d |}.

Definition set_key_mesh_file (d : TempDict) (v : string) : TempDict :=
  {| key_geo_file := key_geo_file d; key_temp_dir := key_temp_dir d;
     key_mesh_file := Some v; key_gmsh_file := key_gmsh_file d;
     key_remesh_counter := key_remesh_counter d;
     key_OptimizationRoutine := key_OptimizationRoutine d;
     key_output_dict := key_output_dict d |}.

Definition set_key_gmsh_file (d : TempDict) (v : string) : TempDict :=
  {| key_geo_file := key_geo_file d; key_temp_dir := key_temp_dir d;
     key_mesh_file := key_mesh_file d; key_gmsh_file := Some v;
     key_remesh_counter := key_remesh_counter d;
     key_OptimizationRoutine := key_OptimizationRoutine d;
     key_output_dict := key_output_dict d |}.

Definition set_key_OptimizationRoutine (d : TempDict)
           (v : OptimizationRoutineDict) : TempDict :=
  {| key_geo_file := key_geo_file d; key_temp_dir := key_temp_dir d;
     key_mesh_file := key_mesh_file d; key_gmsh_file := key_gmsh_file d;
     key_remesh_counter := key_remesh_counter d;
     key_OptimizationRoutine := Some v;
     key_output_dict := key_output_dict d |}.

(** A file: its lines as a text file yields them, and what [json.load]
    makes of it ([None]: it raises [JSONDecodeError]). *)
Record file : Type := {
  text : list string;
  decoded : option TempDict
}.

(** The process the code runs in: the files and directories it sees,
    [sys.argv], [sys.executable], and the commands given to [os.system] so
    far. *)
Record Process : Type := {
  files : string -> option file;
  directories : list string;
  argv : list string;
  executable : string;
  commands : list string
}.

Definition write_file (path : string) (f : file)
           (fs : string -> option file) : string -> option file :=
  fun p => if String.eqb p path then Some f else fs p.

Definition set_files (p : Process) (fs : string -> option file) : Process :=
  {| files := fs; directories := directories p; argv := argv p;
     executable := executable p; commands := commands p |}.

(** [os.path.exists(path)]. *)
Definition path_exists (p : Process) (path : string) : bool :=
  match files p path with
  | Some _ => true
  | None => str_in path (directories p)
  end.

(** What [remesh] reads of [self.shape_optimization_problem]. *)
Record ShapeOptimizationProblem : Type := {
  problem_temp_dict : TempDict;
  state_problem_number_of_solves : Z;
  adjoint_problem_number_of_solves : Z;
  solver_iteration : Z;
  solver_gradient_norm_initial : Q;
  solver_cost_function_value : list Q;
  solver_gradient_norm : list Q;
  solver_stepsize : list Q;
  solver_MeshQuality : list Q
}.

(** The attributes [__init__] sets when [do_remesh] holds, and those that
    [remesh] adds ([None]: the attribute does not exist yet). *)
Record RemeshAttributes : Type := {
  temp_dict : TempDict;
  remesh_counter : Z;
  gmsh_file : string;
  mesh_directory : string;
  remesh_directory : string;
  remesh_geo_file : string;
  gmsh_file_init : option string;
  temp_file : option string;
  new_gmsh_file : option string;
  new_xdmf_file : option string;
  temp_dir : option string
}.

(** The handler as far as remeshing goes. *)
Record Remeshing : Type := {
  remeshing_mesh : Mesh;
  remeshing_config : ConfigParser;
  do_remesh : bool;
  (** [None]: [__init__] has not set them *)
  attributes : option RemeshAttributes
}.

Definition set_attributes (self : Remeshing) (a : RemeshAttributes)
  : Remeshing :=
  {| remeshing_mesh := remeshing_mesh self;
     remeshing_config := remeshing_config self;
     do_remesh := do_remesh self;
     attributes := Some a |}.

Definition set_temp_dict (a : RemeshAttributes) (d : TempDict)
  : RemeshAttributes :=
  {| temp_dict := d; remesh_counter := remesh_counter a;
     gmsh_file := gmsh_file a; mesh_directory := mesh_directory a;
     remesh_directory := remesh_directory a;
     remesh_geo_file := remesh_geo_file a;
     gmsh_file_init := gmsh_file_init a; temp_file := temp_file a;
     new_gmsh_file := new_gmsh_file a; new_xdmf_file := new_xdmf_file a;
     temp_dir := temp_dir a |}.

Definition set_remesh_counter (a : RemeshAttributes) (k : Z)
  : RemeshAttributes :=
  {| temp_dict := temp_dict a; remesh_counter := k;
     gmsh_file := gmsh_file a; mesh_directory := mesh_directory a;
     remesh_directory := remesh_directory a;
     remesh_geo_file := remesh_geo_file a;
     gmsh_file_init := gmsh_file_init a; temp_file := temp_file a;
     new_gmsh_file := new_gmsh_file a; new_xdmf_file := new_xdmf_file a;
     temp_dir := temp_dir a |}.

Definition set_temp_file (a : RemeshAttributes) (s : string)
  : RemeshAttributes :=
  {| temp_dict := temp_dict a; remesh_counter := remesh_counter a;
     gmsh_file := gmsh_file a; mesh_directory := mesh_directory a;
     remesh_directory := remesh_directory a;
     remesh_geo_file := remesh_geo_file a;
     gmsh_file_init := gmsh_file_init a; temp_file := Some s;
     new_gmsh_file := new_gmsh_file a; new_xdmf_file := new_xdmf_file a;
     temp_dir := temp_dir a |}.

Definition set_new_gmsh_file (a : RemeshAttributes) (s : string)
  : RemeshAttributes :=
  {| temp_dict := temp_dict a; remesh_counter := remesh_counter a;
     gmsh_file := gmsh_file a; mesh_directory := mesh_directory a;
     remesh_directory := remesh_directory a;
     remesh_geo_file := remesh_geo_file a;
     gmsh_file_init := gmsh_file_init a; temp_file := temp_file a;
     new_gmsh_file := Some s; new_xdmf_file := new_xdmf_file a;
     temp_dir := temp_dir a |}.

Definition set_new_xdmf_file (a : RemeshAttributes) (s : string)
  : RemeshAttributes :=
  {| temp_dict := temp_dict a; remesh_counter := remesh_counter a;
     gmsh_file := gmsh_file a; mesh_directory := mesh_directory a;
     remesh_directory := remesh_directory a;
     remesh_geo_file := remesh_geo_file a;
     gmsh_file_init := gmsh_file_init a; temp_file := temp_file a;
     new_gmsh_file := new_gmsh_file a; new_xdmf_file := Some s;
     temp_dir := temp_dir a |}.

Definition set_temp_dir (a : RemeshAttributes) (s : string)
  : RemeshAttributes :=
  {| temp_dict := temp_dict a; remesh_counter := remesh_counter a;
     gmsh_file := gmsh_file a; mesh_directory := mesh_directory a;
     remesh_directory := remesh_directory a;
     remesh_geo_file := remesh_geo_file a;
     gmsh_file_init := gmsh_file_init a; temp_file := temp_file a;
     new_gmsh_file := new_gmsh_file a; new_xdmf_file := new_xdmf_file a;
     temp_dir := Some s |}.

(** How a piece of code that may replace the process ends: it returns,
    raises, or calls [os.execv], after which nothing of it runs. *)
Inductive control_flow (A : Type) : Type :=
| Returns (a : A)
| Raises (e : py_error)
| Replaces (path : string) (args : list string).

Arguments Returns {A} a.
Arguments Raises {A} e.
Arguments Replaces {A} path args.

(** Code that works on a state [S] which survives an exception. *)
Definition prog (S A : Type) : Type := S -> S * control_flow A.

Definition pure {S A} (a : A) : prog S A := fun s => (s, Returns a).

Definition raise {S A} (e : py_error) : prog S A := fun s => (s, Raises e).

Definition execv {S A} (path : string) (args : list string) : prog S A :=
  fun s => (s, Replaces path args).

Definition and_then {S A B} (m : prog S A) (k : A -> prog S B) : prog S B :=
  fun s =>
    match m s with
    | (s', Returns a) => k a s'
    | (s', Raises e) => (s', Raises e)
    | (s', Replaces path args) => (s', Replaces path args)
    end.

Definition get_state {S} : prog S S := fun s => (s, Returns s).

Definition put_state {S} (s : S) : prog S unit := fun _ => (s, Returns tt).

Definition from_outcome {S A} (o : outcome A) : prog S A :=
  match o with
  | Return a => pure a
  | Throw e => raise e
  end.

(** [d[key]] on a dictionary. *)
Definition item {S A} (value : option A) : prog S A :=
  match value with
  | Some a => pure a
  | None => raise KeyError
  end.

Declare Scope prog_scope.
Delimit Scope prog_scope with prog.
Notation "x <- m ;; k" := (and_then m (fun x => k))
  (at level 100, m at next level, right associativity) : prog_scope.

(** [l[:-1]] and [l[:-2]]. *)
Definition but_last {A} (n : nat) (l : list A) : list A :=
  firstn (length l - n) l.

(** The three tests of the loop in [__generate_remesh_geo]: they are not
    chained by [elif], a line is written once for each test it passes. *)
Definition copies (line : string) : list string :=
  (if String.eqb (str_take 2 line) "lc" then [line] else [])
  ++ (if String.eqb (str_take 5 line) "Field" then [line] else [])
  ++ (if String.eqb (str_take 16 line) "Background Field" then [line]
      else []).

Definition geo_header (input_mesh_file : string) : list string :=
  [("Merge '" ++ basename input_mesh_file ++ "';" ++ newline)%string;
   ("CreateGeometry;" ++ newline)%string;
   newline].

Section Remesh.

(** Collaborators that live outside the file: [write_out_mesh] of
    [cestrel.utils], what a shell command does to the files, and the text
    [json.dump] writes. *)
Variable write_out_mesh :
  Mesh -> string -> string -> (string -> option file)
  -> outcome (string -> option file).
Variable run_command :
  string -> (string -> option file) -> (string -> option file).
Variable json_dumps : TempDict -> list string.
(** [os.path.realpath]. *)
Variable realpath : string -> string.

Definition handler_state : Type := (Remeshing * Process)%type.

Definition get_attributes : prog handler_state RemeshAttributes :=
  fun s => match attributes (fst s) with
           | Some a => (s, Returns a)
           | None => (s, Raises (Builtin AttributeError))
           end.

Definition put_attributes (a : RemeshAttributes) : prog handler_state unit :=
  fun s => ((set_attributes (fst s) a, snd s), Returns tt).

(** [os.system(command)]; its exit status is ignored. *)
Definition os_system (command : string) (p : Process) : Process :=
  {| files := run_command command (files p);
     directories := directories p; argv := argv p;
     executable := executable p;
     commands := commands p ++ [command] |}.

Definition system (command : string) : prog handler_state unit :=
  fun s => ((fst s, os_system command (snd s)), Returns tt).

(** [__generate_remesh_geo] (lines 689-721).  The file is truncated when it
    is opened, before the original .geo file is read, and holds what was
    written when the [with] block is left, also by an exception. *)
Definition generate_remesh_geo (input_mesh_file : string)
  : prog handler_state unit :=
  fun s =>
    match attributes (fst s) with
    | None => (s, Raises (Builtin AttributeError))
    | Some a =>
        let p := snd s in
        let opened :=
          write_file (remesh_geo_file a) {| text := []; decoded := None |}
                     (files p) in
        let closed written :=
          (fst s,
           set_files p (write_file (remesh_geo_file a)
                                   {| text := written; decoded := None |}
                                   (files p))) in
        let header := geo_header input_mesh_file in
        match key_geo_file (temp_dict a) with
        | None => (closed header, Raises KeyError)
        | Some geo_file =>
            match opened geo_file with
            | None => (closed header, Raises FileNotFoundError)
            | Some f =>
                (closed (header ++ flat_map copies (text f)), Returns tt)
            end
        end
    end.

(** [remesh] (lines 725-789). *)
Definition remesh (shape_optimization_problem : ShapeOptimizationProblem)
  : prog handler_state unit :=
  (s <- get_state ;;
   if do_remesh (fst s) then
     a <- get_attributes ;;
     _ <- put_attributes (set_remesh_counter a (remesh_counter a + 1)%Z) ;;
     a <- get_attributes ;;
     let temp_file := (remesh_directory a ++ "/mesh_"
                       ++ py_str_int (remesh_counter a)
                       ++ "_pre_remesh" ++ ".msh")%string in
     _ <- put_attributes (set_temp_file a temp_file) ;;
     s <- get_state ;;
     a <- get_attributes ;;
     fs <- from_outcome (write_out_mesh (remeshing_mesh (fst s))
                                        (gmsh_file a) temp_file
                                        (files (snd s))) ;;
     _ <- put_state (fst s, set_files (snd s) fs) ;;
     _ <- generate_remesh_geo temp_file ;;
     a <- get_attributes ;;
     _ <- put_attributes
          (set_temp_dict a
             (set_key_output_dict (temp_dict a)
                {| out_state_solves := state_problem_number_of_solves shape_optimization_problem;
                   out_adjoint_solves :=
                     adjoint_problem_number_of_solves shape_optimization_problem;
                   out_iterations := solver_iteration shape_optimization_problem;
                   out_cost_function_value :=
                     but_last 1 (solver_cost_function_value shape_optimization_problem);
                   out_gradient_norm :=
                     but_last 1 (solver_gradient_norm shape_optimization_problem);
                   out_stepsize := but_last 1 (solver_stepsize shape_optimization_problem);
                   out_MeshQuality :=
                     but_last 1 (solver_MeshQuality shape_optimization_problem) |})) ;;
     s <- get_state ;;
     let dim := geometric_dimension (remeshing_mesh (fst s)) in
     a <- get_attributes ;;
     let new_gmsh_file := (remesh_directory a ++ "/mesh_"
                           ++ py_str_int (remesh_counter a)
                           ++ ".msh")%string in
     _ <- put_attributes (set_new_gmsh_file a new_gmsh_file) ;;
     let gmsh_command := ("gmsh " ++ remesh_geo_file a ++ " -"
                          ++ py_str_int (Z.of_nat dim) ++ " -o "
                          ++ new_gmsh_file)%string in
     show <- from_outcome (config_getboolean (remeshing_config (fst s))
                                             option_show_gmsh_output false) ;;
     _ <- (if negb show
           then system (gmsh_command ++ " >/dev/null 2>&1")%string
           else system gmsh_command) ;;
     a <- get_attributes ;;
     _ <- put_attributes
          (set_temp_dict a
             (set_key_remesh_counter (temp_dict a) (remesh_counter a))) ;;
     a <- get_attributes ;;
     let new_xdmf_file := (remesh_directory a ++ "/mesh_"
                           ++ py_str_int (remesh_counter a)
                           ++ ".xdmf")%string in
     _ <- put_attributes (set_new_xdmf_file a new_xdmf_file) ;;
     _ <- system ("mesh-convert " ++ new_gmsh_file ++ " "
                  ++ new_xdmf_file)%string ;;
     a <- get_attributes ;;
     _ <- put_attributes
          (set_temp_dict a (set_key_mesh_file (temp_dict a) new_xdmf_file)) ;;
     a <- get_attributes ;;
     _ <- put_attributes
          (set_temp_dict a (set_key_gmsh_file (temp_dict a) new_gmsh_file)) ;;
     a <- get_attributes ;;
     routine <- item (key_OptimizationRoutine (temp_dict a)) ;;
     counter <- item (key_iteration_counter routine) ;;
     if (counter =? solver_iteration shape_optimization_problem)%Z then
       raise (Exception "Remeshing the geometry failed.")
     else
       _ <- put_attributes
            (set_temp_dict a
               (set_key_OptimizationRoutine (temp_dict a)
                  {| key_iteration_counter := Some (solver_iteration shape_optimization_problem);
                     key_gradient_norm_initial :=
                       key_gradient_norm_initial routine |})) ;;
       a <- get_attributes ;;
       routine <- item (key_OptimizationRoutine (temp_dict a)) ;;
       _ <- put_attributes
            (set_temp_dict a
               (set_key_OptimizationRoutine (temp_dict a)
                  {| key_iteration_counter := key_iteration_counter routine;
                     key_gradient_norm_initial :=
                       Some (solver_gradient_norm_initial shape_optimization_problem) |})) ;;
       a <- get_attributes ;;
       temp_dir <- item (key_temp_dir (temp_dict a)) ;;
       _ <- put_attributes (set_temp_dir a temp_dir) ;;
       a <- get_attributes ;;
       s <- get_state ;;
       _ <- put_state (fst s,
                 set_files (snd s)
                   (write_file (temp_dir ++ "/temp_dict.json")%string
                      {| text := json_dumps (temp_dict a);
                         decoded := Some (temp_dict a) |}
                      (files (snd s)))) ;;
       s <- get_state ;;
       let p := snd s in
       if negb (str_in "_cestrel_remesh_flag" (argv p)) then
         execv (executable p)
               ([executable p] ++ argv p ++ ["_cestrel_remesh_flag"%string]
                ++ [temp_dir])
       else
         execv (executable p)
               ([executable p] ++ but_last 2 (argv p)
                ++ ["_cestrel_remesh_flag"%string] ++ [temp_dir])
   else pure tt)%prog.

(** [__init__], lines 395-418: the remeshing initialisations.  The state
    is the process; [os.mkdir] is taken to succeed. *)
Definition init_remeshing (m : Mesh) (config : ConfigParser)
           (shape_optimization_problem : ShapeOptimizationProblem)
  : prog Process Remeshing :=
  (remesh_option <- from_outcome
                      (config_getboolean config option_remesh false) ;;
   if remesh_option then
     let temp_dict := problem_temp_dict shape_optimization_problem in
     let remesh_counter := fallback (key_remesh_counter temp_dict) 0%Z in
     gmsh_file <- item (key_gmsh_file temp_dict) ;;
     if negb (String.eqb (str_last 4 gmsh_file) ".msh") then
       raise (Builtin (AssertionError "Not a valid gmsh file"))
     else
       configured <- from_outcome (config_get config option_gmsh_file) ;;
       let mesh_directory := dirname (realpath configured) in
       let remesh_directory := (mesh_directory ++ "/cestrel_remesh")%string in
       p <- get_state ;;
       _ <- (if negb (path_exists p remesh_directory) then
               put_state {| files := files p;
                            directories := directories p ++ [remesh_directory];
                            argv := argv p; executable := executable p;
                            commands := commands p |}
             else pure tt) ;;
       p <- get_state ;;
       _ <- (if negb (str_in "_cestrel_remesh_flag" (argv p)) then
               put_state (os_system ("rm -r " ++ remesh_directory ++ "/*") p)
             else pure tt) ;;
       let remesh_geo_file := (remesh_directory ++ "/remesh.geo")%string in
       if (remesh_counter =? 0)%Z then
         let gmsh_file_init := (remesh_directory ++ "/mesh_"
                                ++ py_str_int remesh_counter
                                ++ ".msh")%string in
         p <- get_state ;;
         _ <- put_state (os_system ("cp " ++ gmsh_file ++ " "
                                    ++ gmsh_file_init) p) ;;
         pure {| remeshing_mesh := m; remeshing_config := config;
                 do_remesh := true;
                 attributes :=
                   Some {| temp_dict := temp_dict;
                           remesh_counter := remesh_counter;
                           gmsh_file := gmsh_file_init;
                           mesh_directory := mesh_directory;
                           remesh_directory := remesh_directory;
                           remesh_geo_file := remesh_geo_file;
                           gmsh_file_init := Some gmsh_file_init;
                           temp_file := None; new_gmsh_file := None;
                           new_xdmf_file := None; temp_dir := None |} |}
       else
         pure {| remeshing_mesh := m; remeshing_config := config;
                 do_remesh := true;
                 attributes :=
                   Some {| temp_dict := temp_dict;
                           remesh_counter := remesh_counter;
                           gmsh_file := gmsh_file;
                           mesh_directory := mesh_directory;
                           remesh_directory := remesh_directory;
                           remesh_geo_file := remesh_geo_file;
                           gmsh_file_init := None;
                           temp_file := None; new_gmsh_file := None;
                           new_xdmf_file := None; temp_dir := None |} |}
   else
     pure {| remeshing_mesh := m; remeshing_config := config;
             do_remesh := false; attributes := None |})%prog.

End Remesh.

(** The argument of [import_mesh]: a [str], a [ConfigParser], or a value
    of any other type. *)
Inductive import_arg : Type :=
| ArgStr (mesh_file : string)
| ArgConfig (config : ConfigParser)
| ArgOther.

(** What [import_mesh] returns, as far as the model goes: the mesh, the
    attribute [_cestrel_generator] it adds to the mesh, and the mesh
    functions of the subdomains and of the boundaries, from which the
    three measures are built. *)
Record Import (MeshFunction : Type) : Type := {
  imported_mesh : Mesh;
  subdomains : MeshFunction;
  boundaries : MeshFunction;
  _cestrel_generator : string
}.

Definition outcome_bind {A B} (m : outcome A) (k : A -> outcome B)
  : outcome B :=
  match m with
  | Return a => k a
  | Throw e => Throw e
  end.

Declare Scope outcome_scope.
Delimit Scope outcome_scope with outcome.
Notation "x <- m ;; k" := (outcome_bind m (fun x => k))
  (at level 100, m at next level, right associativity) : outcome_scope.

(** Lines 80-82: the dictionary read from [temp_dict.json] in the
    directory that the last command line argument names. *)
Definition load_temp_dict (p : Process) : outcome TempDict :=
  (temp_dir <- match deque_get (argv p) (-1) with
               | Ok a => Return a
               | Raise e => Throw (Builtin e)
               end ;;
   f <- match files p (temp_dir ++ "/temp_dict.json")%string with
        | Some f => Return f
        | None => Throw FileNotFoundError
        end ;;
   match decoded f with
   | Some d => Return d
   | None => Throw (Builtin ValueError)
   end)%outcome.

(** Lines 69-88: the mesh file the argument names. *)
Definition select_mesh_file (arg : import_arg) (p : Process)
  : outcome string :=
  (match arg with
   | ArgStr mesh_file => Return mesh_file
   | ArgConfig config =>
       remesh_option <- config_getboolean config option_remesh false ;;
       if negb remesh_option then config_get config option_mesh_file
       else if negb (str_in "_cestrel_remesh_flag" (argv p)) then
         config_get config option_mesh_file
       else
         temp_dict <- load_temp_dict p ;;
         match key_mesh_file temp_dict with
         | Some mesh_file => Return mesh_file
         | None => Throw KeyError
         end
   | ArgOther => Throw (Exception "Not a valid input for import_mesh")
   end)%outcome.

Section ImportMesh.

(** dolfin.  [Collection] and [MeshFunction] are the mesh value
    collections and mesh functions of type [size_t]; the reads are those
    of an [XDMFFile] on the content of a file, and raise on a content they
    cannot read. *)
Variable Collection : Type.
Variable MeshFunction : Type.
(** [fenics.MeshValueCollection('size_t', mesh, dim)]. *)
Variable MeshValueCollection : Mesh -> Z -> Collection.
(** [fenics.MeshFunction('size_t', mesh, mvc)]. *)
Variable mesh_function : Mesh -> Collection -> MeshFunction.
(** [xdmf_file.read(mesh)]. *)
Variable xdmf_read_mesh : file -> outcome Mesh.
(** [xdmf_file.read(mvc, name)]. *)
Variable xdmf_read_values : file -> string -> Collection -> outcome Collection.

(** Lines 95-98: the mesh in the file [path]; dolfin raises a
    [RuntimeError] when there is no such file. *)
Definition read_mesh (p : Process) (path : string) : outcome Mesh :=
  match files p path with
  | Some f => xdmf_read_mesh f
  | None => Throw (Builtin RuntimeError)
  end.

(** Lines 103-110: the values in the file [path], read only if the path
    exists. *)
Definition read_values (p : Process) (path name : string) (mvc : Collection)
  : outcome Collection :=
  if path_exists p path then
    match files p path with
    | Some f => xdmf_read_values f name mvc
    | None => Throw (Builtin RuntimeError)
    end
  else Return mvc.

(** [import_mesh] (lines 24-126). *)
Definition import_mesh (arg : import_arg) (p : Process)
  : outcome (Import MeshFunction) :=
  (mesh_file <- select_mesh_file arg p ;;
   if String.eqb (str_last 5 mesh_file) ".xdmf" then
     let file_string := str_but_last 5 mesh_file in
     m <- read_mesh p mesh_file ;;
     let subdomains_mvc :=
       MeshValueCollection m (Z.of_nat (geometric_dimension m)) in
     let boundaries_mvc :=
       MeshValueCollection m (Z.of_nat (geometric_dimension m) - 1)%Z in
     subdomains_mvc <- read_values p (file_string ++ "_subdomains.xdmf")
                                   "subdomains" subdomains_mvc ;;
     boundaries_mvc <- read_values p (file_string ++ "_boundaries.xdmf")
                                   "boundaries" boundaries_mvc ;;
     Return {| imported_mesh := m;
               subdomains := mesh_function m subdomains_mvc;
               boundaries := mesh_function m boundaries_mvc;
               _cestrel_generator :=
                 match arg with
                 | ArgStr _ => "str"
                 | _ => "config"
                 end |}
   else Throw (Exception "Not a suitable mesh file format"))%outcome.

End ImportMesh.

(* ===================================================================== *)
(** ** Worked inputs                                                      *)
(* ===================================================================== *)

(** Equality of results up to the value of the rationals. *)
Definition vec_eqb (v w : vec) : bool :=
  (length v =? length w)%nat
  && forallb (fun p => Qeq_bool (fst p) (snd p)) (combine v w).

Definition control_eqb (a b : control) : bool :=
  (length a =? length b)%nat
  && forallb (fun p => vec_eqb (fst p) (snd p)) (combine a b).

Definition yields (r : result control) (d : control) : bool :=
  match r with
  | Ok d' => control_eqb d' d
  | Raise _ => false
  end.

(** A solver for one control of dimension 2, with room for one pair and
    BFGS scaling disabled, holding the pair [s = [1,0]], [y = [1,0]],
    [rho = 1]. *)
Definition one_pair_solver : InnerLBFGS :=
  with_history (init [2%nat] 10 0 0 0 false 1 false)
               [[[1; 0]]] [[[1; 0]]] [1].

(** A solver for one control of dimension 5 with [memory_vectors = 0]. *)
Definition no_memory_solver : InnerLBFGS :=
  init [5%nat] 10 0 0 0 false 0 false.

(** "The negated gradient with every active-index entry set to 0.0", entry
    by entry. *)
Definition negated_projected (g : vec) (idx : list nat) : vec :=
  map (fun p => if existsb (Nat.eqb (fst p)) idx then 0 else - snd p)
      (combine (seq 0 (length g)) g).

Definition negated_projected_control (grad : control)
           (idx_active : list (list nat)) : control :=
  map (fun p => negated_projected (fst p) (snd p)) (combine grad idx_active).

(** One index array per component, every index within the component. *)
Definition active_in_range (grad : control) (idx_active : list (list nat))
  : Prop :=
  Forall2 (fun g idx => Forall (fun k => (k < length g)%nat) idx)
          grad idx_active.

(** The object as the loop body finds it before the history update: the
    new and the previous reduced gradient, the direction taken and the
    step length. *)
Definition with_step (self : InnerLBFGS) (rg prev sd : control) (step : Q)
  : InnerLBFGS :=
  {| maximum_iterations := maximum_iterations self;
     tolerance := tolerance self; atol := atol self; rtol := rtol self;
     soft_exit := soft_exit self; memory_vectors := memory_vectors self;
     use_bfgs_scaling := use_bfgs_scaling self;
     reduced_gradient := rg;
     gradients_prev := prev;
     search_directions := sd;
     storage_y := storage_y self; storage_s := storage_s self;
     history_s := history_s self; history_y := history_y self;
     history_rho := history_rho self;
     iteration := iteration self;
     first_gradient_norm := first_gradient_norm self;
     first_iteration := first_iteration self;
     gradient_norm := gradient_norm self;
     gradient_norm_initial := gradient_norm_initial self;
     relative_norm := relative_norm self;
     directional_derivative := directional_derivative self;
     stepsize := stepsize self;
     line_search_broken := line_search_broken self;
     trace := trace self |}.

(** A solver for one control of dimension 2 with room for three pairs. *)
Definition three_pair_solver : InnerLBFGS :=
  init [2%nat] 10 0 0 0 false 3 false.

(** An update in which the reduced gradient did not change over the step
    [s = 1 * [-1,0]]: [y = [0,0]] and the curvature is [0]. *)
Definition zero_curvature_solver : InnerLBFGS :=
  with_step three_pair_solver [[1; 0]] [[1; 0]] [[-1; 0]] 1.

(** An update with negative curvature: [y = [1,0]], [s = [-1,0]]. *)
Definition negative_curvature_solver : InnerLBFGS :=
  with_step (with_history three_pair_solver
               [[[1; 0]]] [[[1; 0]]] [1])
            [[2; 0]] [[1; 0]] [[-1; 0]] 1.

(** An update with a positive curvature of the least positive double:
    [y = [1,0]], [s = 1 * [2^-1074,0]], on a history of one pair. *)
Definition subnormal_curvature_solver : InnerLBFGS :=
  with_step (with_history three_pair_solver
               [[[1; 0]]] [[[1; 0]]] [1])
            [[2; 0]] [[1; 0]] [[/ inject_Z (2 ^ 1074); 0]] 1.

(** A memory that makes the recursion leave the descent cone: the pair
    [s = [1,0]], [y = [-1,0]], [rho = -1], met with the reduced gradient
    [[1,0]]. *)
Definition pathological_solver : InnerLBFGS :=
  with_step (with_history three_pair_solver
               [[[1; 0]]] [[[-1; 0]]] [-1 # 1])
            [[1; 0]] [[1; 0]] [[0; 0]] 1.

(** Collaborators for worked runs.  The world is the number of gradient
    solves so far; solve number [n] returns [[1 / (n + 1), 0]]; the line
    search always succeeds with step length [1]. *)
Definition demo_invalidate (p : problem) (w : nat) : nat := w.

Definition demo_gradient_solve (w : nat) : result (nat * control) :=
  Ok (S w, [[1 / (inject_Z (Z.of_nat w) + 1); 0]]).

Definition demo_line_search (d : control) (w : nat) : result (nat * Q * bool) :=
  Ok (w, 1, false).

(** A gradient that never changes. *)
Definition constant_gradient_solve (w : nat) : result (nat * control) :=
  Ok (S w, [[1; 0]]).

Definition demo_sqrt (x : Q) : Q := x.

(** The three deques hold the same number of entries, at most
    [memory_vectors]. *)
Definition history_bounded (self : InnerLBFGS) : Prop :=
  length (history_s self) = length (history_y self)
  /\ length (history_y self) = length (history_rho self)
  /\ (Z.of_nat (length (history_s self)) <= memory_vectors self)%Z.

(** The pair of the update that led from [before] to [after] sits at index
    0 of the three deques, in front of the entries [before] had, in their
    order: all of them while there is room, and all but the oldest when
    [before] held [memory_vectors] entries. *)
Definition newest_first (scalar_product : control -> control -> Q)
           (before after : InnerLBFGS) : Prop :=
  let kept := Z.to_nat (memory_vectors before - 1) in
  history_s after = storage_s after :: firstn kept (history_s before)
  /\ history_y after = storage_y after :: firstn kept (history_y before)
  /\ history_rho after
     = 1 / scalar_product (storage_y after) (storage_s after)
       :: firstn kept (history_rho before).

Definition history_cleared (self : InnerLBFGS) : Prop :=
  history_s self = [] /\ history_y self = [] /\ history_rho self = [].

Section Executions.

Variable scalar_product : control -> control -> Q.
Variable World : Type.
Variable invalidate : problem -> World -> World.
Variable gradient_problem_solve : World -> result (World * control).
Variable line_search_search : control -> World -> result (World * Q * bool).
Variable np_sqrt : Q -> Q.
Variable np_divide : Q -> Q -> Q.
Variable idx_active : list (list nat).

(** [update_point self w before after]: in the [while] loop entered with
    the solver [self] and the world [w], some pass reaches its history
    update with the solver [before] and leaves it with the solver
    [after]. *)
Inductive update_point
  : InnerLBFGS -> World -> InnerLBFGS -> InnerLBFGS -> Prop :=
| update_here self w self1 w1 before w2 after :
    converged np_divide self = false ->
    search_step scalar_product line_search_search self w idx_active
    = Ok (self1, w1) ->
    line_search_broken self1 = false ->
    gradient_step scalar_product invalidate gradient_problem_solve np_sqrt
                  np_divide self1 w1 idx_active
    = Ok (before, w2) ->
    update_history scalar_product before = Ok after ->
    update_point self w before after
| update_later self w self' w' before after :
    converged np_divide self = false ->
    iteration_body scalar_product invalidate gradient_problem_solve
                   line_search_search np_sqrt np_divide self w idx_active
    = Ok (self', w', false) ->
    update_point self' w' before after ->
    update_point self w before after.

End Executions.

(** A gradient that grows: solve number [n] returns [[n + 1, 0]]. *)
Definition growing_gradient_solve (w : nat) : result (nat * control) :=
  Ok (S w, [[inject_Z (Z.of_nat w) + 1; 0]]).

(** The first pass of the run from [three_pair_solver] with the growing
    gradient: the solver on entry to the loop, after the line search,
    before and after the history update. *)
Definition growing_entry : InnerLBFGS * nat :=
  Eval vm_compute in
    match run_setup dot demo_invalidate growing_gradient_solve demo_sqrt
                    three_pair_solver 0%nat [[]] with
    | Ok x => x
    | Raise _ => (three_pair_solver, 0%nat)
    end.

Definition growing_searched : InnerLBFGS * nat :=
  Eval vm_compute in
    match search_step dot demo_line_search (fst growing_entry)
                      (snd growing_entry) [[]] with
    | Ok x => x
    | Raise _ => growing_entry
    end.

Definition growing_before : InnerLBFGS * nat :=
  Eval vm_compute in
    match gradient_step dot demo_invalidate growing_gradient_solve demo_sqrt
                        Qdiv (fst growing_searched) (snd growing_searched)
                        [[]] with
    | Ok x => x
    | Raise _ => growing_searched
    end.

Definition growing_after : InnerLBFGS :=
  Eval vm_compute in
    match update_history dot (fst growing_before) with
    | Ok x => x
    | Raise _ => fst growing_before
    end.

(** A solver for one control of dimension 2 whose memory of two pairs is
    full: [s = y = [1,0]] at index 0 and [s = y = [0,1]] at index 1, both
    with [rho = 1]. *)
Definition full_memory_solver : InnerLBFGS :=
  with_history (init [2%nat] 10 0 0 0 false 2 false)
               [[[1; 0]]; [[0; 1]]] [[[1; 0]]; [[0; 1]]] [1; 1].

(** The first pass of the worked run from [full_memory_solver]. *)
Definition full_entry : InnerLBFGS * nat :=
  Eval vm_compute in
    match run_setup dot demo_invalidate demo_gradient_solve demo_sqrt
                    full_memory_solver 0%nat [[]] with
    | Ok x => x
    | Raise _ => (full_memory_solver, 0%nat)
    end.

Definition full_searched : InnerLBFGS * nat :=
  Eval vm_compute in
    match search_step dot demo_line_search (fst full_entry) (snd full_entry)
                      [[]] with
    | Ok x => x
    | Raise _ => full_entry
    end.

Definition full_before : InnerLBFGS * nat :=
  Eval vm_compute in
    match gradient_step dot demo_invalidate demo_gradient_solve demo_sqrt Qdiv
                        (fst full_searched) (snd full_searched) [[]] with
    | Ok x => x
    | Raise _ => full_searched
    end.

Definition full_after : InnerLBFGS :=
  Eval vm_compute in
    match update_history dot (fst full_before) with
    | Ok x => x
    | Raise _ => fst full_before
    end.

(** A mesh of one triangle with the vertices (0,0), (4,0), (4,3).  Its
    edge lengths are 4, 5 and 3, and the cosines [angles_triangle] takes
    are 4/5, 0 and 3/5. *)
Definition triangle_mesh : Mesh :=
  {| coordinates := [[0; 0]; [4; 0]; [4; 3]];
     cells := [[0; 1; 2]%nat];
     tdim := 2; geometric_dimension := 2 |}.

(** [sqrt] and [acos] on the arguments met on [triangle_mesh], with the
    doubles the C library returns there. *)
Definition table_sqrt (x : Q) : Q :=
  if Qeq_bool x 16 then 4
  else if Qeq_bool x 25 then 5
  else if Qeq_bool x 9 then 3
  else 0.

Definition table_acos (x : Q) : Q :=
  if Qeq_bool x (4 # 5) then 181129459610871 # 281474976710656
  else if Qeq_bool x 0 then 884279719003555 # 562949953421312
  else if Qeq_bool x (3 # 5) then 522020799781813 # 562949953421312
  else 0.

(** A mesh of two intervals on the line, and a handler on it with
    [volume_change = 2] that measures quality by the minimal radius
    ratio. *)
Definition interval_mesh : Mesh :=
  {| coordinates := [[0]; [1]; [2]];
     cells := [[0; 1]%nat; [1; 2]%nat];
     tdim := 1; geometric_dimension := 1 |}.

Definition interval_handler : MeshHandler :=
  {| mesh := interval_mesh; bbtree := interval_mesh;
     volume_change := Finite 2; angle_change := Infinity;
     mesh_quality_measure := "radius_ratios";
     mesh_quality_type := "min";
     current_mesh_quality := 1;
     old_coordinates := None;
     transformation_container := [0; 0; 0] |}.

(** Stand-ins for dolfin and PETSc on [interval_mesh]: every radius ratio
    is 1; the a priori projection answers [1 + v] for each coefficient
    [v] and converges; the spatial index reports no collision;
    [ALE.move] adds the coefficient of each vertex to its coordinate and,
    as dolfin does, refuses a displacement that is neither a scalar on a
    line nor a vector of the dimension of the mesh. *)
Definition demo_radius_ratios (m : Mesh) : list Q := map (fun _ => 1) (cells m).

Definition demo_condition_solve (m : Mesh) : list Q :=
  map (fun _ => 1) (cells m).

Definition demo_prior_solve (m : Mesh) (v : vec) : list Q * Z :=
  (map (Qplus 1) v, 2%Z).

Definition demo_collisions (tree : Mesh) (x : list Q) : list nat := [].

Definition demo_ALE_move (m : Mesh) (t : Transformation)
  : result (list (list Q)) :=
  let shifted :=
    map (fun p => map (Qplus (snd p)) (fst p))
        (combine (coordinates m) (vector t)) in
  match value_shape t with
  | [] => if (geometric_dimension m =? 1)%nat then Ok shifted
          else Raise RuntimeError
  | [n] => if (geometric_dimension m =? n)%nat then Ok shifted
           else Raise RuntimeError
  | _ => Raise RuntimeError
  end.

(** Transformations of [interval_mesh]: a vector CG1 field that triples
    the volume of a cell, a vector CG1 field that shifts the mesh, a
    scalar CG1 field, and a vector field of degree 2. *)
Definition stretching : Transformation :=
  {| family := "Lagrange"; degree := 1; value_shape := [1%nat];
     vector := [0; 0; 2] |}.

Definition shifting : Transformation :=
  {| family := "Lagrange"; degree := 1; value_shape := [1%nat];
     vector := [1 # 4; 1 # 4; 1 # 4] |}.

Definition scalar_shifting : Transformation :=
  {| family := "Lagrange"; degree := 1; value_shape := [];
     vector := [1 # 4; 1 # 4; 1 # 4] |}.

Definition quadratic : Transformation :=
  {| family := "Lagrange"; degree := 2; value_shape := [1%nat];
     vector := [0; 0; 0; 0; 0] |}.

(** "A vector field of Lagrange family and polynomial degree exactly 1". *)
Definition is_vector_CG1 (t : Transformation) : bool :=
  (family t =? "Lagrange")%string && (degree t =? 1)%Z
  && (length (value_shape t) =? 1)%nat.

(** The dimensions of the components of a control tuple. *)
Definition shape (c : control) : list nat := map (@length Q) c.

(** A solver that stops after one pass of [demo_gradient_solve]
    ([atol = 1/2]), and one that leaves the loop softly after two passes. *)
Definition converging_solver : InnerLBFGS :=
  init [2%nat] 10 0 (1 # 2) 0 false 3 false.

Definition soft_exit_solver : InnerLBFGS :=
  init [2%nat] 2 0 0 0 true 3 false.

(** Every entry of [c] at an active index is [0]. *)
Definition zero_on_active (c : control) (idx_active : list (list nat)) : Prop :=
  forall j idx k,
    nth_error idx_active j = Some idx -> In k idx ->
    exists v, nth_error c j = Some v /\ nth_error v k = Some 0.

Section Passes.

Variable scalar_product : control -> control -> Q.
Variable World : Type.
Variable invalidate : problem -> World -> World.
Variable gradient_problem_solve : World -> result (World * control).
Variable line_search_search : control -> World -> result (World * Q * bool).
Variable np_sqrt : Q -> Q.
Variable np_divide : Q -> Q -> Q.
Variable idx_active : list (list nat).

(** [loop_entry self0 w0 self w]: the [while] loop entered with [self0]
    and [w0] evaluates its condition, at the start of some pass, on
    [self] and [w]. *)
Inductive loop_entry (self0 : InnerLBFGS) (w0 : World)
  : InnerLBFGS -> World -> Prop :=
| entry_first : loop_entry self0 w0 self0 w0
| entry_next self w self' w' :
    loop_entry self0 w0 self w ->
    converged np_divide self = false ->
    iteration_body scalar_product invalidate gradient_problem_solve
                   line_search_search np_sqrt np_divide self w idx_active
    = Ok (self', w', false) ->
    loop_entry self0 w0 self' w'.

End Passes.

(** A spatial index that reports both cells of [interval_mesh] at every
    point, as it would on a folded mesh. *)
Definition folding_collisions (tree : Mesh) (x : list Q) : list nat :=
  [0%nat; 1%nat].

(** The spatial index of an unfolded [interval_mesh]: the vertex at 0
    touches cell 0, the vertex at 1 both cells, the vertex at 2 cell 1. *)
Definition incident_collisions (tree : Mesh) (x : list Q) : list nat :=
  match x with
  | [c] => if Qeq_bool c 0 then [0%nat]
           else if Qeq_bool c 1 then [0%nat; 1%nat]
           else if Qeq_bool c 2 then [1%nat]
           else []
  | _ => []
  end.

(** Stand-ins for the Frobenius projection (the coefficients themselves,
    converged) and for numpy's [log] and [ceil]; a handler on
    [interval_mesh] with [angle_change = 1/10]; configurations. *)
Definition demo_frobenius_solve (m : Mesh) (v : vec) : list Q * Z := (v, 2%Z).

Definition demo_log (x : Q) : Q := x - 1.

Definition demo_ceil (x : Q) : Q := inject_Z (Qceiling x).

Definition angle_handler : MeshHandler :=
  {| mesh := interval_mesh; bbtree := interval_mesh;
     volume_change := Finite 2; angle_change := Finite (1 # 10);
     mesh_quality_measure := "radius_ratios";
     mesh_quality_type := "min";
     current_mesh_quality := 1;
     old_coordinates := None;
     transformation_container := [0; 0; 0] |}.

Definition radius_config : MeshQualityConfig :=
  {| cfg_volume_change := Some (Finite 2);
     cfg_angle_change := Some (Finite (1 # 10));
     cfg_tol_lower := None; cfg_tol_upper := None;
     cfg_measure := Some "radius_ratios"%string;
     cfg_type := Some "avg"%string |}.

(** Collaborators for [GradientProblem.solve]: solves that count the calls
    in the world, a right-hand side that is the index, and Krylov solvers
    that add the right-hand side to the initial guess; the solver of
    component [1] of [diverging_ksp_solve] reports a breakdown. *)
Definition counting_solve (w : nat) : result nat := Ok (S w).

Definition index_rhs (i : nat) (w : nat) : result nat := Ok i.

Definition demo_ksp_solve (i : nat) (b : nat) (x : vec) : vec * Z :=
  (map (fun a => a + inject_Z (Z.of_nat b) + 1) x, 2%Z).

Definition diverging_ksp_solve (i : nat) (b : nat) (x : vec) : vec * Z :=
  (map (fun a => a + inject_Z (Z.of_nat b) + 1) x,
   if Nat.eqb i 1 then (-3)%Z else 2%Z).

Definition demo_shape_assemble (w : nat) : result (nat * nat) := Ok (w, w).

Definition demo_solve_linear_problem (w : nat) (b : nat) (x : vec)
  : result vec :=
  Ok (map (fun a => a + inject_Z (Z.of_nat b)) x).

(** A process for the remeshing code: a working directory with the
    original .geo file, collaborators that write a one-line mesh file and
    leave the files alone, and a problem whose solver is in iteration 4. *)
Definition demo_geo_lines : list string :=
  [("lc = 0.1;" ++ newline)%string;
   ("Point(1) = {0, 0, 0, lc};" ++ newline)%string;
   ("Field[1] = Distance;" ++ newline)%string;
   ("Background Field = 1;" ++ newline)%string;
   ("Line(1) = {1, 2};" ++ newline)%string].

Definition demo_files : string -> option file :=
  write_file "/work/mesh.geo" {| text := demo_geo_lines; decoded := None |}
             (fun _ => None).

Definition demo_process : Process :=
  {| files := demo_files;
     directories := ["/work"; "/work/cestrel_remesh"]%string;
     argv := ["script.py"]%string;
     executable := "/usr/bin/python3";
     commands := [] |}.

Definition demo_write_out_mesh (m : Mesh) (original out : string)
           (fs : string -> option file) : outcome (string -> option file) :=
  Return (write_file out {| text := [original]; decoded := None |} fs).

Definition demo_run_command (command : string) (fs : string -> option file)
  : string -> option file := fs.

Definition demo_json_dumps (d : TempDict) : list string := ["{...}"%string].

Definition demo_realpath (path : string) : string := path.

Definition demo_temp_dict : TempDict :=
  {| key_geo_file := Some "/work/mesh.geo"%string;
     key_temp_dir := Some "/tmp/cestrel"%string;
     key_mesh_file := Some "/work/mesh.xdmf"%string;
     key_gmsh_file := Some "/work/mesh.msh"%string;
     key_remesh_counter := None;
     key_OptimizationRoutine :=
       Some {| key_iteration_counter := Some 0%Z;
               key_gradient_norm_initial := Some 0 |};
     key_output_dict := None |}.

Definition demo_config : ConfigParser :=
  Some {| option_remesh := Some "True"%string;
          option_mesh_file := Some "/work/mesh.xdmf"%string;
          option_gmsh_file := Some "/work/mesh.msh"%string;
          option_show_gmsh_output := None |}.

Definition demo_problem : ShapeOptimizationProblem :=
  {| problem_temp_dict := demo_temp_dict;
     state_problem_number_of_solves := 9;
     adjoint_problem_number_of_solves := 5;
     solver_iteration := 4;
     solver_gradient_norm_initial := 2;
     solver_cost_function_value := [8; 4; 2; 1];
     solver_gradient_norm := [1; 1 # 2; 1 # 4; 1 # 8];
     solver_stepsize := [1; 1; 1; 1];
     solver_MeshQuality := [1; 1 # 2; 1 # 4; 1 # 100] |}.

(** The same problem with a solver that has not advanced since the
    iteration stored in [temp_dict]. *)
Definition stuck_problem : ShapeOptimizationProblem :=
  {| problem_temp_dict := demo_temp_dict;
     state_problem_number_of_solves := 1;
     adjoint_problem_number_of_solves := 1;
     solver_iteration := 0;
     solver_gradient_norm_initial := 2;
     solver_cost_function_value := [8];
     solver_gradient_norm := [1];
     solver_stepsize := [1];
     solver_MeshQuality := [1 # 100] |}.

(** Collaborators for [import_mesh]: every file that exists holds
    [triangle_mesh]; collections and mesh functions are the lists of the
    names read into them. *)
Definition demo_collection (m : Mesh) (dim : Z) : list string := [].

Definition demo_mesh_function (m : Mesh) (mvc : list string) : list string :=
  mvc.

Definition demo_xdmf_read_mesh (f : file) : outcome Mesh :=
  Return triangle_mesh.

Definition demo_xdmf_read_values (f : file) (name : string)
           (mvc : list string) : outcome (list string) :=
  Return (name :: mvc).

(** What follows the last blank of a command. *)
Fixpoint last_word (command : string) : string :=
  match command with
  | EmptyString => EmptyString
  | String c rest =>
      if existsb (Ascii.eqb " ") (list_ascii_of_string command)
      then last_word rest else command
  end.

(** A shell in which [mesh-convert] writes its output file, named by the
    last word of the command, and every other command leaves the files
    alone. *)
Definition converting_run_command (command : string)
           (fs : string -> option file) : string -> option file :=
  if String.prefix "mesh-convert " command
  then write_file (last_word command)
                  {| text := ["<Xdmf>"%string]; decoded := None |} fs
  else fs.

(** The handler that [__init__] builds in [demo_process] for
    [demo_problem], and the process as it leaves it. *)
Definition demo_attributes : RemeshAttributes :=
  {| temp_dict := demo_temp_dict;
     remesh_counter := 0;
     gmsh_file := "/work/cestrel_remesh/mesh_0.msh";
     mesh_directory := "/work";
     remesh_directory := "/work/cestrel_remesh";
     remesh_geo_file := "/work/cestrel_remesh/remesh.geo";
     gmsh_file_init := Some "/work/cestrel_remesh/mesh_0.msh"%string;
     temp_file := None; new_gmsh_file := None; new_xdmf_file := None;
     temp_dir := None |}.

Definition demo_remeshing : Remeshing :=
  {| remeshing_mesh := triangle_mesh; remeshing_config := demo_config;
     do_remesh := true; attributes := Some demo_attributes |}.

(** The process that [os.execv] starts: the files as they were left, and
    the arguments after the interpreter as [sys.argv]. *)
Definition restarted (p : Process) (args : list string) : Process :=
  {| files := files p; directories := directories p; argv := tl args;
     executable := executable p; commands := [] |}.

(* ===================================================================== *)
(** ** Lemmas on the error monad and on index assignment                  *)
(* ===================================================================== *)

Unset Implicit Arguments.

Lemma bind_Ok {A B} (m : result A) (k : A -> result B) (b : B) :
  bind m k = Ok b -> exists a, m = Ok a /\ k a = Ok b.
Proof.
  destruct m as [a|e]; simpl; intros H; [eauto | discriminate].
Qed.

Ltac inv_bind H :=
  let a := fresh "a" in
  let Ha := fresh "Ha" in
  apply bind_Ok in H; destruct H as (a & Ha & H).

Lemma zip_exact_nth_error {A B C} (f : A -> B -> result C) :
  forall la lb lc j c,
    zip_exact f la lb = Ok lc ->
    nth_error lc j = Some c ->
    exists a b, nth_error la j = Some a /\ nth_error lb j = Some b
                /\ f a b = Ok c.
Proof.
  induction la as [|a la IH]; intros [|b lb] lc j c H Hj; simpl in H;
    try discriminate.
  - injection H as <-. destruct j; discriminate.
  - inv_bind H. inv_bind H. injection H as <-.
    destruct j as [|j]; simpl in Hj.
    + injection Hj as <-. exists a, b. auto.
    + destruct (IH _ _ _ _ Ha0 Hj) as (a' & b' & ? & ? & ?).
      exists a', b'. auto.
Qed.

Lemma zip_exact_length {A B C} (f : A -> B -> result C) :
  forall la lb lc,
    zip_exact f la lb = Ok lc ->
    length la = length lc /\ length lb = length lc.
Proof.
  induction la as [|a la IH]; intros [|b lb] lc H; simpl in H;
    try discriminate.
  - injection H as <-. auto.
  - inv_bind H. inv_bind H. injection H as <-.
    destruct (IH _ _ Ha0). simpl. auto.
Qed.

Lemma set_item_nth_error :
  forall v k x v',
    set_item v k x = Ok v' ->
    length v' = length v /\
    forall j, nth_error v' j = if (j =? k)%nat then Some x else nth_error v j.
Proof.
  induction v as [|a v IH]; intros k x v' H; simpl in H; [discriminate|].
  destruct k as [|k].
  - injection H as <-. split; [reflexivity|]. intros [|j]; reflexivity.
  - inv_bind H. injection H as <-. destruct (IH _ _ _ Ha) as [Hl Hn].
    split; [simpl; congruence|]. intros [|j]; simpl; [reflexivity|apply Hn].
Qed.

Lemma set_item_in_range :
  forall v k x, (k < length v)%nat -> exists v', set_item v k x = Ok v'.
Proof.
  induction v as [|a v IH]; intros k x Hk; simpl in Hk; [lia|].
  destruct k as [|k]; simpl; [eauto|].
  destruct (IH k x) as [v' ->]; [lia|]. simpl. eauto.
Qed.

(** What [v[idx] = 0.0] leaves in every position. *)
Lemma set_active_nth_error :
  forall idx v v',
    set_active v idx = Ok v' ->
    length v' = length v /\
    forall j, nth_error v' j =
              if existsb (Nat.eqb j) idx
              then option_map (fun _ => 0) (nth_error v j)
              else nth_error v j.
Proof.
  induction idx as [|k idx IH]; intros v v' H; simpl in H.
  - injection H as <-. auto.
  - inv_bind H. destruct (set_item_nth_error _ _ _ _ Ha) as [Hl Hn].
    destruct (IH _ _ H) as [Hl' Hn'].
    split; [congruence|]. intros j. rewrite Hn', Hn. simpl.
    destruct (Nat.eqb_spec j k) as [->|Hjk]; simpl.
    + assert (Hk : (k < length v)%nat).
      { apply nth_error_Some. specialize (Hn k). rewrite Nat.eqb_refl in Hn.
        assert (Hk : (k < length a)%nat) by (apply nth_error_Some; congruence).
        apply nth_error_Some. lia. }
      destruct (nth_error v k) eqn:E; [|apply nth_error_None in E; lia].
      destruct (existsb (Nat.eqb k) idx); reflexivity.
    + reflexivity.
Qed.

Lemma set_active_zero :
  forall idx v v' k,
    set_active v idx = Ok v' -> In k idx -> nth_error v' k = Some 0.
Proof.
  induction idx as [|i idx IH]; intros v v' k H Hin; [destruct Hin|].
  simpl in H. inv_bind H.
  destruct (set_active_nth_error _ _ _ H) as [Hl Hn].
  destruct (set_item_nth_error _ _ _ _ Ha) as [Hl' Hn'].
  destruct Hin as [->|Hin]; [|eauto].
  rewrite Hn, Hn', Nat.eqb_refl. simpl.
  destruct (existsb (Nat.eqb k) idx); reflexivity.
Qed.

Lemma set_active_in_range :
  forall idx v,
    Forall (fun k => (k < length v)%nat) idx ->
    exists v', set_active v idx = Ok v'.
Proof.
  induction idx as [|k idx IH]; intros v H; simpl; [eauto|].
  inversion H as [|? ? Hk Hrest]; subst.
  destruct (set_item_in_range v k 0 Hk) as [v1 E]. rewrite E. simpl.
  apply IH. destruct (set_item_nth_error _ _ _ _ E) as [Hl _].
  rewrite Hl. exact Hrest.
Qed.

(* ===================================================================== *)
(** ** The search direction: active set, steepest descent, worked trace   *)
(* ===================================================================== *)

Lemma nth_error_combine_seq :
  forall (g : vec) s j,
    nth_error (combine (seq s (length g)) g) j =
    option_map (fun x => ((s + j)%nat, x)) (nth_error g j).
Proof.
  induction g as [|x g IH]; intros s j; simpl.
  - destruct j; reflexivity.
  - destruct j as [|j]; simpl.
    + rewrite Nat.add_0_r. reflexivity.
    + rewrite IH. replace (S s + j)%nat with (s + S j)%nat by lia. reflexivity.
Qed.

Lemma set_active_negated :
  forall g idx,
    Forall (fun k => (k < length g)%nat) idx ->
    set_active (map Qopp g) idx = Ok (negated_projected g idx).
Proof.
  intros g idx H.
  destruct (set_active_in_range idx (map Qopp g)) as [v' E].
  { rewrite length_map. exact H. }
  rewrite E. f_equal. apply nth_error_ext. intros j.
  destruct (set_active_nth_error _ _ _ E) as [_ Hn]. rewrite Hn.
  unfold negated_projected.
  rewrite !nth_error_map, nth_error_combine_seq.
  destruct (nth_error g j) as [x|]; simpl;
    destruct (existsb (Nat.eqb j) idx); reflexivity.
Qed.

Lemma negative_gradient_projected :
  forall grad idx_active,
    active_in_range grad idx_active ->
    negative_gradient grad idx_active
    = Ok (negated_projected_control grad idx_active).
Proof.
  unfold negative_gradient, negated_projected_control, active_in_range.
  induction 1 as [|g idx grad idx_active Hg _ IH]; simpl; [reflexivity|].
  rewrite (set_active_negated _ _ Hg). simpl. rewrite IH. reflexivity.
Qed.

(** C3.  Whatever the gradient, the active index arrays and the L-BFGS
    memory (empty or not, scaled or not), in the tuple that
    [compute_search_direction] returns every entry at an active index is
    exactly [0]: component [j] of the result exists for every index array
    [idx_active[j]], and holds [0] at each index of that array.  (In the
    L-BFGS branch the entry is [0.0 * -1], the float [-0.0], which equals
    [0.0]; here it is the rational [0].) *)
Theorem active_entries_zero :
  forall scalar_product self grad idx_active d j idx k,
    compute_search_direction scalar_product self grad idx_active = Ok d ->
    nth_error idx_active j = Some idx ->
    In k idx ->
    exists v, nth_error d j = Some v /\ nth_error v k = Some 0.
Proof.
  intros sp self grad idx_active d j idx k H Hj Hk.
  assert (Hv : exists v, nth_error d j = Some v).
  { assert (Hlen : length idx_active = length d).
    { unfold compute_search_direction in H.
      destruct (_ && _).
      - inv_bind H. apply zip_exact_length in H. tauto.
      - apply zip_exact_length in H. tauto. }
    destruct (nth_error d j) eqn:E; [eauto|].
    apply nth_error_None in E.
    assert (j < length idx_active)%nat by (apply nth_error_Some; congruence).
    lia. }
  destruct Hv as [v Hv]. exists v. split; [exact Hv|].
  unfold compute_search_direction in H. destruct (_ && _).
  - inv_bind H.
    destruct (zip_exact_nth_error _ _ _ _ _ _ H Hv) as (u & idx' & _ & Hi & Hf).
    rewrite Hj in Hi. injection Hi as <-.
    inv_bind Hf. injection Hf as <-.
    rewrite nth_error_map, (set_active_zero _ _ _ _ Ha0 Hk). reflexivity.
  - destruct (zip_exact_nth_error _ _ _ _ _ _ H Hv) as (u & idx' & _ & Hi & Hf).
    rewrite Hj in Hi. injection Hi as <-.
    exact (set_active_zero _ _ _ _ Hf Hk).
Qed.

Lemma active_entries_zero_witness :
  compute_search_direction dot one_pair_solver [[3; 4]] [[1%nat]]
  = Ok [[-3; 0]]
  /\ nth_error [[1%nat]] 0 = Some [1%nat]
  /\ In 1%nat [1%nat]
  /\ exists v, nth_error [[-3; 0]] 0 = Some v /\ nth_error v 1 = Some 0.
Proof.
  assert (H : compute_search_direction dot one_pair_solver [[3; 4]] [[1%nat]]
              = Ok [[-3; 0]]) by reflexivity.
  split; [exact H|]. split; [reflexivity|]. split; [left; reflexivity|].
  exact (active_entries_zero dot one_pair_solver [[3; 4]] [[1%nat]]
           [[-3; 0]] 0%nat [1%nat] 1%nat H eq_refl (or_introl eq_refl)).
Defined.

(** C5.  With [memory_vectors = 0], or with an empty history,
    [compute_search_direction] returns exactly the negated gradient with
    every active-index entry set to [0], for every gradient and every
    family of active index arrays (one per component, indices within the
    component). *)
Theorem steepest_descent_without_history :
  forall scalar_product self grad idx_active,
    memory_vectors self = 0%Z \/ history_s self = [] ->
    active_in_range grad idx_active ->
    compute_search_direction scalar_product self grad idx_active
    = Ok (negated_projected_control grad idx_active).
Proof.
  intros sp self grad idx_active Hmem Hrange.
  unfold compute_search_direction.
  replace ((0 <? memory_vectors self)%Z && (0 <? length (history_s self))%nat)
    with false.
  - apply negative_gradient_projected. exact Hrange.
  - destruct Hmem as [-> | ->]; simpl; [reflexivity|].
    rewrite andb_false_r. reflexivity.
Qed.

(** The scenario of C5: dimension 5, reduced gradient [[1,1,1,1,1]], no
    active index: the direction is [[-1,-1,-1,-1,-1]]. *)
Lemma steepest_descent_dimension_five :
  (memory_vectors no_memory_solver = 0%Z \/ history_s no_memory_solver = [])
  /\ active_in_range [[1; 1; 1; 1; 1]] [[]]
  /\ compute_search_direction dot no_memory_solver [[1; 1; 1; 1; 1]] [[]]
     = Ok [[-1; -1; -1; -1; -1]].
Proof.
  assert (Hmem : memory_vectors no_memory_solver = 0%Z
                 \/ history_s no_memory_solver = []) by (left; reflexivity).
  assert (Hrange : active_in_range [[1; 1; 1; 1; 1]] [[]])
    by (repeat constructor).
  split; [exact Hmem|]. split; [exact Hrange|].
  exact (steepest_descent_without_history dot no_memory_solver
           [[1; 1; 1; 1; 1]] [[]] Hmem Hrange).
Defined.

(** The claim of C1 as stated, refuted: for the history [s = [1,0]],
    [y = [1,0]], [rho = 1], scaling disabled, reduced gradient [[1,0]] and
    no active index, the recursion does not yield [[0,0]] before the
    negation. *)
Lemma two_loop_one_pair_not_zero :
  yields (two_loop_recursion dot one_pair_solver [[1; 0]] [[]]) [[0; 0]]
  = false.
Proof. reflexivity. Qed.

(** C1, amended.  On that input the recursion yields [[1,0]] immediately
    before the negation: the forward pass gives [alpha = 1] and
    [d = [0,0]], the factor is [1], the backward pass gives [beta = 0] and
    [d = [0,0] + [1,0] * (1 - 0)].  The direction returned is [[-1,0]]. *)
Theorem two_loop_one_pair :
  foldM (forward_step dot one_pair_solver) [0%nat] ([[1; 0]], [])
  = Ok ([[0; 0]], [1])
  /\ scaling_factor dot one_pair_solver = Ok 1
  /\ foldM (backward_step dot one_pair_solver [1]) [0%nat] [[0; 0]]
     = Ok [[1; 0]]
  /\ two_loop_recursion dot one_pair_solver [[1; 0]] [[]] = Ok [[1; 0]]
  /\ compute_search_direction dot one_pair_solver [[1; 0]] [[]]
     = Ok [[-1; 0]].
Proof. repeat split; reflexivity. Qed.

(* ===================================================================== *)
(** ** The history update                                                 *)
(* ===================================================================== *)

Lemma pydiv_Ok :
  forall a b r, pydiv a b = Ok r -> ~ b == 0 /\ r = a / b.
Proof.
  unfold pydiv. intros a b r H.
  destruct (Qeq_bool b 0) eqn:E; [discriminate|].
  injection H as <-. split; [|reflexivity].
  apply Qeq_bool_neq. exact E.
Qed.

Lemma pydiv_nonzero :
  forall a b, ~ b == 0 -> pydiv a b = Ok (a / b).
Proof.
  unfold pydiv. intros a b H.
  destruct (Qeq_bool b 0) eqn:E; [|reflexivity].
  apply Qeq_bool_iff in E. contradiction.
Qed.

Lemma reciprocal_twice :
  forall c, 1 / (1 / c) == c.
Proof.
  intros c. unfold Qdiv. rewrite !Qmult_1_l. apply Qinv_involutive.
Qed.

Lemma le0_iff : forall x, le0 x = true <-> x <= 0.
Proof. intros x. unfold le0. apply Qle_bool_iff. Qed.

Lemma gt0_iff : forall x, gt0 x = true <-> 0 < x.
Proof.
  intros x. unfold gt0. rewrite negb_true_iff.
  split.
  - intros H. apply Qnot_le_lt. intros Hle.
    apply Qle_bool_iff in Hle. congruence.
  - intros H. destruct (Qle_bool x 0) eqn:E; [|reflexivity].
    apply Qle_bool_iff in E. exfalso. exact (Qlt_not_le _ _ H E).
Qed.

Lemma removelast_cons_firstn {A} :
  forall (x : A) l,
    l <> [] -> removelast (x :: l) = x :: firstn (pred (length l)) l.
Proof.
  intros x l Hl. simpl. destruct l as [|y l]; [contradiction|].
  f_equal. apply removelast_firstn_len.
Qed.

(** What [reciprocal] returns: nothing at [0], an infinity from the
    overflow threshold on, the quotient below it. *)
Lemma reciprocal_Ok :
  forall c rho,
    reciprocal c = Ok rho ->
    ~ c == 0
    /\ ((overflow_threshold <= Qabs (1 / c) /\ exists negative, rho = Inf negative)
        \/ (Qabs (1 / c) < overflow_threshold /\ rho = Real (1 / c))).
Proof.
  unfold reciprocal. intros c rho H.
  destruct (Qeq_bool c 0) eqn:E; [discriminate H|].
  split; [apply Qeq_bool_neq; exact E|].
  destruct (Qle_bool overflow_threshold (Qabs (1 / c))) eqn:E1;
    injection H as <-.
  - left. split; [apply Qle_bool_iff; exact E1 | eauto].
  - right. split; [|reflexivity].
    apply Qnot_le_lt. intros Hle. apply Qle_bool_iff in Hle. congruence.
Qed.

Lemma reciprocal_zero :
  forall c, c == 0 -> reciprocal c = Raise ZeroDivisionError.
Proof.
  unfold reciprocal. intros c H.
  apply Qeq_bool_iff in H. rewrite H. reflexivity.
Qed.

Lemma firstn_room {A} :
  forall (l : list A) memory,
    (Z.of_nat (length l) < memory)%Z -> firstn (Z.to_nat (memory - 1)) l = l.
Proof.
  intros l memory H. apply firstn_all2. lia.
Qed.

(** What lines 146-156 leave of the three deques, when the deques were
    aligned and within the bound before the pushes: nothing when the
    curvature [c] is negative or so small that [1/c] overflows, and
    otherwise the new entries in front of the earlier ones, the oldest
    dropped when the deques were full. *)
Lemma clear_and_truncate_spec :
  forall memory c rho (s y : control) (hs hy : list control) (hrho : list Q)
         hs' hy' hrho',
    (0 < memory)%Z ->
    length hs = length hy -> length hy = length hrho ->
    (Z.of_nat (length hs) <= memory)%Z ->
    reciprocal c = Ok rho ->
    clear_and_truncate memory rho (s :: hs) (y :: hy) hrho
    = Ok (hs', hy', hrho') ->
    ((c < 0 \/ overflow_threshold <= Qabs (1 / c))
     /\ hs' = [] /\ hy' = [] /\ hrho' = [])
    \/ (0 < c /\ Qabs (1 / c) < overflow_threshold
        /\ hs' = s :: firstn (Z.to_nat (memory - 1)) hs
        /\ hy' = y :: firstn (Z.to_nat (memory - 1)) hy
        /\ hrho' = 1 / c :: firstn (Z.to_nat (memory - 1)) hrho).
Proof.
  intros memory c rho s y hs hy hrho hs' hy' hrho' Hm Hsy Hyr Hb Hrho H.
  destruct (reciprocal_Ok _ _ Hrho)
    as [Hc [[Hover [negative ->]] | [Hfinite ->]]].
  - left. split; [right; exact Hover|].
    unfold clear_and_truncate, truncate in H. simpl in H.
    destruct (memory <? 0)%Z eqn:E0; [lia|].
    injection H as <- <- <-. auto.
  - unfold clear_and_truncate in H. inv_bind H.
    apply pydiv_Ok in Ha. destruct Ha as [_ ->].
    assert (Hinv : 1 / (1 / c) == c) by apply reciprocal_twice.
    destruct (le0 (1 / (1 / c))) eqn:E.
    + left. apply le0_iff in E. rewrite Hinv in E.
      split; [left; apply Qle_lteq in E; destruct E as [E|E];
              [exact E | contradiction]|].
      unfold truncate in H. simpl in H.
      destruct (memory <? 0)%Z eqn:E0; [lia|].
      injection H as <- <- <-. auto.
    + right. assert (Hpos : 0 < c).
      { apply Qnot_le_lt. intros Hle. rewrite <- Hinv in Hle.
        apply le0_iff in Hle. congruence. }
      split; [exact Hpos|]. split; [exact Hfinite|].
      unfold truncate in H.
      destruct (memory <? Z.of_nat (length (s :: hs)))%Z eqn:E1.
      * simpl in E1. apply Z.ltb_lt in E1.
        assert (Hlen : Z.to_nat (memory - 1) = pred (length hs)) by lia.
        assert (hs <> []) by (intros ->; simpl in *; lia).
        assert (hy <> []) by (intros ->; simpl in *; lia).
        assert (hrho <> []) by (intros ->; simpl in *; lia).
        cbn [bind deque_pop] in H.
        rewrite !removelast_cons_firstn in H by assumption.
        injection H as <- <- <-. rewrite Hlen.
        rewrite <- Hsy at 1. rewrite <- Hyr, <- Hsy.
        repeat split; reflexivity.
      * apply Z.ltb_ge in E1. simpl in E1. injection H as <- <- <-.
        rewrite !firstn_room by lia. repeat split; reflexivity.
Qed.

(** The history update on an aligned, bounded history.  The update
    completes only for a curvature [c = <y,s>] other than [0].  It leaves
    the three deques empty when the test of line 148 holds, which is for
    [c < 0] and for a [c] so small that [1/c] is an infinity; otherwise it
    leaves the new pair in front of the previous entries, without the
    oldest one when the deques were full. *)
Lemma update_history_spec :
  forall scalar_product self self',
    (0 < memory_vectors self)%Z ->
    history_bounded self ->
    update_history scalar_product self = Ok self' ->
    let c := scalar_product (storage_y self') (storage_s self') in
    memory_vectors self' = memory_vectors self
    /\ history_bounded self'
    /\ ~ c == 0
    /\ (((c < 0 \/ overflow_threshold <= Qabs (1 / c))
         /\ history_cleared self')
        \/ (0 < c /\ Qabs (1 / c) < overflow_threshold
            /\ newest_first scalar_product self self')).
Proof.
  intros sp self self' Hm (Hsy & Hyr & Hb) H.
  unfold update_history in H.
  destruct (0 <? memory_vectors self)%Z eqn:E; [|apply Z.ltb_ge in E; lia].
  inv_bind H. inv_bind H. inv_bind H.
  destruct a1 as [[hs' hy'] hrho']. injection H as <-. simpl.
  destruct (reciprocal_Ok _ _ Ha0) as [Hc _].
  destruct (clear_and_truncate_spec _ _ _ _ _ _ _ _ _ _ _
              Hm Hsy Hyr Hb Ha0 Ha1)
    as [(Hle & -> & -> & ->) | (Hpos & Hfinite & -> & -> & ->)].
  - split; [reflexivity|]. split.
    + unfold history_bounded. simpl. repeat split; lia.
    + split; [exact Hc|]. left. split; [exact Hle|].
      unfold history_cleared. simpl. auto.
  - split; [reflexivity|]. split.
    + unfold history_bounded. simpl. rewrite !length_firstn.
      repeat split; lia.
    + split; [exact Hc|]. right. split; [exact Hpos|].
      split; [exact Hfinite|].
      unfold newest_first. simpl. repeat split; reflexivity.
Qed.

(** With curvature [0] the reciprocal [1 / <y,s>] raises: the update does
    not complete and nothing is cleared. *)
Lemma update_history_zero_curvature :
  forall scalar_product self y,
    (0 < memory_vectors self)%Z ->
    zip_exact (vec_zip Qminus) (reduced_gradient self) (gradients_prev self)
    = Ok y ->
    scalar_product y (map (map (fun x => stepsize self * x))
                          (search_directions self)) == 0 ->
    update_history scalar_product self = Raise ZeroDivisionError.
Proof.
  intros sp self y Hm Hy Hc. unfold update_history.
  destruct (0 <? memory_vectors self)%Z eqn:E; [|apply Z.ltb_ge in E; lia].
  rewrite Hy. simpl. rewrite (reciprocal_zero _ Hc). reflexivity.
Qed.

(** C2 on the code.  For an update whose new pair has curvature
    [<y,s> = 0] (here [y = [0,0]], [s = [-1,0]], memory enabled) the code
    raises [ZeroDivisionError] at [rho = 1 / <y,s>]: the history is not
    cleared.  The same happens inside [run] as soon as the reduced
    gradient is the same before and after a step. *)
Theorem zero_curvature_raises :
  update_history dot zero_curvature_solver = Raise ZeroDivisionError
  /\ run dot demo_invalidate constant_gradient_solve demo_line_search
         demo_sqrt Qdiv three_pair_solver 0%nat [[]]
     = Some (Raise ZeroDivisionError).
Proof. split; reflexivity. Qed.

(* ===================================================================== *)
(** ** The loop of [run]                                                  *)
(* ===================================================================== *)

Ltac inv_binds H :=
  repeat (first
    [ progress (apply bind_Ok in H;
                let a := fresh "a" in
                let Ha := fresh "Ha" in
                destruct H as (a & Ha & H))
    | match type of H with
      | context [match ?p with (_, _) => _ end] => destruct p
      end ]).

Section LoopFacts.

Variable scalar_product : control -> control -> Q.
Variable World : Type.
Variable invalidate : problem -> World -> World.
Variable gradient_problem_solve : World -> result (World * control).
Variable line_search_search : control -> World -> result (World * Q * bool).
Variable np_sqrt : Q -> Q.
Variable np_divide : Q -> Q -> Q.
Variable idx_active : list (list nat).

Local Abbreviation search_step' := (search_step scalar_product line_search_search).
Local Abbreviation gradient_step' :=
  (gradient_step scalar_product invalidate gradient_problem_solve np_sqrt
                 np_divide).
Local Abbreviation run_setup' :=
  (run_setup scalar_product invalidate gradient_problem_solve np_sqrt).
Local Abbreviation iteration_body' :=
  (iteration_body scalar_product invalidate gradient_problem_solve
                  line_search_search np_sqrt np_divide).
Local Abbreviation while_loop' :=
  (while_loop scalar_product invalidate gradient_problem_solve
              line_search_search np_sqrt np_divide).
Local Abbreviation update_point' :=
  (update_point scalar_product invalidate gradient_problem_solve
                line_search_search np_sqrt np_divide idx_active).

(** The blocks around the history update leave the memory alone. *)
Lemma run_setup_memory :
  forall self w self' w',
    run_setup' self w idx_active = Ok (self', w') ->
    memory_vectors self' = memory_vectors self
    /\ (history_bounded self -> history_bounded self')
    /\ iteration self' = 0%Z
    /\ maximum_iterations self' = maximum_iterations self.
Proof.
  intros self w self' w' H. unfold run_setup in H. inv_binds H.
  injection H as <- <-. unfold history_bounded. simpl. auto.
Qed.

Lemma search_step_memory :
  forall self w self' w',
    search_step' self w idx_active = Ok (self', w') ->
    memory_vectors self' = memory_vectors self
    /\ (history_bounded self -> history_bounded self')
    /\ iteration self' = iteration self
    /\ maximum_iterations self' = maximum_iterations self.
Proof.
  intros self w self' w' H. unfold search_step in H. inv_binds H.
  injection H as <- <-. unfold history_bounded. simpl. auto.
Qed.

Lemma gradient_step_memory :
  forall self w self' w',
    gradient_step' self w idx_active = Ok (self', w') ->
    memory_vectors self' = memory_vectors self
    /\ (history_bounded self -> history_bounded self')
    /\ iteration self' = iteration self
    /\ maximum_iterations self' = maximum_iterations self.
Proof.
  intros self w self' w' H. unfold gradient_step in H. inv_binds H.
  injection H as <- <-. unfold history_bounded. simpl. auto.
Qed.

Lemma update_history_counters :
  forall self self',
    update_history scalar_product self = Ok self' ->
    memory_vectors self' = memory_vectors self
    /\ iteration self' = iteration self
    /\ maximum_iterations self' = maximum_iterations self.
Proof.
  intros self self' H. unfold update_history in H.
  destruct (0 <? memory_vectors self)%Z.
  - inv_binds H. injection H as <-. simpl. auto.
  - injection H as <-. auto.
Qed.

Lemma finish_iteration_memory :
  forall self self' stop,
    finish_iteration self = Ok (self', stop) ->
    memory_vectors self' = memory_vectors self
    /\ (history_bounded self -> history_bounded self')
    /\ iteration self' = (iteration self + 1)%Z
    /\ maximum_iterations self' = maximum_iterations self
    /\ (stop = false -> (iteration self' < maximum_iterations self')%Z).
Proof.
  intros self self' stop H. unfold finish_iteration in H. cbn in H.
  destruct (maximum_iterations self <=? iteration self + 1)%Z eqn:E.
  - destruct (soft_exit self); [|discriminate H].
    injection H as <- <-. unfold history_bounded. simpl.
    repeat split; auto; try discriminate; tauto.
  - injection H as <- <-. unfold history_bounded. simpl.
    apply Z.leb_gt in E. repeat split; auto; tauto.
Qed.

(** A pass that does not leave the loop is made of the four blocks. *)
Lemma iteration_body_continues :
  forall self w self' w',
    iteration_body' self w idx_active = Ok (self', w', false) ->
    exists self1 w1 before after,
      search_step' self w idx_active = Ok (self1, w1)
      /\ line_search_broken self1 = false
      /\ gradient_step' self1 w1 idx_active = Ok (before, w')
      /\ update_history scalar_product before = Ok after
      /\ finish_iteration after = Ok (self', false).
Proof.
  intros self w self' w' H. unfold iteration_body in H.
  apply bind_Ok in H. destruct H as ([self1 w1] & H1 & H).
  cbn beta iota in H.
  destruct (line_search_broken self1) eqn:Eb.
  - destruct (soft_exit self1); discriminate H.
  - apply bind_Ok in H. destruct H as ([before w2] & H2 & H).
    cbn beta iota in H.
    apply bind_Ok in H. destruct H as (after & H3 & H).
    apply bind_Ok in H. destruct H as ([self2 stop] & H4 & H).
    cbn beta iota in H. injection H as -> -> ->.
    exists self1, w1, before, after. repeat split; assumption.
Qed.

Lemma iteration_body_bounded :
  forall self w self' w',
    (0 < memory_vectors self)%Z ->
    history_bounded self ->
    iteration_body' self w idx_active = Ok (self', w', false) ->
    memory_vectors self' = memory_vectors self /\ history_bounded self'.
Proof.
  intros self w self' w' Hm Hb H.
  destruct (iteration_body_continues _ _ _ _ H)
    as (self1 & w1 & before & after & H1 & _ & H2 & H3 & H4).
  destruct (search_step_memory _ _ _ _ H1) as (M1 & B1 & _).
  destruct (gradient_step_memory _ _ _ _ H2) as (M2 & B2 & _).
  assert (Hm2 : (0 < memory_vectors before)%Z) by lia.
  destruct (update_history_spec _ _ _ Hm2 (B2 (B1 Hb)) H3) as (M3 & B3 & _).
  destruct (finish_iteration_memory _ _ _ H4) as (M4 & B4 & _).
  split; [lia | auto].
Qed.

Lemma update_point_bounded :
  forall self w before after,
    update_point' self w before after ->
    (0 < memory_vectors self)%Z ->
    history_bounded self ->
    let c := scalar_product (storage_y after) (storage_s after) in
    memory_vectors after = memory_vectors self
    /\ memory_vectors before = memory_vectors self
    /\ history_bounded after
    /\ ~ c == 0
    /\ (((c < 0 \/ overflow_threshold <= Qabs (1 / c))
         /\ history_cleared after)
        \/ (0 < c /\ Qabs (1 / c) < overflow_threshold
            /\ newest_first scalar_product before after)).
Proof.
  induction 1 as [self w self1 w1 before w2 after _ H1 _ H2 H3
                 | self w self' w' before after _ Hbody _ IH];
    intros Hm Hb.
  - destruct (search_step_memory _ _ _ _ H1) as (M1 & B1 & _).
    destruct (gradient_step_memory _ _ _ _ H2) as (M2 & B2 & _).
    assert (Hm2 : (0 < memory_vectors before)%Z) by lia.
    destruct (update_history_spec _ _ _ Hm2 (B2 (B1 Hb)) H3)
      as (M3 & B3 & Hc & Hcases).
    cbv zeta. split; [lia|]. split; [lia|]. split; [exact B3|].
    split; [exact Hc | exact Hcases].
  - destruct (iteration_body_bounded _ _ _ _ Hm Hb Hbody) as [M B].
    rewrite <- M. apply IH; [lia | exact B].
Qed.

(** The loop never runs out of the fuel [run] gives it. *)
Lemma while_loop_fuel :
  forall fuel self w,
    (1 <= fuel)%nat ->
    (maximum_iterations self <= iteration self + Z.of_nat fuel)%Z ->
    while_loop' fuel self w idx_active <> None.
Proof.
  induction fuel as [|fuel IH]; intros self w Hf Hmax; [lia|].
  simpl. destruct (converged np_divide self); [discriminate|].
  destruct (iteration_body' self w idx_active) as [[[self' w'] stop]|e] eqn:E;
    [|discriminate].
  destruct stop; [discriminate|].
  destruct (iteration_body_continues _ _ _ _ E)
    as (self1 & w1 & before & after & H1 & _ & H2 & H3 & H4).
  destruct (search_step_memory _ _ _ _ H1) as (_ & _ & I1 & X1).
  destruct (gradient_step_memory _ _ _ _ H2) as (_ & _ & I2 & X2).
  destruct (update_history_counters _ _ H3) as (_ & I3 & X3).
  destruct (finish_iteration_memory _ _ _ H4) as (_ & _ & I4 & X4 & Hlt).
  specialize (Hlt eq_refl). apply IH; lia.
Qed.

Lemma run_terminates :
  forall self w,
    run scalar_product invalidate gradient_problem_solve line_search_search
        np_sqrt np_divide self w idx_active <> None.
Proof.
  intros self w. unfold run.
  destruct (run_setup' self w idx_active) as [[self0 w0]|e] eqn:E;
    [|discriminate].
  destruct (run_setup_memory _ _ _ _ E) as (_ & _ & I & X).
  apply while_loop_fuel; unfold run_fuel; lia.
Qed.

End LoopFacts.

Section LoopInvariant.

Variable scalar_product : control -> control -> Q.
Variable World : Type.
Variable invalidate : problem -> World -> World.
Variable gradient_problem_solve : World -> result (World * control).
Variable line_search_search : control -> World -> result (World * Q * bool).
Variable np_sqrt : Q -> Q.
Variable np_divide : Q -> Q -> Q.
Variable idx_active : list (list nat).

Local Abbreviation body :=
  (iteration_body scalar_product invalidate gradient_problem_solve
                  line_search_search np_sqrt np_divide).

(** Every pass, whether it goes on or leaves the loop by [break], keeps
    the deques aligned and within the bound. *)
Lemma iteration_body_keeps_bound :
  forall self w self' w' stop,
    (0 < memory_vectors self)%Z ->
    history_bounded self ->
    body self w idx_active = Ok (self', w', stop) ->
    memory_vectors self' = memory_vectors self /\ history_bounded self'.
Proof.
  intros self w self' w' stop Hm Hb H. unfold iteration_body in H.
  apply bind_Ok in H. destruct H as ([self1 w1] & H1 & H).
  cbn beta iota in H.
  destruct (search_step_memory _ _ _ _ _ _ _ _ H1) as (M1 & B1 & _).
  destruct (line_search_broken self1).
  - destruct (soft_exit self1); [|discriminate H].
    injection H as <- _ _. unfold history_bounded in *. simpl. auto.
  - apply bind_Ok in H. destruct H as ([before w2] & H2 & H).
    cbn beta iota in H.
    apply bind_Ok in H. destruct H as (after & H3 & H).
    apply bind_Ok in H. destruct H as ([self2 stop'] & H4 & H).
    cbn beta iota in H. injection H as <- _ _.
    destruct (gradient_step_memory _ _ _ _ _ _ _ _ _ _ _ H2) as (M2 & B2 & _).
    assert (Hm2 : (0 < memory_vectors before)%Z) by lia.
    destruct (update_history_spec _ _ _ Hm2 (B2 (B1 Hb)) H3) as (M3 & B3 & _).
    destruct (finish_iteration_memory _ _ _ H4) as (M4 & B4 & _).
    split; [lia | auto].
Qed.

Lemma while_loop_keeps_bound :
  forall fuel self w self' w',
    (0 < memory_vectors self)%Z ->
    history_bounded self ->
    while_loop scalar_product invalidate gradient_problem_solve
               line_search_search np_sqrt np_divide fuel self w idx_active
    = Some (Ok (self', w')) ->
    history_bounded self'.
Proof.
  induction fuel as [|fuel IH]; intros self w self' w' Hm Hb H; simpl in H.
  - destruct (converged np_divide self); [|discriminate H].
    injection H as <- _. exact Hb.
  - destruct (converged np_divide self).
    + injection H as <- _. exact Hb.
    + destruct (body self w idx_active) as [[[self1 w1] stop]|e] eqn:E;
        [|discriminate H].
      destruct (iteration_body_keeps_bound _ _ _ _ _ Hm Hb E) as [M B].
      destruct stop.
      * injection H as <- _. exact B.
      * apply (IH _ _ _ _ (eq_ind_r (fun m => (0 < m)%Z) Hm M) B H).
Qed.

(** [run] hands the deques on as it found them: aligned and bounded.
    Together with [init_history_bounded] this is what every later call of
    [run] starts from. *)
Lemma run_keeps_bound :
  forall self w self' w',
    (0 < memory_vectors self)%Z ->
    history_bounded self ->
    run scalar_product invalidate gradient_problem_solve line_search_search
        np_sqrt np_divide self w idx_active = Some (Ok (self', w')) ->
    history_bounded self'.
Proof.
  intros self w self' w' Hm Hb H. unfold run in H.
  destruct (run_setup scalar_product invalidate gradient_problem_solve
                      np_sqrt self w idx_active)
    as [[self0 w0]|e] eqn:E; [|discriminate H].
  destruct (run_setup_memory _ _ _ _ _ _ _ _ _ _ E) as (M0 & B0 & _).
  apply (while_loop_keeps_bound _ _ _ _ _
           (eq_ind_r (fun m => (0 < m)%Z) Hm M0) (B0 Hb) H).
Qed.

End LoopInvariant.

Lemma init_history_bounded :
  forall control_spaces max_it tol a r soft mv scaling,
    (0 <= mv)%Z ->
    history_bounded (init control_spaces max_it tol a r soft mv scaling).
Proof.
  intros. unfold history_bounded. simpl. repeat split; auto.
Qed.

Lemma zip_exact_map_right {A B C} (f : A -> B -> result C) (g : B -> C) :
  (forall a b c, f a b = Ok c -> c = g b) ->
  forall la lb lc, zip_exact f la lb = Ok lc -> lc = map g lb.
Proof.
  intros Hf. induction la as [|a la IH]; intros [|b lb] lc H; simpl in H;
    try discriminate.
  - injection H as <-. reflexivity.
  - inv_bind H. inv_bind H. injection H as <-. simpl.
    rewrite (Hf _ _ _ Ha). rewrite (IH _ _ Ha0). reflexivity.
Qed.

Lemma assign_negated_neg :
  forall d g d', assign_negated d g = Ok d' -> d' = neg_control g.
Proof.
  intros d g d' H. unfold assign_negated in H.
  apply (zip_exact_map_right _ (map Qopp)) in H; [exact H|].
  intros v w c Hc. destruct (length v =? length w)%nat; [|discriminate].
  injection Hc as <-. reflexivity.
Qed.

(** The claim of C4 as stated, refuted: in the run from
    [three_pair_solver] whose gradient grows from [[1,0]] to [[2,0]] over
    the first step, the first history update pushes the pair
    [y = [1,0]], [s = [-1,0]] of curvature [-1] and leaves the three
    deques empty: the entry pushed most recently is not at index 0. *)
Lemma cleared_update_has_no_newest_entry :
  run_setup dot demo_invalidate growing_gradient_solve demo_sqrt
            three_pair_solver 0%nat [[]] = Ok growing_entry
  /\ update_point dot demo_invalidate growing_gradient_solve
                  demo_line_search demo_sqrt Qdiv [[]]
                  (fst growing_entry) (snd growing_entry)
                  (fst growing_before) growing_after
  /\ storage_y growing_after = [[1; 0]]
  /\ storage_s growing_after = [[-1; 0]]
  /\ nth_error (history_s growing_after) 0 = None
  /\ nth_error (history_y growing_after) 0 = None
  /\ nth_error (history_rho growing_after) 0 = None.
Proof.
  split; [reflexivity|]. split.
  - apply (@update_here dot nat demo_invalidate growing_gradient_solve
             demo_line_search demo_sqrt Qdiv [[]]
             (fst growing_entry) (snd growing_entry)
             (fst growing_searched) (snd growing_searched)
             (fst growing_before) (snd growing_before) growing_after);
      reflexivity.
  - repeat split; reflexivity.
Qed.

(** C4, amended.  In every execution of [run] with
    [memory_vectors = m > 0], started on deques of equal length at most
    [m] (as [__init__] and every earlier [run] leave them), after the
    history update of each pass the three deques have equal lengths, at
    most [m].  The curvature [c = <y,s>] of the pair just pushed is not
    [0].  When the test of line 148 holds, which is for [c < 0] and for a
    [c] so small that [1/c] is an infinity, the three deques are empty.
    Otherwise the pair just pushed, with [rho = 1/c], is at index 0, in
    front of the entries the deques held before, in their order: all of
    them when they were fewer than [m], and all but the oldest when they
    were [m]. *)
Theorem history_bounded_newest_first :
  forall scalar_product (World : Type) invalidate gradient_problem_solve
         line_search_search np_sqrt np_divide idx_active
         self (w : World) self0 w0 before after,
    (0 < memory_vectors self)%Z ->
    history_bounded self ->
    run_setup scalar_product invalidate gradient_problem_solve np_sqrt
              self w idx_active = Ok (self0, w0) ->
    update_point scalar_product invalidate gradient_problem_solve
                 line_search_search np_sqrt np_divide idx_active
                 self0 w0 before after ->
    let c := scalar_product (storage_y after) (storage_s after) in
    length (history_s after) = length (history_y after)
    /\ length (history_y after) = length (history_rho after)
    /\ (Z.of_nat (length (history_s after)) <= memory_vectors self)%Z
    /\ memory_vectors before = memory_vectors self
    /\ ~ c == 0
    /\ ((c < 0 \/ overflow_threshold <= Qabs (1 / c)) ->
        history_cleared after)
    /\ (0 < c -> Qabs (1 / c) < overflow_threshold ->
        newest_first scalar_product before after).
Proof.
  intros sp World inval solve ls np_sqrt np_divide idx self w self0 w0
         before after Hm Hb Hsetup Hpoint.
  destruct (run_setup_memory _ _ _ _ _ _ _ _ _ _ Hsetup) as (M0 & B0 & _).
  destruct (update_point_bounded _ _ _ _ _ _ _ _ _ _ _ _ Hpoint)
    as (M & Mb & (L1 & L2 & L3) & Hc & Hcases); [lia | auto |].
  cbv zeta. split; [exact L1|]. split; [exact L2|]. split; [lia|].
  split; [lia|]. split; [exact Hc|]. split.
  - intros Hclear.
    destruct Hcases as [[_ Hcleared] | (Hpos & Hfinite & _)];
      [exact Hcleared|].
    exfalso. destruct Hclear as [Hneg | Hover].
    + exact (Qlt_irrefl _ (Qlt_trans _ _ _ Hpos Hneg)).
    + exact (Qlt_not_le _ _ Hfinite Hover).
  - intros Hpos Hfinite.
    destruct Hcases as [[[Hneg | Hover] _] | (_ & _ & Hnew)];
      [exfalso | exfalso | exact Hnew].
    + exact (Qlt_irrefl _ (Qlt_trans _ _ _ Hpos Hneg)).
    + exact (Qlt_not_le _ _ Hfinite Hover).
Qed.

Lemma history_bounded_newest_first_witness :
  (0 < memory_vectors full_memory_solver)%Z
  /\ history_bounded full_memory_solver
  /\ length (history_s full_memory_solver) = 2%nat
  /\ memory_vectors full_memory_solver = 2%Z
  /\ history_s full_after = [[[-1; 0]]; [[1; 0]]]
  /\ history_y full_after = [[[-1 # 2; 0]]; [[1; 0]]]
  /\ history_rho full_after = [2; 1]
  /\ newest_first dot (fst full_before) full_after.
Proof.
  assert (Hm : (0 < memory_vectors full_memory_solver)%Z) by reflexivity.
  assert (Hb : history_bounded full_memory_solver).
  { unfold history_bounded. simpl. repeat split; lia. }
  split; [exact Hm|]. split; [exact Hb|]. split; [reflexivity|].
  split; [reflexivity|].
  split; [reflexivity|]. split; [reflexivity|]. split; [reflexivity|].
  refine (proj2 (proj2 (proj2 (proj2 (proj2 (proj2
           (history_bounded_newest_first dot nat demo_invalidate
              demo_gradient_solve demo_line_search demo_sqrt Qdiv [[]]
              full_memory_solver 0%nat (fst full_entry) (snd full_entry)
              (fst full_before) full_after Hm Hb _ _)))))) _ _).
  - reflexivity.
  - apply (@update_here dot nat demo_invalidate demo_gradient_solve
             demo_line_search demo_sqrt Qdiv [[]]
             (fst full_entry) (snd full_entry)
             (fst full_searched) (snd full_searched)
             (fst full_before) (snd full_before) full_after);
      reflexivity.
  - reflexivity.
  - reflexivity.
Defined.

(** C6.  In a pass of the loop of [run], let [d] be the direction
    [compute_search_direction] returns for the reduced gradient.  If
    [<d, reduced_gradient> > 0], the diagnostic is printed and the line
    search is called with [-reduced_gradient] instead of [d]; if
    [<d, reduced_gradient> <= 0], it is called with [d] itself.  In both
    cases the direction of the call is what [search_directions] holds
    afterwards. *)
Theorem safeguard_before_line_search :
  forall scalar_product (World : Type) line_search_search idx_active
         self (w : World) d self' w',
    compute_search_direction scalar_product self (reduced_gradient self)
                             idx_active = Ok d ->
    search_step scalar_product line_search_search self w idx_active
    = Ok (self', w') ->
    (0 < scalar_product d (reduced_gradient self) ->
     search_directions self' = neg_control (reduced_gradient self)
     /\ trace self' = trace self
                      ++ [Print "No descent direction found";
                          LineSearch (neg_control (reduced_gradient self))]
     /\ line_search_search (neg_control (reduced_gradient self)) w
        = Ok (w', stepsize self', line_search_broken self'))
    /\ (scalar_product d (reduced_gradient self) <= 0 ->
        search_directions self' = d
        /\ trace self' = trace self ++ [LineSearch d]
        /\ line_search_search d w
           = Ok (w', stepsize self', line_search_broken self')).
Proof.
  intros sp World ls idx self w d self' w' Hd H.
  unfold search_step in H. rewrite Hd in H. cbn [bind] in H.
  unfold descent_safeguard in H.
  destruct (gt0 (sp d (reduced_gradient self))) eqn:E.
  - apply bind_Ok in H. destruct H as ([d' printed] & Hs & H).
    apply bind_Ok in Hs. destruct Hs as (d'' & Hneg & Hs).
    injection Hs as -> <-. apply assign_negated_neg in Hneg. subst d'.
    cbn beta iota in H.
    apply bind_Ok in H. destruct H as ([[w1 step] broken] & Hls & H).
    cbn beta iota in H. injection H as <- <-. simpl.
    split.
    + intros _. auto.
    + intros Hle. apply gt0_iff in E. exfalso. exact (Qlt_not_le _ _ E Hle).
  - cbn [bind] in H.
    apply bind_Ok in H. destruct H as ([[w1 step] broken] & Hls & H).
    cbn beta iota in H. injection H as <- <-. simpl.
    split.
    + intros Hpos. apply gt0_iff in Hpos. congruence.
    + intros _. auto.
Qed.

Lemma safeguard_before_line_search_witness :
  compute_search_direction dot pathological_solver [[1; 0]] [[]]
  = Ok [[1; 0]]
  /\ 0 < dot [[1; 0]] [[1; 0]]
  /\ exists self',
      search_step dot demo_line_search pathological_solver 0%nat [[]]
      = Ok (self', 0%nat)
      /\ search_directions self' = [[-1; 0]]
      /\ trace self' = [Print "No descent direction found";
                        LineSearch [[-1; 0]]].
Proof.
  assert (Hd : compute_search_direction dot pathological_solver
                 (reduced_gradient pathological_solver) [[]]
               = Ok [[1; 0]]) by reflexivity.
  split; [exact Hd|]. split; [reflexivity|].
  destruct (search_step dot demo_line_search pathological_solver 0%nat [[]])
    as [[self' w']|e] eqn:E; [|discriminate E].
  assert (Hw : w' = 0%nat).
  { vm_compute in E. injection E as _ <-. reflexivity. }
  subst w'. exists self'. split; [reflexivity|].
  destruct (safeguard_before_line_search dot nat demo_line_search [[]]
              pathological_solver 0%nat [[1; 0]] self' 0%nat Hd E)
    as [Hpos _].
  destruct (Hpos eq_refl) as (Hs & Ht & _).
  split; [exact Hs | exact Ht].
Defined.

(* ===================================================================== *)
(** ** Mesh quality                                                       *)
(* ===================================================================== *)

(** C7 on the code.  [avg_skewness] is, on every mesh, the average of the
    [maximum_angle] kernel, the same value as [avg_maximum_angle]; the
    [skewness] kernel is not consulted.  On the triangle (0,0), (4,0),
    (4,3) the kernels see the angles 36.87, 90 and 53.13 degrees:
    [avg_skewness] answers 3/4, the score of the right angle, while the
    skewness of the cell, decided by the smallest angle, is below 5/8. *)
Theorem avg_skewness_averages_maximum_angle :
  (forall acos sqrt mesh,
      avg_skewness acos sqrt mesh = avg_maximum_angle acos sqrt mesh)
  /\ yields (q <- avg_skewness table_acos table_sqrt triangle_mesh ;; Ok [[q]])
            [[3 # 4]] = true
  /\ (exists s, skewness table_acos table_sqrt triangle_mesh = Ok [s]
                /\ np_average [s] < 5 # 8
                /\ min_skewness table_acos table_sqrt triangle_mesh = Ok s).
Proof.
  split; [reflexivity|]. split; [vm_compute; reflexivity|].
  eexists. split; [vm_compute; reflexivity|].
  split; [vm_compute; reflexivity | vm_compute; reflexivity].
Qed.

(* ===================================================================== *)
(** ** The mesh handler                                                   *)
(* ===================================================================== *)

Lemma fold_left_Qmin_glb :
  forall l a c,
    c <= fold_left Qmin l a <-> c <= a /\ forall d, In d l -> c <= d.
Proof.
  induction l as [|x l IH]; intros a c; simpl.
  - split; [intros H; split; [exact H | intros d []] | tauto].
  - rewrite IH, Q.min_glb_iff. split.
    + intros [[Ha Hx] Hl]. split; [exact Ha|].
      intros d [<-|Hd]; auto.
    + intros [Ha Hl]. repeat split; auto.
Qed.

Lemma fold_left_Qmax_lub :
  forall l a c,
    fold_left Qmax l a <= c <-> a <= c /\ forall d, In d l -> d <= c.
Proof.
  induction l as [|x l IH]; intros a c; simpl.
  - split; [intros H; split; [exact H | intros d []] | tauto].
  - rewrite IH, Q.max_lub_iff. split.
    + intros [[Ha Hx] Hl]. split; [exact Ha|].
      intros d [<-|Hd]; auto.
    + intros [Ha Hl]. repeat split; auto.
Qed.

(** [np.min] and [np.max] bound every entry, and nothing else does
    better. *)
Lemma np_min_glb :
  forall x m c, np_min x = Ok m -> (c <= m <-> forall d, In d x -> c <= d).
Proof.
  intros [|a x] m c H; simpl in H; [discriminate|]. injection H as <-.
  rewrite fold_left_Qmin_glb. split.
  - intros [Ha Hx] d [<-|Hd]; auto.
  - intros Hall. split; [apply Hall; left; reflexivity|].
    intros d Hd. apply Hall. right. exact Hd.
Qed.

Lemma np_max_lub :
  forall x m c, np_max x = Ok m -> (m <= c <-> forall d, In d x -> d <= c).
Proof.
  intros [|a x] m c H; simpl in H; [discriminate|]. injection H as <-.
  rewrite fold_left_Qmax_lub. split.
  - intros [Ha Hx] d [<-|Hd]; auto.
  - intros Hall. split; [apply Hall; left; reflexivity|].
    intros d Hd. apply Hall. right. exact Hd.
Qed.

Section HandlerFacts.

Variable acos : Q -> Q.
Variable sqrt : Q -> Q.
Variable np_divide : Q -> Q -> Q.
Variable radius_ratios : Mesh -> list Q.
Variable condition_solve : Mesh -> list Q.
Variable prior_solve : Mesh -> vec -> list Q * Z.
Variable ALE_move : Mesh -> Transformation -> result (list (list Q)).
Variable compute_entity_collisions : Mesh -> list Q -> list nat.

Local Abbreviation move_mesh' :=
  (move_mesh acos sqrt np_divide radius_ratios condition_solve prior_solve
             ALE_move compute_entity_collisions).
Local Abbreviation compute_mesh_quality' :=
  (compute_mesh_quality acos sqrt np_divide radius_ratios condition_solve).
Local Abbreviation test_a_posteriori' :=
  (test_a_posteriori acos sqrt np_divide radius_ratios condition_solve
                     compute_entity_collisions).

(** The a priori check touches [transformation_container] only. *)
Lemma test_a_priori_frame :
  forall self t verdict self1,
    test_a_priori prior_solve self t = Ok (verdict, self1) ->
    mesh self1 = mesh self
    /\ bbtree self1 = bbtree self
    /\ old_coordinates self1 = old_coordinates self.
Proof.
  intros self t verdict self1 H. unfold test_a_priori in H.
  destruct (volume_change self) as [vc|].
  - destruct (negb _); [discriminate H|].
    cbn [mesh transformation_container set_transformation_container] in H.
    destruct (prior_solve (mesh self) (vector t)) as [x reason].
    destruct (reason <? 0)%Z; [discriminate H|].
    inv_binds H. injection H as _ <-. simpl. auto.
  - injection H as _ <-. auto.
Qed.

(** [compute_mesh_quality] touches [current_mesh_quality] only. *)
Lemma compute_mesh_quality_frame :
  forall self self1,
    compute_mesh_quality' self = Ok self1 ->
    mesh self1 = mesh self /\ old_coordinates self1 = old_coordinates self.
Proof.
  intros self self1 H. unfold compute_mesh_quality in H.
  repeat match type of H with
         | (if ?b then _ else _) = _ => destruct b
         end;
    try (apply bind_Ok in H; destruct H as (q & _ & H));
    injection H as <-; auto.
Qed.

Lemma test_a_posteriori_snapshot :
  forall self verdict self1 c,
    old_coordinates self = Some c ->
    test_a_posteriori' self = Ok (verdict, self1) ->
    old_coordinates self1 = Some c.
Proof.
  intros self verdict self1 c Hc H. unfold test_a_posteriori in H.
  apply bind_Ok in H. destruct H as (found & _ & H). destruct found.
  - unfold revert_transformation in H. rewrite Hc in H. cbn [bind] in H.
    injection H as _ <-. simpl. exact Hc.
  - apply bind_Ok in H. destruct H as (self2 & Hq & H).
    injection H as _ <-.
    destruct (compute_mesh_quality_frame _ _ Hq) as [_ Ho]. congruence.
Qed.

(** What [move_mesh] does once the assertion holds and the a priori check
    has passed. *)
Lemma move_mesh_unfold :
  forall self t verdict self1,
    move_mesh' self t = Ok (verdict, self1) ->
    valid_transformation t = true
    /\ exists feasible self0,
        test_a_priori prior_solve self t = Ok (feasible, self0)
        /\ (feasible = false -> verdict = false /\ self1 = self0)
        /\ (feasible = true ->
            exists moved,
              ALE_move (mesh (set_old_coordinates self0
                                (coordinates (mesh self0)))) t = Ok moved
              /\ test_a_posteriori'
                   (set_coordinates_and_build
                      (set_old_coordinates self0 (coordinates (mesh self0)))
                      moved)
                 = Ok (verdict, self1)).
Proof.
  intros self t verdict self1 H. unfold move_mesh in H.
  destruct (valid_transformation t); [|discriminate H].
  split; [reflexivity|]. cbn [negb] in H.
  apply bind_Ok in H. destruct H as ([feasible self0] & Hp & H).
  cbn beta iota in H. exists feasible, self0. split; [exact Hp|].
  destruct feasible; cbn [negb] in H.
  - split; [discriminate|]. intros _.
    apply bind_Ok in H. destruct H as (moved & Hm & H).
    exists moved. auto.
  - split; [|discriminate]. intros _. injection H as <- <-. auto.
Qed.

End HandlerFacts.

(** C8.  With a finite [volume_change = vc > 1], once the projection solve
    has converged on the cell values [x] of [det(I + grad T)], the a
    priori check accepts if and only if [min(x) >= 1/vc] and
    [max(x) <= vc], that is, if and only if every cell value lies between
    [1/vc] and [vc]; with [volume_change = inf] it always accepts.  When
    the check rejects a transformation that passed the assertion,
    [move_mesh] returns [False] and the mesh, the spatial index and the
    snapshot are those it started with. *)
Theorem a_priori_check_bounds :
  forall acos sqrt np_divide radius_ratios condition_solve prior_solve
         ALE_move compute_entity_collisions self t,
    (forall vc x reason,
        volume_change self = Finite vc ->
        1 < vc ->
        length (transformation_container self) = length (vector t) ->
        prior_solve (mesh self) (vector t) = (x, reason) ->
        (0 <= reason)%Z ->
        x <> [] ->
        exists min_det max_det accepted self1,
          np_min x = Ok min_det /\ np_max x = Ok max_det
          /\ test_a_priori prior_solve self t = Ok (accepted, self1)
          /\ (accepted = true <-> 1 / vc <= min_det /\ max_det <= vc)
          /\ (accepted = true <->
              forall d, In d x -> 1 / vc <= d /\ d <= vc))
    /\ (volume_change self = Infinity ->
        test_a_priori prior_solve self t = Ok (true, self))
    /\ (forall self1,
           valid_transformation t = true ->
           test_a_priori prior_solve self t = Ok (false, self1) ->
           move_mesh acos sqrt np_divide radius_ratios condition_solve
                     prior_solve ALE_move compute_entity_collisions self t
           = Ok (false, self1)
           /\ mesh self1 = mesh self
           /\ bbtree self1 = bbtree self
           /\ old_coordinates self1 = old_coordinates self).
Proof.
  intros acos sqrt np_divide rr cs prior_solve ALE_move coll self t.
  split; [|split].
  - intros vc x reason Hvc Hgt Hlen Hsolve Hreason Hx.
    destruct x as [|a x]; [contradiction|].
    destruct (np_min (a :: x)) as [min_det|] eqn:Emin; [|discriminate Emin].
    destruct (np_max (a :: x)) as [max_det|] eqn:Emax; [|discriminate Emax].
    assert (Hne : ~ vc == 0).
    { intros E. rewrite E in Hgt. discriminate Hgt. }
    exists min_det, max_det,
      (Qle_bool (1 / vc) min_det && Qle_bool max_det vc),
      (set_transformation_container self (vector t)).
    split; [reflexivity|]. split; [reflexivity|]. split.
    + unfold test_a_priori. rewrite Hvc, Hlen, Nat.eqb_refl.
      cbn [negb mesh transformation_container set_transformation_container].
      rewrite Hsolve.
      destruct (reason <? 0)%Z eqn:E; [apply Z.ltb_lt in E; lia|].
      rewrite Emin, Emax. cbn [bind].
      rewrite (pydiv_nonzero _ _ Hne). reflexivity.
    + assert (Hiff : Qle_bool (1 / vc) min_det && Qle_bool max_det vc = true
                     <-> 1 / vc <= min_det /\ max_det <= vc).
      { rewrite andb_true_iff, !Qle_bool_iff. tauto. }
      split; [exact Hiff|]. rewrite Hiff.
      rewrite (np_min_glb _ _ (1 / vc) Emin), (np_max_lub _ _ vc Emax).
      split.
      * intros [Hlo Hhi] d Hd. auto.
      * intros Hall. split; intros d Hd; apply Hall; exact Hd.
  - intros Hvc. unfold test_a_priori. rewrite Hvc. reflexivity.
  - intros self1 Hvalid Hreject.
    unfold move_mesh. rewrite Hvalid, Hreject. cbn [negb bind].
    split; [reflexivity|].
    exact (test_a_priori_frame _ _ _ _ _ Hreject).
Qed.

(** The scenario of C8: with [volume_change = 2], a transformation under
    which one cell has [det(I + grad T) = 3] is rejected, the mesh
    unchanged. *)
Lemma a_priori_check_bounds_witness :
  volume_change interval_handler = Finite 2
  /\ demo_prior_solve (mesh interval_handler) (vector stretching)
     = ([1; 1; 3], 2%Z)
  /\ (exists min_det max_det self1,
         np_min [1; 1; 3] = Ok min_det /\ np_max [1; 1; 3] = Ok max_det
         /\ test_a_priori demo_prior_solve interval_handler stretching
            = Ok (false, self1)
         /\ ~ (1 / 2 <= min_det /\ max_det <= 2))
  /\ (exists self1,
         move_mesh demo_sqrt demo_sqrt Qdiv demo_radius_ratios
                   demo_condition_solve demo_prior_solve demo_ALE_move
                   demo_collisions interval_handler stretching
         = Ok (false, self1)
         /\ mesh self1 = mesh interval_handler).
Proof.
  destruct (a_priori_check_bounds demo_sqrt demo_sqrt Qdiv demo_radius_ratios
              demo_condition_solve demo_prior_solve demo_ALE_move
              demo_collisions interval_handler stretching)
    as (Hfinite & _ & Hreject).
  split; [reflexivity|]. split; [reflexivity|].
  assert (Hgt : 1 < 2) by reflexivity.
  assert (Hreason : (0 <= 2)%Z) by lia.
  assert (Hx : [1; 1; 3] <> ([] : list Q)) by discriminate.
  destruct (Hfinite 2 [1; 1; 3] 2%Z eq_refl Hgt eq_refl eq_refl Hreason Hx)
    as (min_det & max_det & accepted & self1 & Hmin & Hmax & Htest & Hiff & _).
  assert (Hacc : accepted = false).
  { vm_compute in Htest. injection Htest as <- _. reflexivity. }
  subst accepted. split.
  - exists min_det, max_det, self1. repeat split; try assumption.
    intros H. apply Hiff in H. discriminate H.
  - exists self1.
    destruct (Hreject self1 eq_refl Htest) as (Hmove & Hmesh & _).
    split; assumption.
Defined.

(** C9.  For a transformation whose a priori check passes, [move_mesh]
    (whatever the a posteriori check then decides) followed by
    [revert_transformation] leaves the vertex coordinates exactly as they
    were when the snapshot was taken, that is, as [move_mesh] found
    them. *)
Theorem move_then_revert_restores :
  forall acos sqrt np_divide radius_ratios condition_solve prior_solve
         ALE_move compute_entity_collisions self t self0 verdict self1,
    test_a_priori prior_solve self t = Ok (true, self0) ->
    move_mesh acos sqrt np_divide radius_ratios condition_solve prior_solve
              ALE_move compute_entity_collisions self t
    = Ok (verdict, self1) ->
    old_coordinates self1 = Some (coordinates (mesh self))
    /\ exists self2,
        revert_transformation self1 = Ok self2
        /\ coordinates (mesh self2) = coordinates (mesh self)
        /\ coordinates (bbtree self2) = coordinates (mesh self).
Proof.
  intros acos sqrt np_divide rr cs prior_solve ALE_move coll
         self t self0 verdict self1 Hpass Hmove.
  destruct (move_mesh_unfold _ _ _ _ _ _ _ _ _ _ _ _ Hmove)
    as (_ & feasible & self0' & Hp & _ & Hgo).
  rewrite Hpass in Hp. injection Hp as <- <-.
  destruct (Hgo eq_refl) as (moved & _ & Hpost).
  destruct (test_a_priori_frame _ _ _ _ _ Hpass) as (Hmesh & _ & _).
  assert (Hsnap : old_coordinates self1 = Some (coordinates (mesh self))).
  { rewrite <- Hmesh.
    eapply test_a_posteriori_snapshot; [|exact Hpost]. reflexivity. }
  split; [exact Hsnap|].
  unfold revert_transformation. rewrite Hsnap.
  eexists. split; [reflexivity|]. simpl. auto.
Qed.

Lemma move_then_revert_restores_witness :
  test_a_priori demo_prior_solve interval_handler shifting
  = Ok (true, set_transformation_container interval_handler
                [1 # 4; 1 # 4; 1 # 4])
  /\ exists self1 self2,
      move_mesh demo_sqrt demo_sqrt Qdiv demo_radius_ratios
                demo_condition_solve demo_prior_solve demo_ALE_move
                demo_collisions interval_handler shifting
      = Ok (true, self1)
      /\ coordinates (mesh self1) = [[1 # 4]; [5 # 4]; [9 # 4]]
      /\ revert_transformation self1 = Ok self2
      /\ coordinates (mesh self2) = [[0]; [1]; [2]].
Proof.
  assert (Hpass : test_a_priori demo_prior_solve interval_handler shifting
                  = Ok (true, set_transformation_container interval_handler
                                [1 # 4; 1 # 4; 1 # 4])) by reflexivity.
  split; [exact Hpass|].
  destruct (move_mesh demo_sqrt demo_sqrt Qdiv demo_radius_ratios
              demo_condition_solve demo_prior_solve demo_ALE_move
              demo_collisions interval_handler shifting)
    as [[verdict self1]|e] eqn:E; [|discriminate E].
  assert (Hv : verdict = true /\
               coordinates (mesh self1) = [[1 # 4]; [5 # 4]; [9 # 4]]).
  { vm_compute in E. injection E as <- <-. split; reflexivity. }
  destruct Hv as [-> Hc].
  destruct (move_then_revert_restores demo_sqrt demo_sqrt Qdiv
              demo_radius_ratios demo_condition_solve demo_prior_solve
              demo_ALE_move demo_collisions interval_handler shifting
              _ true self1 Hpass E)
    as (_ & self2 & Hrevert & Hcoords & _).
  exists self1, self2. repeat split; assumption.
Defined.




(* ===================================================================== *)
(** ** The search direction is returned on well-shaped data               *)
(* ===================================================================== *)

Lemma active_in_range_shape :
  forall g idx_active d,
    active_in_range g idx_active -> shape d = shape g ->
    active_in_range d idx_active.
Proof.
  unfold active_in_range, shape.
  intros g idx_active d H. revert d.
  induction H as [|v idx g idx_active Hv _ IH]; intros [|w d] Hs;
    simpl in Hs; try discriminate; constructor.
  - injection Hs as Hw _. rewrite Hw. exact Hv.
  - apply IH. injection Hs as _ Hd. exact Hd.
Qed.

Lemma zip_set_active_total :
  forall (f : vec -> vec),
    (forall v, length (f v) = length v) ->
    forall d idx_active,
      active_in_range d idx_active ->
      exists d', zip_exact (fun v idx => set_active (f v) idx) d idx_active
                 = Ok d'
                 /\ shape d' = shape d.
Proof.
  intros f Hf d idx_active H. unfold active_in_range in H.
  induction H as [|v idx d idx_active Hv _ (d' & E & S)]; simpl.
  - exists []. auto.
  - destruct (set_active_in_range idx (f v)) as [v' Ev].
    { rewrite Hf. exact Hv. }
    rewrite Ev, E. simpl. eexists. split; [reflexivity|]. simpl.
    destruct (set_active_nth_error _ _ _ Ev) as [Hl _].
    rewrite Hl, Hf, S. reflexivity.
Qed.

Lemma zero_active_negate_total :
  forall d idx_active,
    active_in_range d idx_active ->
    exists d', zero_active_negate d idx_active = Ok d' /\ shape d' = shape d.
Proof.
  intros d idx_active H. unfold zero_active_negate, active_in_range in *.
  induction H as [|v idx d idx_active Hv _ (d' & E & S)]; simpl.
  - exists []. auto.
  - destruct (set_active_in_range idx v Hv) as [v' Ev].
    rewrite Ev, E. simpl. eexists. split; [reflexivity|]. simpl.
    destruct (set_active_nth_error _ _ _ Ev) as [Hl _].
    rewrite length_map, Hl, S. reflexivity.
Qed.

Lemma vec_zip_total :
  forall f v w,
    length v = length w ->
    exists r, vec_zip f v w = Ok r /\ length r = length v.
Proof.
  intros f. induction v as [|a v IH]; intros [|b w] H; simpl in H;
    try discriminate; simpl.
  - exists []. auto.
  - destruct (IH w) as (r & E & L); [lia|]. rewrite E. simpl.
    eexists. split; [reflexivity|]. simpl. lia.
Qed.

Lemma zip_vec_zip_total :
  forall f d y,
    shape d = shape y ->
    exists d', zip_exact (vec_zip f) d y = Ok d' /\ shape d' = shape d.
Proof.
  intros f. unfold shape.
  induction d as [|v d IH]; intros [|w y] H; simpl in H;
    try discriminate; simpl.
  - exists []. auto.
  - injection H as Hv Hd.
    destruct (vec_zip_total f v w Hv) as (r & E & L).
    destruct (IH y Hd) as (d' & E' & S').
    rewrite E, E'. simpl. eexists. split; [reflexivity|]. simpl.
    rewrite L, S'. reflexivity.
Qed.

Lemma deque_get_front {A} :
  forall (l : list A) i,
    (i < length l)%nat ->
    exists x, deque_get l (Z.of_nat i) = Ok x /\ nth_error l i = Some x.
Proof.
  intros l i H. unfold deque_get.
  destruct (Z.of_nat i <? 0)%Z eqn:E; [apply Z.ltb_lt in E; lia|].
  replace ((Z.of_nat i <? 0)%Z || (Z.of_nat (length l) <=? Z.of_nat i)%Z)
    with false.
  - rewrite Nat2Z.id.
    destruct (nth_error l i) as [x|] eqn:En; [eauto|].
    apply nth_error_None in En. lia.
  - symmetry. apply orb_false_iff. split; [exact E|]. apply Z.leb_gt. lia.
Qed.

Lemma deque_get_back {A} :
  forall (l : list A) i,
    (i < length l)%nat ->
    exists x, deque_get l (-1 - Z.of_nat i) = Ok x
              /\ nth_error l (length l - 1 - i) = Some x.
Proof.
  intros l i H. unfold deque_get.
  destruct (-1 - Z.of_nat i <? 0)%Z eqn:E; [|apply Z.ltb_ge in E; lia].
  set (k := (-1 - Z.of_nat i + Z.of_nat (length l))%Z).
  assert (Hk : k = Z.of_nat (length l - 1 - i)) by (unfold k; lia).
  replace ((k <? 0)%Z || (Z.of_nat (length l) <=? k)%Z) with false.
  - rewrite Hk, Nat2Z.id.
    destruct (nth_error l (length l - 1 - i)) as [x|] eqn:En; [eauto|].
    apply nth_error_None in En. lia.
  - symmetry. apply orb_false_iff. split.
    + apply Z.ltb_ge. lia.
    + apply Z.leb_gt. lia.
Qed.

Lemma Forall_nth_error {A} (P : A -> Prop) :
  forall l i x, Forall P l -> nth_error l i = Some x -> P x.
Proof.
  intros l i x H E. rewrite Forall_forall in H. apply H.
  eapply nth_error_In. exact E.
Qed.

Section Totality.

Variable scalar_product : control -> control -> Q.
Variable self : InnerLBFGS.
Variable grad : control.

Hypothesis aligned_sy : length (history_s self) = length (history_y self).
Hypothesis aligned_yrho : length (history_y self) = length (history_rho self).
Hypothesis shaped_s : Forall (fun s => shape s = shape grad) (history_s self).
Hypothesis shaped_y : Forall (fun y => shape y = shape grad) (history_y self).

Lemma forward_pass_total :
  forall range d history_alpha,
    Forall (fun i => (i < length (history_s self))%nat) range ->
    shape d = shape grad ->
    exists d' history_alpha',
      foldM (forward_step scalar_product self) range (d, history_alpha)
      = Ok (d', history_alpha')
      /\ shape d' = shape grad
      /\ length history_alpha' = (length history_alpha + length range)%nat.
Proof.
  induction range as [|i range IH]; intros d al Hr Hd; simpl.
  - exists d, al. repeat split; auto.
  - inversion Hr as [|? ? Hi Hrest]; subst.
    destruct (deque_get_front (history_rho self) i) as (rho & Er & _); [lia|].
    destruct (deque_get_front (history_s self) i) as (s & Es & _); [lia|].
    destruct (deque_get_front (history_y self) i) as (y & Ey & Ny); [lia|].
    unfold forward_step at 1. rewrite Er, Es, Ey. cbn [bind].
    pose proof (Forall_nth_error _ _ _ _ shaped_y Ny) as Sy.
    destruct (zip_vec_zip_total
                (fun a b => a - rho * scalar_product s d * b) d y)
      as (d1 & E1 & S1); [congruence|].
    unfold sub_scaled. rewrite E1. cbn [bind].
    destruct (IH d1 (al ++ [rho * scalar_product s d]) Hrest)
      as (d' & al' & E & S & L); [congruence|].
    exists d', al'. split; [exact E|]. split; [exact S|].
    rewrite L, length_app. simpl. lia.
Qed.

Lemma backward_pass_total :
  forall history_alpha range d,
    length history_alpha = length (history_s self) ->
    Forall (fun i => (i < length (history_s self))%nat) range ->
    shape d = shape grad ->
    exists d',
      foldM (backward_step scalar_product self history_alpha) range d = Ok d'
      /\ shape d' = shape grad.
Proof.
  intros al. induction range as [|i range IH]; intros d Hal Hr Hd; simpl.
  - exists d. auto.
  - inversion Hr as [|? ? Hi Hrest]; subst.
    destruct (deque_get_back (history_rho self) i) as (rho & Er & _); [lia|].
    destruct (deque_get_back (history_y self) i) as (y & Ey & _); [lia|].
    destruct (deque_get_back (history_s self) i) as (s & Es & Ns); [lia|].
    destruct (deque_get_back al i) as (alpha & Ea & _); [lia|].
    unfold backward_step at 1. rewrite Er, Ey, Es, Ea. cbn [bind].
    pose proof (Forall_nth_error _ _ _ _ shaped_s Ns) as Ss.
    destruct (zip_vec_zip_total
                (fun a b => a + b * (alpha - rho * scalar_product y d)) d s)
      as (d1 & E1 & S1); [congruence|].
    unfold add_scaled. rewrite E1. cbn [bind].
    apply IH; [exact Hal | exact Hrest | congruence].
Qed.

Hypothesis scaling_defined :
  use_bfgs_scaling self && (0 <? iteration self)%Z = true ->
  forall y0, nth_error (history_y self) 0 = Some y0 ->
             ~ scalar_product y0 y0 == 0.

Lemma scaling_factor_total :
  (0 < length (history_s self))%nat ->
  exists factor, scaling_factor scalar_product self = Ok factor.
Proof.
  intros Hn. unfold scaling_factor.
  destruct (use_bfgs_scaling self && (0 <? iteration self)%Z) eqn:E;
    [|eauto].
  destruct (deque_get_front (history_y self) 0) as (y0 & Ey & Ny); [lia|].
  destruct (deque_get_front (history_s self) 0) as (s0 & Es & _); [lia|].
  simpl in Ey, Es. rewrite Ey, Es. cbn [bind].
  rewrite (pydiv_nonzero _ _ (scaling_defined eq_refl y0 Ny)). eauto.
Qed.

(** On well-shaped data the function returns, in both branches, a
    direction of the shape of the gradient. *)
Lemma compute_search_direction_total :
  forall idx_active,
    active_in_range grad idx_active ->
    exists d,
      compute_search_direction scalar_product self grad idx_active = Ok d
      /\ shape d = shape grad.
Proof.
  intros idx Hrange. unfold compute_search_direction.
  destruct ((0 <? memory_vectors self)%Z
            && (0 <? length (history_s self))%nat) eqn:Ebranch.
  - apply andb_true_iff in Ebranch. destruct Ebranch as [_ Hn].
    apply Nat.ltb_lt in Hn.
    unfold two_loop_recursion.
    destruct (zip_set_active_total (fun v => v) (fun v => eq_refl)
                grad idx Hrange) as (d0 & E0 & S0).
    change (assign_zero_active grad idx = Ok d0) in E0.
    rewrite E0. cbn [bind].
    assert (Hseq : Forall (fun i => (i < length (history_s self))%nat)
                          (seq 0 (length (history_s self)))).
    { apply Forall_forall. intros i Hi. apply in_seq in Hi. lia. }
    destruct (forward_pass_total (seq 0 (length (history_s self))) d0 []
                Hseq S0) as (d1 & al & E1 & S1 & L1).
    rewrite E1. cbn [bind].
    destruct (scaling_factor_total Hn) as (factor & Ef).
    rewrite Ef. cbn [bind].
    destruct (zip_set_active_total (map (fun x => x * factor))
                (fun v => length_map _ v) d1 idx
                (active_in_range_shape _ _ _ Hrange S1)) as (d2 & E2 & S2).
    change (scale_zero_active factor d1 idx = Ok d2) in E2.
    rewrite E2. cbn [bind].
    rewrite length_seq in L1. simpl in L1.
    destruct (backward_pass_total al (seq 0 (length (history_s self))) d2
                L1 Hseq) as (d3 & E3 & S3); [congruence|].
    rewrite E3. cbn [bind].
    destruct (zero_active_negate_total d3 idx
                (active_in_range_shape _ _ _ Hrange S3)) as (d & E & S).
    exists d. split; [exact E | congruence].
  - destruct (zip_set_active_total (map Qopp)
                (fun v => length_map _ v) grad idx Hrange) as (d & E & S).
    exists d. split; [exact E | exact S].
Qed.

End Totality.

(* ===================================================================== *)
(** ** More on the search direction and the loop of [run]                 *)
(* ===================================================================== *)

(** X1.  On data of the shapes [run] works with (three deques of equal
    length, every stored [s] and [y] of the shape of the gradient, active
    indices within their component, and a most recent [y] of non-zero norm
    where the scaling factor is computed) [compute_search_direction]
    raises nothing and returns a direction of the shape of the
    gradient. *)
Theorem search_direction_returned_on_well_shaped_data :
  forall scalar_product self grad idx_active,
    length (history_s self) = length (history_y self) ->
    length (history_y self) = length (history_rho self) ->
    Forall (fun s => shape s = shape grad) (history_s self) ->
    Forall (fun y => shape y = shape grad) (history_y self) ->
    (use_bfgs_scaling self && (0 <? iteration self)%Z = true ->
     forall y0, nth_error (history_y self) 0 = Some y0 ->
                ~ scalar_product y0 y0 == 0) ->
    active_in_range grad idx_active ->
    exists d,
      compute_search_direction scalar_product self grad idx_active = Ok d
      /\ shape d = shape grad.
Proof.
  intros sp self grad idx H1 H2 H3 H4 H5 H6.
  exact (compute_search_direction_total sp self grad H1 H2 H3 H4 H5 idx H6).
Qed.

Lemma search_direction_returned_on_well_shaped_data_witness :
  exists d,
    compute_search_direction dot one_pair_solver [[3; 4]] [[1%nat]] = Ok d
    /\ shape d = [2%nat].
Proof.
  apply (search_direction_returned_on_well_shaped_data
           dot one_pair_solver [[3; 4]] [[1%nat]]).
  - reflexivity.
  - reflexivity.
  - repeat constructor.
  - repeat constructor.
  - intros H. discriminate H.
  - repeat constructor.
Defined.

Lemma assign_zero_active_zero :
  forall g idx_active rg,
    assign_zero_active g idx_active = Ok rg -> zero_on_active rg idx_active.
Proof.
  intros g idx_active rg H j idx k Hj Hk.
  destruct (zip_exact_length _ _ _ _ H) as [_ Hlen].
  destruct (nth_error rg j) as [v|] eqn:Ev.
  - exists v. split; [reflexivity|].
    destruct (zip_exact_nth_error _ _ _ _ _ _ H Ev) as (u & idx' & _ & Hi & Hf).
    rewrite Hj in Hi. injection Hi as <-.
    exact (set_active_zero _ _ _ _ Hf Hk).
  - apply nth_error_None in Ev.
    assert (j < length idx_active)%nat by (apply nth_error_Some; congruence).
    lia.
Qed.

Lemma search_direction_zero_on_active :
  forall scalar_product self grad idx_active d,
    compute_search_direction scalar_product self grad idx_active = Ok d ->
    zero_on_active d idx_active.
Proof.
  intros sp self grad idx_active d H j idx k Hj Hk.
  assert (Hlen : length idx_active = length d).
  { unfold compute_search_direction in H. destruct (_ && _).
    - inv_bind H. apply zip_exact_length in H. tauto.
    - apply zip_exact_length in H. tauto. }
  destruct (nth_error d j) as [v|] eqn:Ev.
  - exists v. split; [reflexivity|].
    unfold compute_search_direction in H. destruct (_ && _).
    + inv_bind H.
      destruct (zip_exact_nth_error _ _ _ _ _ _ H Ev)
        as (u & idx' & _ & Hi & Hf).
      rewrite Hj in Hi. injection Hi as <-.
      inv_bind Hf. injection Hf as <-.
      rewrite nth_error_map, (set_active_zero _ _ _ _ Ha0 Hk). reflexivity.
    + destruct (zip_exact_nth_error _ _ _ _ _ _ H Ev)
        as (u & idx' & _ & Hi & Hf).
      rewrite Hj in Hi. injection Hi as <-.
      exact (set_active_zero _ _ _ _ Hf Hk).
  - apply nth_error_None in Ev.
    assert (j < length idx_active)%nat by (apply nth_error_Some; congruence).
    lia.
Qed.

Lemma neg_control_zero_on_active :
  forall g idx_active,
    zero_on_active g idx_active -> zero_on_active (neg_control g) idx_active.
Proof.
  intros g idx_active H j idx k Hj Hk.
  destruct (H j idx k Hj Hk) as (v & Ev & Ek).
  exists (map Qopp v). unfold neg_control. split.
  - rewrite nth_error_map. unfold vec in *. rewrite Ev. reflexivity.
  - rewrite nth_error_map. unfold vec in *. rewrite Ek. reflexivity.
Qed.

Section PassFacts.

Variable scalar_product : control -> control -> Q.
Variable World : Type.
Variable invalidate : problem -> World -> World.
Variable gradient_problem_solve : World -> result (World * control).
Variable line_search_search : control -> World -> result (World * Q * bool).
Variable np_sqrt : Q -> Q.
Variable np_divide : Q -> Q -> Q.
Variable idx_active : list (list nat).

Local Abbreviation setup :=
  (run_setup scalar_product invalidate gradient_problem_solve np_sqrt).
Local Abbreviation pass :=
  (iteration_body scalar_product invalidate gradient_problem_solve
                  line_search_search np_sqrt np_divide).
Local Abbreviation entry :=
  (loop_entry scalar_product invalidate gradient_problem_solve
              line_search_search np_sqrt np_divide idx_active).
Local Abbreviation loop :=
  (while_loop scalar_product invalidate gradient_problem_solve
              line_search_search np_sqrt np_divide).

Lemma run_setup_reduced_gradient :
  forall self w self0 w0,
    setup self w idx_active = Ok (self0, w0) ->
    zero_on_active (reduced_gradient self0) idx_active
    /\ soft_exit self0 = soft_exit self.
Proof.
  intros self w self0 w0 H. unfold run_setup in H.
  apply bind_Ok in H. destruct H as ([w1 gradients] & _ & H).
  cbn beta iota in H.
  apply bind_Ok in H. destruct H as (rg & Hrg & H).
  injection H as <- _. simpl. split; [|reflexivity].
  exact (assign_zero_active_zero _ _ _ Hrg).
Qed.

Lemma gradient_step_reduced_gradient :
  forall self w self' w',
    gradient_step scalar_product invalidate gradient_problem_solve np_sqrt
                  np_divide self w idx_active = Ok (self', w') ->
    zero_on_active (reduced_gradient self') idx_active
    /\ soft_exit self' = soft_exit self.
Proof.
  intros self w self' w' H. unfold gradient_step in H.
  apply bind_Ok in H. destruct H as ([w1 gradients] & _ & H).
  cbn beta iota in H.
  apply bind_Ok in H. destruct H as (rg & Hrg & H).
  injection H as <- _. simpl. split; [|reflexivity].
  exact (assign_zero_active_zero _ _ _ Hrg).
Qed.

Lemma search_step_frame :
  forall self w self' w',
    search_step scalar_product line_search_search self w idx_active
    = Ok (self', w') ->
    reduced_gradient self' = reduced_gradient self
    /\ soft_exit self' = soft_exit self.
Proof.
  intros self w self' w' H. unfold search_step in H. inv_binds H.
  injection H as <- _. simpl. auto.
Qed.

Lemma update_history_frame :
  forall self self',
    update_history scalar_product self = Ok self' ->
    reduced_gradient self' = reduced_gradient self
    /\ soft_exit self' = soft_exit self.
Proof.
  intros self self' H. unfold update_history in H.
  destruct (0 <? memory_vectors self)%Z.
  - inv_binds H. injection H as <-. simpl. auto.
  - injection H as <-. auto.
Qed.

Lemma finish_iteration_frame :
  forall self self' stop,
    finish_iteration self = Ok (self', stop) ->
    reduced_gradient self' = reduced_gradient self
    /\ soft_exit self' = soft_exit self
    /\ (stop = true -> soft_exit self = true).
Proof.
  intros self self' stop H. unfold finish_iteration in H. cbn in H.
  destruct (maximum_iterations self <=? iteration self + 1)%Z.
  - destruct (soft_exit self) eqn:E; [|discriminate H].
    injection H as <- <-. simpl. auto.
  - injection H as <- <-. simpl. repeat split; auto. discriminate.
Qed.

(** Every pass hands on a reduced gradient that vanishes on the active
    set, and the flag [soft_exit]; it leaves by [break] only when that
    flag is set. *)
Lemma iteration_body_frame :
  forall self w self' w' stop,
    zero_on_active (reduced_gradient self) idx_active ->
    pass self w idx_active = Ok (self', w', stop) ->
    zero_on_active (reduced_gradient self') idx_active
    /\ soft_exit self' = soft_exit self
    /\ (stop = true -> soft_exit self = true).
Proof.
  intros self w self' w' stop Hz H. unfold iteration_body in H.
  apply bind_Ok in H. destruct H as ([self1 w1] & H1 & H).
  cbn beta iota in H.
  destruct (search_step_frame _ _ _ _ H1) as (R1 & S1).
  destruct (line_search_broken self1).
  - destruct (soft_exit self1) eqn:E; [|discriminate H].
    injection H as <- _ _. simpl. rewrite R1.
    repeat split; auto; congruence.
  - apply bind_Ok in H. destruct H as ([before w2] & H2 & H).
    cbn beta iota in H.
    apply bind_Ok in H. destruct H as (after & H3 & H).
    apply bind_Ok in H. destruct H as ([self2 stop'] & H4 & H).
    cbn beta iota in H. injection H as <- _ <-.
    destruct (gradient_step_reduced_gradient _ _ _ _ H2) as (Z2 & S2).
    destruct (update_history_frame _ _ H3) as (R3 & S3).
    destruct (finish_iteration_frame _ _ _ H4) as (R4 & S4 & B4).
    split; [rewrite R4, R3; exact Z2|].
    split; [congruence|]. intros Hs. specialize (B4 Hs). congruence.
Qed.

Lemma loop_entry_frame :
  forall self0 w0 self w,
    entry self0 w0 self w ->
    zero_on_active (reduced_gradient self0) idx_active ->
    zero_on_active (reduced_gradient self) idx_active.
Proof.
  induction 1 as [|self w self' w' _ IH _ Hbody]; intros Hz; [exact Hz|].
  exact (proj1 (iteration_body_frame _ _ _ _ _ (IH Hz) Hbody)).
Qed.

(** What [search_step] hands to the line search: the last event of the
    trace is the call, and its direction is what [search_directions]
    holds. *)
Lemma search_step_direction :
  forall self w self' w',
    search_step scalar_product line_search_search self w idx_active
    = Ok (self', w') ->
    (exists events,
        trace self' = events ++ [LineSearch (search_directions self')])
    /\ exists d,
        compute_search_direction scalar_product self (reduced_gradient self)
                                 idx_active = Ok d
        /\ ((gt0 (scalar_product d (reduced_gradient self)) = true
             /\ search_directions self' = neg_control (reduced_gradient self))
            \/ (gt0 (scalar_product d (reduced_gradient self)) = false
                /\ search_directions self' = d)).
Proof.
  intros self w self' w' H. unfold search_step in H.
  apply bind_Ok in H. destruct H as (d & Hd & H).
  apply bind_Ok in H. destruct H as ([d' printed] & Hs & H).
  cbn beta iota in H.
  apply bind_Ok in H. destruct H as ([[w1 step] broken] & _ & H).
  cbn beta iota in H. injection H as <- _. simpl. split.
  - exists (trace self ++ printed). rewrite app_assoc. reflexivity.
  - exists d. split; [exact Hd|]. unfold descent_safeguard in Hs.
    destruct (gt0 (scalar_product d (reduced_gradient self))).
    + left. apply bind_Ok in Hs. destruct Hs as (d'' & Hn & Hs).
      injection Hs as <- _. apply assign_negated_neg in Hn. auto.
    + right. injection Hs as <- _. auto.
Qed.

(** The loop returns normally either with the stopping rule satisfied or,
    under [soft_exit], by [break]; its iteration counter stays within the
    limit. *)
Lemma while_loop_exit :
  forall fuel self w self' w',
    zero_on_active (reduced_gradient self) idx_active ->
    (0 <= iteration self < Z.max 1 (maximum_iterations self))%Z ->
    loop fuel self w idx_active = Some (Ok (self', w')) ->
    (converged np_divide self' = true \/ soft_exit self = true)
    /\ (0 <= iteration self' <= Z.max 1 (maximum_iterations self))%Z.
Proof.
  induction fuel as [|fuel IH]; intros self w self' w' Hz Hit H; simpl in H.
  - destruct (converged np_divide self) eqn:Ec; [|discriminate H].
    injection H as <- _. split; [auto | lia].
  - destruct (converged np_divide self) eqn:Ec.
    + injection H as <- _. split; [auto | lia].
    + destruct (pass self w idx_active) as [[[self1 w1] stop]|e] eqn:E;
        [|discriminate H].
      destruct (iteration_body_frame _ _ _ _ _ Hz E) as (Z1 & S1 & B1).
      destruct stop.
      * injection H as <- _. split; [right; auto|].
        unfold iteration_body in E.
        apply bind_Ok in E. destruct E as ([self2 w2] & H1 & E).
        cbn beta iota in E.
        destruct (search_step_memory _ _ _ _ _ _ _ _ H1) as (_ & _ & I1 & X1).
        destruct (line_search_broken self2).
        -- destruct (soft_exit self2); [|discriminate E].
           injection E as <- _. simpl. lia.
        -- apply bind_Ok in E. destruct E as ([before w3] & H2 & E).
           cbn beta iota in E.
           apply bind_Ok in E. destruct E as (after & H3 & E).
           apply bind_Ok in E. destruct E as ([self3 stop'] & H4 & E).
           cbn beta iota in E. injection E as <- _ _.
           destruct (gradient_step_memory _ _ _ _ _ _ _ _ _ _ _ H2)
             as (_ & _ & I2 & X2).
           destruct (update_history_counters _ _ _ H3) as (_ & I3 & X3).
           destruct (finish_iteration_memory _ _ _ H4) as (_ & _ & I4 & X4 & _).
           lia.
      * destruct (iteration_body_continues _ _ _ _ _ _ _ _ _ _ _ _ E)
          as (self2 & w2 & before & after & H1 & _ & H2 & H3 & H4).
        destruct (search_step_memory _ _ _ _ _ _ _ _ H1) as (_ & _ & I1 & X1).
        destruct (gradient_step_memory _ _ _ _ _ _ _ _ _ _ _ H2)
          as (_ & _ & I2 & X2).
        destruct (update_history_counters _ _ _ H3) as (_ & I3 & X3).
        destruct (finish_iteration_memory _ _ _ H4)
          as (_ & _ & I4 & X4 & Hlt).
        specialize (Hlt eq_refl).
        destruct (IH self1 w1 self' w' Z1) as (Hc & Hi); [lia | exact H |].
        split; [destruct Hc; [auto | right; congruence] | lia].
Qed.

End PassFacts.

(** X2.  [run] always leaves its loop: the fuel of the model is never
    used up, whatever the collaborators answer.  When [run] returns
    normally, the iteration counter lies between 0 and
    [max(1, maximum_iterations)]. *)
Theorem run_iteration_counter_bounded :
  forall scalar_product (World : Type) invalidate gradient_problem_solve
         line_search_search np_sqrt np_divide idx_active self (w : World),
    run scalar_product invalidate gradient_problem_solve line_search_search
        np_sqrt np_divide self w idx_active <> None
    /\ forall self' w',
      run scalar_product invalidate gradient_problem_solve line_search_search
          np_sqrt np_divide self w idx_active = Some (Ok (self', w')) ->
      (0 <= iteration self' <= Z.max 1 (maximum_iterations self))%Z.
Proof.
  intros sp World inval solve ls np_sqrt np_divide idx self w.
  split; [apply run_terminates|].
  intros self' w' H. unfold run in H.
  destruct (run_setup sp inval solve np_sqrt self w idx)
    as [[self0 w0]|e] eqn:E; [|discriminate H].
  destruct (run_setup_memory _ _ _ _ _ _ _ _ _ _ E) as (_ & _ & I & X).
  edestruct run_setup_reduced_gradient as (Hz & _); [exact E|].
  edestruct while_loop_exit as (_ & Hb); [exact Hz | | exact H |].
  - rewrite I. lia.
  - rewrite <- X. exact Hb.
Qed.

Lemma run_iteration_counter_bounded_witness :
  exists self' w',
    run dot demo_invalidate demo_gradient_solve demo_line_search demo_sqrt
        Qdiv soft_exit_solver 0%nat [[]] = Some (Ok (self', w'))
    /\ iteration self' = 2%Z
    /\ (0 <= iteration self' <= Z.max 1 (maximum_iterations soft_exit_solver))%Z.
Proof.
  destruct (run dot demo_invalidate demo_gradient_solve demo_line_search
                demo_sqrt Qdiv soft_exit_solver 0%nat [[]])
    as [[[self' w']|e]|] eqn:E;
    [| vm_compute in E; discriminate E | vm_compute in E; discriminate E ].
  exists self', w'. split; [reflexivity|]. split.
  - vm_compute in E. injection E as <- _. reflexivity.
  - exact (proj2 (run_iteration_counter_bounded dot nat demo_invalidate
                    demo_gradient_solve demo_line_search demo_sqrt Qdiv [[]]
                    soft_exit_solver 0%nat) self' w' E).
Defined.





(** X5.  Whenever the scalar product of [-reduced_gradient] with
    [reduced_gradient] is not positive, the direction handed to the line
    search is no ascent direction: its scalar product with the reduced
    gradient is at most [0]. *)
Theorem line_search_direction_not_ascent :
  forall scalar_product (World : Type) line_search_search idx_active
         self (w : World) self' w',
    scalar_product (neg_control (reduced_gradient self))
                   (reduced_gradient self) <= 0 ->
    search_step scalar_product line_search_search self w idx_active
    = Ok (self', w') ->
    scalar_product (search_directions self') (reduced_gradient self) <= 0.
Proof.
  intros sp World ls idx self w self' w' Hneg Hstep.
  edestruct search_step_direction as (_ & d & _ & [[_ Hsd] | [Hgt Hsd]]);
    [exact Hstep | |]; rewrite Hsd; [exact Hneg|].
  apply Qnot_lt_le. intros Hpos. apply gt0_iff in Hpos. congruence.
Qed.

Lemma line_search_direction_not_ascent_witness :
  dot (neg_control (reduced_gradient pathological_solver))
      (reduced_gradient pathological_solver) <= 0
  /\ exists self',
      search_step dot demo_line_search pathological_solver 0%nat [[]]
      = Ok (self', 0%nat)
      /\ dot (search_directions self') (reduced_gradient pathological_solver)
         <= 0.
Proof.
  assert (Hneg : dot (neg_control (reduced_gradient pathological_solver))
                     (reduced_gradient pathological_solver) <= 0)
    by (vm_compute; discriminate).
  split; [exact Hneg|].
  destruct (search_step dot demo_line_search pathological_solver 0%nat [[]])
    as [[self' w']|e] eqn:E; [|vm_compute in E; discriminate E].
  assert (Hw : w' = 0%nat).
  { pose proof E as E'. vm_compute in E'. injection E' as _ <-. reflexivity. }
  subst w'. exists self'. split; [reflexivity|].
  exact (line_search_direction_not_ascent dot nat demo_line_search [[]]
           pathological_solver 0%nat self' 0%nat Hneg E).
Defined.

(** X6.  On aligned deques within the bound, a history update that
    completes has a curvature [c = <y,s>] other than [0].  It leaves the
    three deques empty, the earlier pairs included, when the test
    [1/rho <= 0] of line 148 holds for the float [rho = 1/c]: for [c < 0],
    and for a [c > 0] so small that [1/c] is an infinity (a double up to
    [2^-1024]), where [1/rho] is [0.0].  For every other [c > 0] it leaves
    the new pair at index 0 in front of the earlier ones, without the
    oldest when the deques were full.  In all cases the deques stay
    aligned and within the bound. *)
Theorem history_update_by_curvature :
  forall scalar_product self self',
    (0 < memory_vectors self)%Z ->
    history_bounded self ->
    update_history scalar_product self = Ok self' ->
    let c := scalar_product (storage_y self') (storage_s self') in
    history_bounded self'
    /\ ~ c == 0
    /\ ((c < 0 \/ overflow_threshold <= Qabs (1 / c)) ->
        history_cleared self')
    /\ (0 < c -> Qabs (1 / c) < overflow_threshold ->
        newest_first scalar_product self self').
Proof.
  intros sp self self' Hm Hb H.
  destruct (update_history_spec sp self self' Hm Hb H)
    as (_ & B & Hc & Hcases).
  cbv zeta. split; [exact B|]. split; [exact Hc|]. split.
  - intros Hclear.
    destruct Hcases as [[_ Hcleared] | (Hpos & Hfinite & _)];
      [exact Hcleared|].
    exfalso. destruct Hclear as [Hneg | Hover].
    + exact (Qlt_irrefl _ (Qlt_trans _ _ _ Hpos Hneg)).
    + exact (Qlt_not_le _ _ Hfinite Hover).
  - intros Hpos Hfinite.
    destruct Hcases as [[[Hneg | Hover] _] | (_ & _ & Hnew)];
      [exfalso | exfalso | exact Hnew].
    + exact (Qlt_irrefl _ (Qlt_trans _ _ _ Hpos Hneg)).
    + exact (Qlt_not_le _ _ Hfinite Hover).
Qed.

Lemma history_update_by_curvature_witness :
  (exists self',
      update_history dot negative_curvature_solver = Ok self'
      /\ length (history_s negative_curvature_solver) = 1%nat
      /\ dot (storage_y self') (storage_s self') < 0
      /\ history_cleared self')
  /\ (exists self',
        update_history dot subnormal_curvature_solver = Ok self'
        /\ length (history_s subnormal_curvature_solver) = 1%nat
        /\ 0 < dot (storage_y self') (storage_s self')
        /\ history_cleared self')
  /\ (exists self',
        update_history dot (fst full_before) = Ok self'
        /\ length (history_s (fst full_before)) = 2%nat
        /\ history_s self' = [[[-1; 0]]; [[1; 0]]]
        /\ newest_first dot (fst full_before) self').
Proof.
  assert (Hb1 : history_bounded negative_curvature_solver).
  { unfold history_bounded. simpl. repeat split; lia. }
  assert (Hb2 : history_bounded subnormal_curvature_solver).
  { unfold history_bounded. simpl. repeat split; lia. }
  assert (Hb3 : history_bounded (fst full_before)).
  { unfold history_bounded. simpl. repeat split; lia. }
  split; [|split].
  - destruct (update_history dot negative_curvature_solver)
      as [self'|e] eqn:E; [|vm_compute in E; discriminate E].
    assert (Hc : dot (storage_y self') (storage_s self') < 0).
    { pose proof E as E'. vm_compute in E'. injection E' as <-.
      vm_compute. reflexivity. }
    exists self'. split; [reflexivity|]. split; [reflexivity|].
    split; [exact Hc|].
    destruct (history_update_by_curvature dot negative_curvature_solver
                self' eq_refl Hb1 E) as (_ & _ & Hclear & _).
    apply Hclear. left. exact Hc.
  - destruct (update_history dot subnormal_curvature_solver)
      as [self'|e] eqn:E; [|vm_compute in E; discriminate E].
    assert (Hc : 0 < dot (storage_y self') (storage_s self')
                 /\ overflow_threshold
                    <= Qabs (1 / dot (storage_y self') (storage_s self'))).
    { pose proof E as E'. vm_compute in E'. injection E' as <-.
      split; [vm_compute; reflexivity | vm_compute; discriminate]. }
    exists self'. split; [reflexivity|]. split; [reflexivity|].
    split; [exact (proj1 Hc)|].
    destruct (history_update_by_curvature dot subnormal_curvature_solver
                self' eq_refl Hb2 E) as (_ & _ & Hclear & _).
    apply Hclear. right. exact (proj2 Hc).
  - destruct (update_history dot (fst full_before))
      as [self'|e] eqn:E; [|vm_compute in E; discriminate E].
    assert (Hc : 0 < dot (storage_y self') (storage_s self')
                 /\ Qabs (1 / dot (storage_y self') (storage_s self'))
                    < overflow_threshold).
    { pose proof E as E'. vm_compute in E'. injection E' as <-.
      split; vm_compute; reflexivity. }
    exists self'. split; [reflexivity|]. split; [reflexivity|]. split.
    + pose proof E as E'. vm_compute in E'. injection E' as <-.
      reflexivity.
    + destruct (history_update_by_curvature dot (fst full_before)
                  self' eq_refl Hb3 E) as (_ & _ & _ & Hnew).
      exact (Hnew (proj1 Hc) (proj2 Hc)).
Defined.

Lemma while_loop_keeps_memory_vectors :
  forall scalar_product (World : Type) invalidate gradient_problem_solve
         line_search_search np_sqrt np_divide idx_active fuel
         self (w : World) self' w',
    (0 < memory_vectors self)%Z ->
    history_bounded self ->
    while_loop scalar_product invalidate gradient_problem_solve
               line_search_search np_sqrt np_divide fuel self w idx_active
    = Some (Ok (self', w')) ->
    memory_vectors self' = memory_vectors self.
Proof.
  intros sp World inval solve ls np_sqrt np_divide idx.
  induction fuel as [|fuel IH]; intros self w self' w' Hm Hb H; simpl in H.
  - destruct (converged np_divide self); [|discriminate H].
    injection H as <- _. reflexivity.
  - destruct (converged np_divide self).
    + injection H as <- _. reflexivity.
    + destruct (iteration_body sp inval solve ls np_sqrt np_divide self w idx)
        as [[[self1 w1] stop]|e] eqn:E; [|discriminate H].
      edestruct iteration_body_keeps_bound as [M B];
        [exact Hm | exact Hb | exact E |].
      destruct stop.
      * injection H as <- _. exact M.
      * rewrite <- M. apply (IH self1 w1 self' w'); [lia | exact B | exact H].
Qed.

(** X7.  [run] hands the L-BFGS memory on in the state it requires: from
    aligned deques of at most [memory_vectors] entries, every normal
    return, by convergence or by [break], leaves the three deques aligned
    and within the bound. *)
Theorem run_returns_bounded_history :
  forall scalar_product (World : Type) invalidate gradient_problem_solve
         line_search_search np_sqrt np_divide idx_active self (w : World)
         self' w',
    (0 < memory_vectors self)%Z ->
    history_bounded self ->
    run scalar_product invalidate gradient_problem_solve line_search_search
        np_sqrt np_divide self w idx_active = Some (Ok (self', w')) ->
    length (history_s self') = length (history_y self')
    /\ length (history_y self') = length (history_rho self')
    /\ (Z.of_nat (length (history_s self')) <= memory_vectors self)%Z.
Proof.
  intros sp World inval solve ls np_sqrt np_divide idx self w self' w'
         Hm Hb H.
  assert (B : history_bounded self')
    by (eapply run_keeps_bound; [exact Hm | exact Hb | exact H]).
  destruct B as (L1 & L2 & L3).
  assert (M : memory_vectors self' = memory_vectors self).
  { unfold run in H.
    destruct (run_setup sp inval solve np_sqrt self w idx)
      as [[self0 w0]|e] eqn:E; [|discriminate H].
    destruct (run_setup_memory _ _ _ _ _ _ _ _ _ _ E) as (M0 & B0 & _).
    rewrite <- M0.
    eapply while_loop_keeps_memory_vectors; [| exact (B0 Hb) | exact H].
    lia. }
  split; [exact L1|]. split; [exact L2|]. rewrite <- M. exact L3.
Qed.

Lemma run_returns_bounded_history_witness :
  (0 < memory_vectors soft_exit_solver)%Z
  /\ history_bounded soft_exit_solver
  /\ exists self' w',
      run dot demo_invalidate demo_gradient_solve demo_line_search demo_sqrt
          Qdiv soft_exit_solver 0%nat [[]] = Some (Ok (self', w'))
      /\ length (history_s self') = 2%nat
      /\ (Z.of_nat (length (history_s self'))
          <= memory_vectors soft_exit_solver)%Z.
Proof.
  assert (Hm : (0 < memory_vectors soft_exit_solver)%Z) by reflexivity.
  assert (Hb : history_bounded soft_exit_solver).
  { unfold history_bounded. simpl. repeat split; lia. }
  split; [exact Hm|]. split; [exact Hb|].
  destruct (run dot demo_invalidate demo_gradient_solve demo_line_search
                demo_sqrt Qdiv soft_exit_solver 0%nat [[]])
    as [[[self' w']|e]|] eqn:E;
    [| vm_compute in E; discriminate E | vm_compute in E; discriminate E ].
  exists self', w'. split; [reflexivity|]. split.
  - vm_compute in E. injection E as <- _. reflexivity.
  - exact (proj2 (proj2 (run_returns_bounded_history dot nat demo_invalidate
                    demo_gradient_solve demo_line_search demo_sqrt Qdiv [[]]
                    soft_exit_solver 0%nat self' w' Hm Hb E))).
Defined.

(* ===================================================================== *)
(** ** More on the mesh quality kernels                                   *)
(* ===================================================================== *)

Lemma fold_left_Qmin_le_first :
  forall l a, fold_left Qmin l a <= a.
Proof.
  intros l a.
  exact (proj1 (proj1 (fold_left_Qmin_glb l a (fold_left Qmin l a))
                      (Qle_refl _))).
Qed.

Lemma min_element_in_unit_interval :
  forall quals,
    Forall (fun s => 0 <= s /\ s <= 1) quals ->
    0 <= min_element quals /\ min_element quals <= 1.
Proof.
  intros [|q quals] H; simpl.
  - split; [apply Qle_refl | discriminate].
  - inversion H as [|? ? [Hq0 Hq1] Hrest]; subst. split.
    + apply fold_left_Qmin_glb. split; [exact Hq0|].
      intros d Hd. rewrite Forall_forall in Hrest. apply (Hrest d Hd).
    + apply Qle_trans with q; [apply fold_left_Qmin_le_first | exact Hq1].
Qed.

Lemma min_element_monotone :
  forall (f g : Q -> Q) angs,
    (forall a, In a angs -> f a <= g a) ->
    min_element (map f angs) <= min_element (map g angs).
Proof.
  intros f g [|a angs] H; simpl; [apply Qle_refl|].
  apply fold_left_Qmin_glb. split.
  - apply Qle_trans with (f a); [apply fold_left_Qmin_le_first|].
    apply H. left. reflexivity.
  - intros d Hd. apply in_map_iff in Hd. destruct Hd as (x & <- & Hx).
    apply Qle_trans with (f x); [|apply H; right; exact Hx].
    apply (proj2 (proj1 (fold_left_Qmin_glb (map f angs) (f a)
                           (fold_left Qmin (map f angs) (f a)))
                        (Qle_refl _))).
    apply in_map. exact Hx.
Qed.

Lemma first_ratio_at_most_one :
  forall opt a,
    opt < DOLFIN_PI -> a <= DOLFIN_PI ->
    (a - opt) / (DOLFIN_PI - opt) <= 1.
Proof.
  intros opt a Hopt Ha. apply Qle_shift_div_r; lra.
Qed.

Lemma nonnegative_maximum :
  forall opt a,
    0 < opt -> opt < DOLFIN_PI ->
    0 <= Qmax ((a - opt) / (DOLFIN_PI - opt)) ((opt - a) / opt).
Proof.
  intros opt a H0 Hopt. apply Q.max_le_iff.
  destruct (Qlt_le_dec a opt) as [Hlt | Hge].
  - right. apply Qle_shift_div_l; lra.
  - left. apply Qle_shift_div_l; lra.
Qed.

Lemma skewness_angle_in_unit_interval :
  forall opt a,
    0 < opt -> opt < DOLFIN_PI -> 0 <= a -> a <= DOLFIN_PI ->
    0 <= skewness_angle opt a /\ skewness_angle opt a <= 1.
Proof.
  intros opt a H0 Hopt Ha0 Ha. unfold skewness_angle.
  pose proof (nonnegative_maximum opt a H0 Hopt) as Hlow.
  assert (Hup : Qmax ((a - opt) / (DOLFIN_PI - opt)) ((opt - a) / opt) <= 1).
  { apply Q.max_lub; [apply first_ratio_at_most_one; assumption|].
    apply Qle_shift_div_r; lra. }
  set (m := Qmax _ _) in *. split; lra.
Qed.

Lemma maximum_angle_angle_in_unit_interval :
  forall opt a,
    opt < DOLFIN_PI -> a <= DOLFIN_PI ->
    0 <= maximum_angle_angle opt a /\ maximum_angle_angle opt a <= 1.
Proof.
  intros opt a Hopt Ha. unfold maximum_angle_angle.
  pose proof (Q.le_max_r ((a - opt) / (DOLFIN_PI - opt)) 0) as Hlow.
  assert (Hup : Qmax ((a - opt) / (DOLFIN_PI - opt)) 0 <= 1).
  { apply Q.max_lub; [apply first_ratio_at_most_one; assumption|].
    discriminate. }
  set (m := Qmax _ _) in *. split; lra.
Qed.

Lemma skewness_angle_le_maximum_angle_angle :
  forall opt a,
    0 < opt -> opt < DOLFIN_PI ->
    skewness_angle opt a <= maximum_angle_angle opt a.
Proof.
  intros opt a H0 Hopt. unfold skewness_angle, maximum_angle_angle.
  assert (H : Qmax ((a - opt) / (DOLFIN_PI - opt)) 0
              <= Qmax ((a - opt) / (DOLFIN_PI - opt)) ((opt - a) / opt)).
  { apply Q.max_lub; [apply Q.le_max_l|].
    apply nonnegative_maximum; assumption. }
  set (m := Qmax _ 0) in *. set (m' := Qmax _ _) in *. lra.
Qed.

Lemma optimal_angles_in_range :
  0 < DOLFIN_PI / 3 /\ DOLFIN_PI / 3 < DOLFIN_PI
  /\ 0 < acos_one_third /\ acos_one_third < DOLFIN_PI.
Proof. repeat split; reflexivity. Qed.

Section KernelFacts.

Variable acos : Q -> Q.
Variable sqrt : Q -> Q.

Lemma cell_angles_optimal :
  forall mesh cell angs opt,
    cell_angles acos sqrt mesh cell = Ok (angs, opt) ->
    0 < opt /\ opt < DOLFIN_PI
    /\ forall a, In a angs -> exists x, a = acos x.
Proof.
  intros mesh cell angs opt H. unfold cell_angles in H.
  destruct optimal_angles_in_range as (P1 & P2 & P3 & P4).
  destruct (tdim mesh) as [|[|[|[|n]]]]; try discriminate H;
    injection H as <- <-; (split; [assumption|]); (split; [assumption|]);
    intros a Ha; simpl in Ha;
    repeat (destruct Ha as [<-|Ha]; [eexists; reflexivity|]);
    destruct Ha.
Qed.

Lemma for_cells_Forall (P : Q -> Prop) (score : Q -> Q -> Q) :
  (forall mesh cell angs opt,
      cell_angles acos sqrt mesh cell = Ok (angs, opt) ->
      P (min_element (map (score opt) angs))) ->
  forall mesh cs q,
    for_cells acos sqrt score mesh cs = Ok q -> Forall P q.
Proof.
  intros HP mesh. induction cs as [|cell cs IH]; intros q H; simpl in H.
  - injection H as <-. constructor.
  - apply bind_Ok in H. destruct H as ([angs opt] & Hc & H).
    cbn beta iota in H.
    apply bind_Ok in H. destruct H as (rest & Hr & H).
    injection H as <-. constructor; [exact (HP _ _ _ _ Hc) | exact (IH _ Hr)].
Qed.

Lemma for_cells_pointwise (f g : Q -> Q -> Q) :
  (forall opt a, 0 < opt -> opt < DOLFIN_PI -> f opt a <= g opt a) ->
  forall mesh cs qf qg,
    for_cells acos sqrt f mesh cs = Ok qf ->
    for_cells acos sqrt g mesh cs = Ok qg ->
    Forall2 Qle qf qg.
Proof.
  intros Hfg mesh. induction cs as [|cell cs IH]; intros qf qg Hf Hg;
    simpl in Hf, Hg.
  - injection Hf as <-. injection Hg as <-. constructor.
  - apply bind_Ok in Hf. destruct Hf as ([angs opt] & Hc & Hf).
    rewrite Hc in Hg. cbn [bind] in Hg. cbn beta iota in Hf, Hg.
    apply bind_Ok in Hf. destruct Hf as (rf & Hrf & Hf).
    apply bind_Ok in Hg. destruct Hg as (rg & Hrg & Hg).
    injection Hf as <-. injection Hg as <-.
    destruct (cell_angles_optimal _ _ _ _ Hc) as (H0 & Hopt & _).
    constructor; [|exact (IH _ _ Hrf Hrg)].
    apply min_element_monotone. intros a _. apply Hfg; assumption.
Qed.

End KernelFacts.

Lemma np_min_monotone :
  forall x y a b,
    Forall2 Qle x y -> np_min x = Ok a -> np_min y = Ok b -> a <= b.
Proof.
  intros x y a b H Ha Hb.
  apply (proj2 (np_min_glb y b a Hb)). intros d Hd.
  assert (Hx : exists d', In d' x /\ d' <= d).
  { clear Ha Hb. induction H as [|u v x y Huv _ IH]; [destruct Hd|].
    destruct Hd as [<-|Hd].
    - exists u. split; [left; reflexivity | exact Huv].
    - destruct (IH Hd) as (d' & Hin & Hle). exists d'. split; [right|]; auto. }
  destruct Hx as (d' & Hin & Hle).
  apply Qle_trans with d'; [|exact Hle].
  exact (proj1 (np_min_glb x a a Ha) (Qle_refl _) d' Hin).
Qed.

Lemma np_min_in_unit_interval :
  forall x a,
    Forall (fun s => 0 <= s /\ s <= 1) x -> np_min x = Ok a ->
    0 <= a /\ a <= 1.
Proof.
  intros [|q x] a H Ha; simpl in Ha; [discriminate Ha|].
  injection Ha as <-. exact (min_element_in_unit_interval (q :: x) H).
Qed.

(** X8.  When [acos] answers within [[0, pi]], every cell value of the two
    C++ kernels lies in [[0, 1]], and so do the minimal skewness and the
    minimal maximum-angle quality of the mesh. *)
Theorem angle_qualities_in_unit_interval :
  forall acos sqrt mesh,
    (forall x, 0 <= acos x /\ acos x <= DOLFIN_PI) ->
    (forall q, skewness acos sqrt mesh = Ok q ->
               Forall (fun s => 0 <= s /\ s <= 1) q)
    /\ (forall q, maximum_angle acos sqrt mesh = Ok q ->
                  Forall (fun s => 0 <= s /\ s <= 1) q)
    /\ (forall a, min_skewness acos sqrt mesh = Ok a -> 0 <= a /\ a <= 1)
    /\ (forall a, min_maximum_angle acos sqrt mesh = Ok a ->
                  0 <= a /\ a <= 1).
Proof.
  intros acos sqrt mesh Hacos.
  assert (Hs : forall q, skewness acos sqrt mesh = Ok q ->
                         Forall (fun s => 0 <= s /\ s <= 1) q).
  { intros q H. unfold skewness in H.
    eapply (for_cells_Forall acos sqrt _ skewness_angle); [|exact H].
    intros m cell angs opt Hc.
    destruct (cell_angles_optimal _ _ _ _ _ _ Hc) as (H0 & Hopt & Hall).
    apply min_element_in_unit_interval. apply Forall_forall.
    intros s Hs. apply in_map_iff in Hs. destruct Hs as (a & <- & Ha).
    destruct (Hall a Ha) as (x & ->). destruct (Hacos x).
    apply skewness_angle_in_unit_interval; assumption. }
  assert (Hm : forall q, maximum_angle acos sqrt mesh = Ok q ->
                         Forall (fun s => 0 <= s /\ s <= 1) q).
  { intros q H. unfold maximum_angle in H.
    eapply (for_cells_Forall acos sqrt _ maximum_angle_angle); [|exact H].
    intros m cell angs opt Hc.
    destruct (cell_angles_optimal _ _ _ _ _ _ Hc) as (H0 & Hopt & Hall).
    apply min_element_in_unit_interval. apply Forall_forall.
    intros s Hs'. apply in_map_iff in Hs'. destruct Hs' as (a & <- & Ha).
    destruct (Hall a Ha) as (x & ->). destruct (Hacos x).
    apply maximum_angle_angle_in_unit_interval; assumption. }
  split; [exact Hs|]. split; [exact Hm|]. split.
  - intros a H. unfold min_skewness in H.
    apply bind_Ok in H. destruct H as (q & Hq & H).
    exact (np_min_in_unit_interval q a (Hs q Hq) H).
  - intros a H. unfold min_maximum_angle in H.
    apply bind_Ok in H. destruct H as (q & Hq & H).
    exact (np_min_in_unit_interval q a (Hm q Hq) H).
Qed.

Lemma table_acos_in_range :
  forall x, 0 <= table_acos x /\ table_acos x <= DOLFIN_PI.
Proof.
  intros x. unfold table_acos.
  destruct (Qeq_bool x (4 # 5)); [split; discriminate|].
  destruct (Qeq_bool x 0); [split; discriminate|].
  destruct (Qeq_bool x (3 # 5)); split; discriminate.
Qed.

Lemma angle_qualities_in_unit_interval_witness :
  exists a,
    min_skewness table_acos table_sqrt triangle_mesh = Ok a
    /\ 0 <= a /\ a <= 1.
Proof.
  destruct (min_skewness table_acos table_sqrt triangle_mesh)
    as [a|e] eqn:E; [|vm_compute in E; discriminate E].
  exists a. split; [reflexivity|].
  destruct (angle_qualities_in_unit_interval table_acos table_sqrt
              triangle_mesh table_acos_in_range) as (_ & _ & H & _).
  exact (H a E).
Defined.

(** X9.  Cell by cell the skewness is at most the maximum-angle quality,
    for any [acos]; hence the minimal skewness of a mesh is at most its
    minimal maximum-angle quality. *)
Theorem skewness_at_most_maximum_angle :
  forall acos sqrt mesh,
    (forall qs qm,
        skewness acos sqrt mesh = Ok qs ->
        maximum_angle acos sqrt mesh = Ok qm ->
        Forall2 Qle qs qm)
    /\ (forall a b,
           min_skewness acos sqrt mesh = Ok a ->
           min_maximum_angle acos sqrt mesh = Ok b ->
           a <= b).
Proof.
  intros acos sqrt mesh.
  assert (H : forall qs qm,
             skewness acos sqrt mesh = Ok qs ->
             maximum_angle acos sqrt mesh = Ok qm ->
             Forall2 Qle qs qm).
  { intros qs qm Hs Hm. unfold skewness, maximum_angle in *.
    exact (for_cells_pointwise acos sqrt _ _
             skewness_angle_le_maximum_angle_angle _ _ _ _ Hs Hm). }
  split; [exact H|].
  intros a b Ha Hb. unfold min_skewness, min_maximum_angle in *.
  apply bind_Ok in Ha. destruct Ha as (qs & Hs & Ha).
  apply bind_Ok in Hb. destruct Hb as (qm & Hm & Hb).
  exact (np_min_monotone _ _ _ _ (H qs qm Hs Hm) Ha Hb).
Qed.

Lemma skewness_at_most_maximum_angle_witness :
  exists a b,
    min_skewness table_acos table_sqrt triangle_mesh = Ok a
    /\ min_maximum_angle table_acos table_sqrt triangle_mesh = Ok b
    /\ a <= b /\ ~ b <= a.
Proof.
  destruct (min_skewness table_acos table_sqrt triangle_mesh)
    as [a|e] eqn:Ea; [|vm_compute in Ea; discriminate Ea].
  destruct (min_maximum_angle table_acos table_sqrt triangle_mesh)
    as [b|e] eqn:Eb; [|vm_compute in Eb; discriminate Eb].
  exists a, b. split; [reflexivity|]. split; [reflexivity|]. split.
  - exact (proj2 (skewness_at_most_maximum_angle table_acos table_sqrt
                    triangle_mesh) a b Ea Eb).
  - vm_compute in Ea, Eb. injection Ea as <-. injection Eb as <-.
    intros H. vm_compute in H. apply H. reflexivity.
Defined.

(* ===================================================================== *)
(** ** More on the mesh handler                                           *)
(* ===================================================================== *)

Lemma with_coordinates_same :
  forall m, with_coordinates m (coordinates m) = m.
Proof. intros [c cs t g]. reflexivity. Qed.

Lemma occurences_at_least_rows :
  forall i M,
    Forall (fun row => In i row) M ->
    (length M <= occurences_of i M)%nat.
Proof.
  intros i M H. unfold occurences_of.
  induction H as [|row M Hrow _ IH]; simpl; [lia|].
  rewrite count_occ_app.
  assert (0 < count_occ Nat.eq_dec row i)%nat by (apply count_occ_In; exact Hrow).
  lia.
Qed.

Lemma take_rows_spec :
  forall cs cells_idx M,
    take_rows cs cells_idx = Ok M ->
    length M = length cells_idx
    /\ forall row, In row M ->
                   exists k, In k cells_idx /\ nth_error cs k = Some row.
Proof.
  intros cs. induction cells_idx as [|k rest IH]; intros M H; simpl in H.
  - injection H as <-. split; [reflexivity | intros row []].
  - destruct (nth_error cs k) as [row|] eqn:E; [|discriminate H].
    apply bind_Ok in H. destruct H as (M' & HM & H). injection H as <-.
    destruct (IH _ HM) as [Hl Hin]. split; [simpl; lia|].
    intros r [<-|Hr].
    + exists k. split; [left; reflexivity | exact E].
    + destruct (Hin r Hr) as (k' & Hk & Hn). exists k'. split; [right|]; auto.
Qed.

Lemma take_rows_total :
  forall cs cells_idx,
    Forall (fun k => (k < length cs)%nat) cells_idx ->
    exists M, take_rows cs cells_idx = Ok M.
Proof.
  intros cs. induction cells_idx as [|k rest IH]; intros H; simpl; [eauto|].
  inversion H as [|? ? Hk Hrest]; subst.
  destruct (nth_error cs k) as [row|] eqn:E;
    [|apply nth_error_None in E; lia].
  destruct (IH Hrest) as [M ->]. simpl. eauto.
Qed.

Section MoveFacts.

Variable acos : Q -> Q.
Variable sqrt : Q -> Q.
Variable np_divide : Q -> Q -> Q.
Variable radius_ratios : Mesh -> list Q.
Variable condition_solve : Mesh -> list Q.
Variable prior_solve : Mesh -> vec -> list Q * Z.
Variable ALE_move : Mesh -> Transformation -> result (list (list Q)).
Variable compute_entity_collisions : Mesh -> list Q -> list nat.

Local Abbreviation posteriori :=
  (test_a_posteriori acos sqrt np_divide radius_ratios condition_solve
                     compute_entity_collisions).

(** The two ways out of the a posteriori check. *)
Lemma test_a_posteriori_cases :
  forall self verdict self1,
    posteriori self = Ok (verdict, self1) ->
    (verdict = false
     /\ exists c, old_coordinates self = Some c
                  /\ self1 = set_coordinates_and_build self c)
    \/ (verdict = true
        /\ compute_mesh_quality acos sqrt np_divide radius_ratios
                                condition_solve self = Ok self1).
Proof.
  intros self verdict self1 H. unfold test_a_posteriori in H.
  apply bind_Ok in H. destruct H as (found & _ & H). destruct found.
  - left. unfold revert_transformation in H.
    destruct (old_coordinates self) as [c|]; [|discriminate H].
    cbn [bind] in H. injection H as <- <-. eauto.
  - right. apply bind_Ok in H. destruct H as (self2 & Hq & H).
    injection H as <- <-. auto.
Qed.

(** With a spatial index that reports, for every vertex, only cells that
    have this vertex among their vertices, the loop over the vertices
    finds no self intersection. *)
Lemma find_self_intersection_incident :
  forall self coords i,
    (forall n x,
        nth_error coords n = Some x ->
        Forall (fun k => exists row, nth_error (cells (mesh self)) k = Some row
                                     /\ In (i + n)%nat row)
               (compute_entity_collisions (bbtree self) x)) ->
    find_self_intersection compute_entity_collisions self i coords = Ok false.
Proof.
  intros self. induction coords as [|x coords IH]; intros i H; simpl;
    [reflexivity|].
  pose proof (H 0%nat x eq_refl) as Hx. rewrite Nat.add_0_r in Hx.
  destruct (take_rows_total (cells (mesh self))
              (compute_entity_collisions (bbtree self) x)) as [M EM].
  { apply Forall_forall. intros k Hk. rewrite Forall_forall in Hx.
    destruct (Hx k Hk) as (row & Hrow & _).
    apply nth_error_Some. congruence. }
  rewrite EM. cbn [bind].
  destruct (take_rows_spec _ _ _ EM) as [Hlen Hrows].
  assert (Hall : Forall (fun row => In i row) M).
  { apply Forall_forall. intros row Hr.
    destruct (Hrows row Hr) as (k & Hk & Hn).
    rewrite Forall_forall in Hx.
    destruct (Hx k Hk) as (row' & Hrow' & Hin). congruence. }
  pose proof (occurences_at_least_rows i M Hall) as Hocc.
  destruct (occurences_of i M <? length (compute_entity_collisions
                                           (bbtree self) x))%nat eqn:E.
  - apply Nat.ltb_lt in E. lia.
  - apply IH. intros n y Hn.
    replace (S i + n)%nat with (i + S n)%nat by lia.
    exact (H (S n) y Hn).
Qed.

End MoveFacts.

(** X10.  A [move_mesh] that returns [False], whether the a priori check
    rejected the transformation or the a posteriori check found a self
    intersection and rolled back, leaves the mesh exactly as it was:
    coordinates, connectivity and dimensions. *)
Theorem rejected_move_leaves_mesh :
  forall acos sqrt np_divide radius_ratios condition_solve prior_solve
         ALE_move compute_entity_collisions self t self1,
    move_mesh acos sqrt np_divide radius_ratios condition_solve prior_solve
              ALE_move compute_entity_collisions self t = Ok (false, self1) ->
    mesh self1 = mesh self.
Proof.
  intros acos sqrt np_divide rr cs prior_solve ALE_move coll self t self1 H.
  destruct (move_mesh_unfold _ _ _ _ _ _ _ _ _ _ _ _ H)
    as (_ & feasible & self0 & Hp & Hno & Hgo).
  destruct (test_a_priori_frame _ _ _ _ _ Hp) as (Hmesh & _ & _).
  destruct feasible.
  - destruct (Hgo eq_refl) as (moved & _ & Hpost).
    destruct (test_a_posteriori_cases _ _ _ _ _ _ _ _ _ Hpost)
      as [(_ & c & Hc & ->) | (Habs & _)]; [|discriminate Habs].
    simpl in Hc. injection Hc as <-. simpl.
    rewrite <- Hmesh. destruct (mesh self0). reflexivity.
  - destruct (Hno eq_refl) as (_ & ->). exact Hmesh.
Qed.

Lemma rejected_move_leaves_mesh_witness :
  exists self1,
    move_mesh demo_sqrt demo_sqrt Qdiv demo_radius_ratios
              demo_condition_solve demo_prior_solve demo_ALE_move
              folding_collisions interval_handler shifting
    = Ok (false, self1)
    /\ old_coordinates self1 = Some [[0]; [1]; [2]]
    /\ mesh self1 = mesh interval_handler.
Proof.
  destruct (move_mesh demo_sqrt demo_sqrt Qdiv demo_radius_ratios
              demo_condition_solve demo_prior_solve demo_ALE_move
              folding_collisions interval_handler shifting)
    as [[verdict self1]|e] eqn:E; [|vm_compute in E; discriminate E].
  assert (Hv : verdict = false /\ old_coordinates self1 = Some [[0]; [1]; [2]]).
  { pose proof E as E'. vm_compute in E'. injection E' as <- <-.
    split; reflexivity. }
  destruct Hv as [-> Ho]. exists self1. split; [reflexivity|].
  split; [exact Ho|].
  exact (rejected_move_leaves_mesh demo_sqrt demo_sqrt Qdiv demo_radius_ratios
           demo_condition_solve demo_prior_solve demo_ALE_move
           folding_collisions interval_handler shifting self1 E).
Defined.

(** X11.  A [move_mesh] that returns [True] has applied exactly the
    displacement [ALE.move] computes on the mesh it found: the new
    coordinates are that result, the snapshot holds the coordinates from
    before, the spatial index is rebuilt on the moved mesh, and nothing
    but the coordinates of the mesh has changed. *)
Theorem accepted_move_applies_displacement :
  forall acos sqrt np_divide radius_ratios condition_solve prior_solve
         ALE_move compute_entity_collisions self t self1,
    move_mesh acos sqrt np_divide radius_ratios condition_solve prior_solve
              ALE_move compute_entity_collisions self t = Ok (true, self1) ->
    exists moved,
      ALE_move (mesh self) t = Ok moved
      /\ mesh self1 = with_coordinates (mesh self) moved
      /\ bbtree self1 = mesh self1
      /\ old_coordinates self1 = Some (coordinates (mesh self)).
Proof.
  intros acos sqrt np_divide rr cs prior_solve ALE_move coll self t self1 H.
  destruct (move_mesh_unfold _ _ _ _ _ _ _ _ _ _ _ _ H)
    as (_ & feasible & self0 & Hp & Hno & Hgo).
  destruct (test_a_priori_frame _ _ _ _ _ Hp) as (Hmesh & _ & _).
  destruct feasible; [|destruct (Hno eq_refl) as (Habs & _); discriminate Habs].
  destruct (Hgo eq_refl) as (moved & Hmoved & Hpost).
  simpl in Hmoved. rewrite Hmesh in Hmoved.
  exists moved. split; [exact Hmoved|].
  destruct (test_a_posteriori_cases _ _ _ _ _ _ _ _ _ Hpost)
    as [(Habs & _) | (_ & Hq)]; [discriminate Habs|].
  assert (Hframe : mesh self1 = with_coordinates (mesh self) moved
                   /\ bbtree self1 = with_coordinates (mesh self) moved
                   /\ old_coordinates self1 = Some (coordinates (mesh self))).
  { unfold compute_mesh_quality in Hq. rewrite <- Hmesh.
    repeat match type of Hq with
           | (if ?b then _ else _) = _ => destruct b
           end;
      try (apply bind_Ok in Hq; destruct Hq as (q & _ & Hq));
      injection Hq as <-; simpl; auto. }
  destruct Hframe as (-> & -> & ->). auto.
Qed.

Lemma accepted_move_applies_displacement_witness :
  exists self1,
    move_mesh demo_sqrt demo_sqrt Qdiv demo_radius_ratios
              demo_condition_solve demo_prior_solve demo_ALE_move
              demo_collisions interval_handler shifting
    = Ok (true, self1)
    /\ exists moved,
        demo_ALE_move (mesh interval_handler) shifting = Ok moved
        /\ mesh self1 = with_coordinates (mesh interval_handler) moved
        /\ bbtree self1 = mesh self1
        /\ old_coordinates self1 = Some (coordinates (mesh interval_handler)).
Proof.
  destruct (move_mesh demo_sqrt demo_sqrt Qdiv demo_radius_ratios
              demo_condition_solve demo_prior_solve demo_ALE_move
              demo_collisions interval_handler shifting)
    as [[verdict self1]|e] eqn:E; [|vm_compute in E; discriminate E].
  assert (Hv : verdict = true).
  { pose proof E as E'. vm_compute in E'. injection E' as <- _. reflexivity. }
  subst verdict. exists self1. split; [reflexivity|].
  exact (accepted_move_applies_displacement demo_sqrt demo_sqrt Qdiv
           demo_radius_ratios demo_condition_solve demo_prior_solve
           demo_ALE_move demo_collisions interval_handler shifting self1 E).
Defined.

(** X12.  [revert_transformation] fails with [AttributeError] on a handler
    that has never moved its mesh (there is no [old_coordinates] yet), and
    it does not use the snapshot up: a second call right after a
    successful one succeeds and changes nothing. *)
Theorem revert_transformation_repeatable :
  forall self,
    (old_coordinates self = None ->
     revert_transformation self = Raise AttributeError)
    /\ (forall self1,
           revert_transformation self = Ok self1 ->
           revert_transformation self1 = Ok self1).
Proof.
  intros self. unfold revert_transformation. split.
  - intros ->. reflexivity.
  - intros self1 H. destruct (old_coordinates self) as [c|] eqn:E;
      [|discriminate H].
    injection H as <-. simpl. rewrite E. reflexivity.
Qed.

Lemma revert_transformation_repeatable_witness :
  old_coordinates interval_handler = None
  /\ revert_transformation interval_handler = Raise AttributeError
  /\ exists self1,
      revert_transformation
        (set_old_coordinates interval_handler [[5]; [6]; [7]]) = Ok self1
      /\ coordinates (mesh self1) = [[5]; [6]; [7]]
      /\ revert_transformation self1 = Ok self1.
Proof.
  split; [reflexivity|]. split.
  - exact (proj1 (revert_transformation_repeatable interval_handler) eq_refl).
  - eexists. split; [reflexivity|]. split; [reflexivity|].
    exact (proj2 (revert_transformation_repeatable
                    (set_old_coordinates interval_handler [[5]; [6]; [7]]))
                 _ eq_refl).
Defined.

(** X13.  The a posteriori check raises no false alarm: when the spatial
    index reports, for every vertex, only cells that have this vertex
    among their vertices, the check finds no self intersection, returns
    [True] (if the quality computation returns) and leaves the mesh and
    the snapshot alone. *)
Theorem a_posteriori_accepts_incident_collisions :
  forall acos sqrt np_divide radius_ratios condition_solve
         compute_entity_collisions self verdict self1,
    (forall n x,
        nth_error (coordinates (mesh self)) n = Some x ->
        Forall (fun k => exists row, nth_error (cells (mesh self)) k = Some row
                                     /\ In n row)
               (compute_entity_collisions (bbtree self) x)) ->
    test_a_posteriori acos sqrt np_divide radius_ratios condition_solve
                      compute_entity_collisions self = Ok (verdict, self1) ->
    verdict = true
    /\ mesh self1 = mesh self
    /\ old_coordinates self1 = old_coordinates self.
Proof.
  intros acos sqrt np_divide rr cs coll self verdict self1 Hinc H.
  unfold test_a_posteriori in H.
  rewrite (find_self_intersection_incident coll self
             (coordinates (mesh self)) 0 Hinc) in H.
  cbn [bind] in H.
  apply bind_Ok in H. destruct H as (self2 & Hq & H).
  injection H as <- <-. split; [reflexivity|].
  exact (compute_mesh_quality_frame _ _ _ _ _ _ _ Hq).
Qed.

Lemma a_posteriori_accepts_incident_collisions_witness :
  exists self1,
    test_a_posteriori demo_sqrt demo_sqrt Qdiv demo_radius_ratios
                      demo_condition_solve incident_collisions
                      interval_handler = Ok (true, self1)
    /\ mesh self1 = mesh interval_handler.
Proof.
  assert (Hinc : forall n x,
             nth_error (coordinates (mesh interval_handler)) n = Some x ->
             Forall (fun k => exists row,
                         nth_error (cells (mesh interval_handler)) k = Some row
                         /\ In n row)
                    (incident_collisions (bbtree interval_handler) x)).
  { intros [|[|[|n]]] x Hx; simpl in Hx.
    - injection Hx as <-. simpl. repeat constructor.
      eexists. split; [reflexivity | simpl; auto].
    - injection Hx as <-. simpl. constructor; [|constructor; [|constructor]].
      + eexists. split; [reflexivity | simpl; auto].
      + eexists. split; [reflexivity | simpl; auto].
    - injection Hx as <-. simpl. repeat constructor.
      eexists. split; [reflexivity | simpl; auto].
    - destruct n; discriminate Hx. }
  destruct (test_a_posteriori demo_sqrt demo_sqrt Qdiv demo_radius_ratios
              demo_condition_solve incident_collisions interval_handler)
    as [[verdict self1]|e] eqn:E; [|vm_compute in E; discriminate E].
  destruct (a_posteriori_accepts_incident_collisions demo_sqrt demo_sqrt Qdiv
              demo_radius_ratios demo_condition_solve incident_collisions
              interval_handler verdict self1 Hinc E) as (-> & Hm & _).
  exists self1. split; [reflexivity | exact Hm].
Defined.

(* ===================================================================== *)
(** ** Construction of the handler and [compute_decreases]                *)
(* ===================================================================== *)

Lemma lt_float_iff : forall a b, lt_float a b = true <-> a < b.
Proof.
  intros a b. unfold lt_float. rewrite negb_true_iff. split.
  - intros H. apply Qnot_le_lt. intros Hle.
    apply Qle_bool_iff in Hle. congruence.
  - intros H. destruct (Qle_bool b a) eqn:E; [|reflexivity].
    apply Qle_bool_iff in E. exfalso. exact (Qlt_not_le _ _ H E).
Qed.

Lemma str_in_In :
  forall x l, str_in x l = true <-> In x l.
Proof.
  intros x l. unfold str_in. rewrite existsb_exists. split.
  - intros (y & Hy & E). apply String.eqb_eq in E. subst. exact Hy.
  - intros H. exists x. split; [exact H | apply String.eqb_refl].
Qed.

(** X14.  [compute_decreases] returns [0] whenever [angle_change] is
    infinite, whatever the direction, the step length and the solver;
    it fails its assertion when [angle_change] is not positive; and every
    value it returns is at least [0]. *)
Theorem compute_decreases_edges :
  forall np_divide frobenius_solve np_log np_ceil self beta_armijo
         search_direction stepsize,
    (angle_change self = Infinity ->
     compute_decreases np_divide frobenius_solve np_log np_ceil self
                       beta_armijo search_direction stepsize = Ok 0)
    /\ (forall ac,
           angle_change self = Finite ac -> ac <= 0 ->
           compute_decreases np_divide frobenius_solve np_log np_ceil self
                             beta_armijo search_direction stepsize
           = Raise (AssertionError "Angle change has to be positive"))
    /\ (forall decreases,
           compute_decreases np_divide frobenius_solve np_log np_ceil self
                             beta_armijo search_direction stepsize
           = Ok decreases ->
           0 <= decreases).
Proof.
  intros np_divide fs np_log np_ceil self beta d step.
  unfold compute_decreases. split; [|split].
  - intros ->. reflexivity.
  - intros ac -> Hle. simpl.
    replace (lt_float 0 ac) with false; [reflexivity|].
    symmetry. destruct (lt_float 0 ac) eqn:E; [|reflexivity].
    apply lt_float_iff in E. exfalso. exact (Qlt_not_le _ _ E Hle).
  - intros n H.
    destruct (negb (bound_gt (angle_change self) 0)); [discriminate H|].
    destruct (angle_change self) as [ac|].
    + destruct (fs (mesh self) d) as [x reason].
      destruct (reason <? 0)%Z; [discriminate H|].
      inv_binds H. injection H as <-. apply Q.le_max_r.
    + injection H as <-. apply Qle_refl.
Qed.

Lemma compute_decreases_edges_witness :
  compute_decreases Qdiv demo_frobenius_solve demo_log demo_ceil
                    interval_handler None [1; 2; 3] 0 = Ok 0
  /\ compute_decreases Qdiv demo_frobenius_solve demo_log demo_ceil
                       (set_transformation_container angle_handler [])
                       None [1; 2; 3] 0 = Raise ZeroDivisionError
  /\ exists decreases,
      compute_decreases Qdiv demo_frobenius_solve demo_log demo_ceil
                        angle_handler None [1; 2; 3] 1 = Ok decreases
      /\ 0 <= decreases.
Proof.
  split.
  - exact (proj1 (compute_decreases_edges Qdiv demo_frobenius_solve demo_log
                    demo_ceil interval_handler None [1; 2; 3] 0) eq_refl).
  - split; [reflexivity|].
    destruct (compute_decreases Qdiv demo_frobenius_solve demo_log demo_ceil
                angle_handler None [1; 2; 3] 1) as [n|e] eqn:E;
      [|vm_compute in E; discriminate E].
    exists n. split; [reflexivity|].
    exact (proj2 (proj2 (compute_decreases_edges Qdiv demo_frobenius_solve
                           demo_log demo_ceil angle_handler None [1; 2; 3] 1))
                 n E).
Defined.

Lemma compute_mesh_quality_config :
  forall acos sqrt np_divide radius_ratios condition_solve self self1,
    compute_mesh_quality acos sqrt np_divide radius_ratios condition_solve
                         self = Ok self1 ->
    mesh self1 = mesh self /\ bbtree self1 = bbtree self
    /\ volume_change self1 = volume_change self
    /\ angle_change self1 = angle_change self
    /\ mesh_quality_measure self1 = mesh_quality_measure self
    /\ mesh_quality_type self1 = mesh_quality_type self
    /\ old_coordinates self1 = old_coordinates self
    /\ transformation_container self1 = transformation_container self.
Proof.
  intros acos sqrt np_divide rr cs self self1 H.
  unfold compute_mesh_quality in H.
  repeat match type of H with
         | (if ?b then _ else _) = _ => destruct b
         end;
    try (apply bind_Ok in H; destruct H as (q & _ & H));
    injection H as <-; simpl; repeat split; reflexivity.
Qed.

(** What the assertions of the construction leave true. *)
Lemma init_mesh_handler_invariants :
  forall acos sqrt np_divide radius_ratios condition_solve deformation_dim
         m config setup,
    init_mesh_handler acos sqrt np_divide radius_ratios condition_solve
                      deformation_dim m config = Ok setup ->
    mesh_quality_tol_lower setup < mesh_quality_tol_upper setup
    /\ In (mesh_quality_measure (handler setup))
          ["skewness"; "maximum_angle"; "radius_ratios";
           "condition_number"]%string
    /\ In (mesh_quality_type (handler setup))
          ["min"; "minimum"; "avg"; "average"]%string
    /\ (forall ac, angle_change (handler setup) = Finite ac -> 0 < ac)
    /\ (forall vc, volume_change (handler setup) = Finite vc -> 1 < vc)
    /\ mesh (handler setup) = m
    /\ bbtree (handler setup) = m
    /\ old_coordinates (handler setup) = None.
Proof.
  intros acos sqrt np_divide rr cs dim m config setup H.
  unfold init_mesh_handler in H.
  destruct (lt_float _ _) eqn:Etol in H; [|discriminate H].
  cbn [negb] in H.
  destruct (str_in (fallback (cfg_measure config) "skewness"%string) _)
    eqn:Emeasure in H; [|discriminate H].
  cbn [negb] in H.
  destruct (str_in (fallback (cfg_type config) "min"%string) _)
    eqn:Etype in H; [|discriminate H].
  cbn [negb] in H.
  apply bind_Ok in H. destruct H as (self & Hq & H).
  destruct (compute_mesh_quality_config _ _ _ _ _ _ _ Hq)
    as (Q1 & Q2 & Q3 & Q4 & Q5 & Q6 & Q7 & Q8).
  simpl in Q1, Q2, Q3, Q4, Q5, Q6, Q7, Q8.
  destruct (bound_gt (fallback (cfg_angle_change config) Infinity) 0)
    eqn:Eangle in H; [|discriminate H].
  cbn [negb] in H.
  apply lt_float_iff in Etol. apply str_in_In in Emeasure.
  apply str_in_In in Etype.
  assert (Hac : forall ac, angle_change self = Finite ac -> 0 < ac).
  { intros ac Hac. rewrite Q4 in Hac. rewrite Hac in Eangle.
    apply lt_float_iff. exact Eangle. }
  destruct (fallback (cfg_volume_change config) Infinity) as [v|] eqn:Ev.
  - destruct (lt_float 1 v) eqn:Evol in H; [|discriminate H].
    injection H as <-. simpl.
    rewrite Q5, Q6. repeat split; auto.
    intros vc Hvc. rewrite Q3 in Hvc. injection Hvc as <-.
    apply lt_float_iff. exact Evol.
  - injection H as <-. simpl.
    rewrite Q5, Q6. repeat split; auto.
    intros vc Hvc. rewrite Q3 in Hvc. discriminate Hvc.
Qed.

(** X15.  The handler is constructed only from a valid configuration:
    whenever the construction returns, the lower remeshing tolerance is
    strictly below the upper one, the quality measure and its type are
    among the four names each, [angle_change] is positive and a finite
    [volume_change] exceeds 1; the handler holds the mesh given, has its
    spatial index built on it and has no snapshot. *)
Theorem init_mesh_handler_validates :
  forall acos sqrt np_divide radius_ratios condition_solve deformation_dim
         m config setup,
    init_mesh_handler acos sqrt np_divide radius_ratios condition_solve
                      deformation_dim m config = Ok setup ->
    mesh_quality_tol_lower setup < mesh_quality_tol_upper setup
    /\ In (mesh_quality_measure (handler setup))
          ["skewness"; "maximum_angle"; "radius_ratios";
           "condition_number"]%string
    /\ In (mesh_quality_type (handler setup))
          ["min"; "minimum"; "avg"; "average"]%string
    /\ (forall ac, angle_change (handler setup) = Finite ac -> 0 < ac)
    /\ (forall vc, volume_change (handler setup) = Finite vc -> 1 < vc)
    /\ mesh (handler setup) = m
    /\ bbtree (handler setup) = m
    /\ old_coordinates (handler setup) = None.
Proof.
  intros acos sqrt np_divide rr cs dim m config setup H.
  exact (init_mesh_handler_invariants acos sqrt np_divide rr cs dim m config
           setup H).
Qed.

Lemma init_mesh_handler_validates_witness :
  exists setup,
    init_mesh_handler demo_sqrt demo_sqrt Qdiv demo_radius_ratios
                      demo_condition_solve 3 interval_mesh radius_config
    = Ok setup
    /\ mesh_quality_tol_lower setup < mesh_quality_tol_upper setup
    /\ volume_change (handler setup) = Finite 2
    /\ transformation_container (handler setup) = [0; 0; 0]
    /\ (forall vc, volume_change (handler setup) = Finite vc -> 1 < vc).
Proof.
  destruct (init_mesh_handler demo_sqrt demo_sqrt Qdiv demo_radius_ratios
              demo_condition_solve 3 interval_mesh radius_config)
    as [setup|e] eqn:E; [|vm_compute in E; discriminate E].
  exists setup. split; [reflexivity|].
  destruct (init_mesh_handler_validates demo_sqrt demo_sqrt Qdiv
              demo_radius_ratios demo_condition_solve 3 interval_mesh
              radius_config setup E) as (Htol & _ & _ & _ & Hvol & _).
  split; [exact Htol|].
  pose proof E as E'. vm_compute in E'. injection E' as <-.
  split; [reflexivity|]. split; [reflexivity | exact Hvol].
Defined.

(** X16.  A handler that [__init__] has constructed never divides by zero
    in its a priori check and never fails the assertion of
    [compute_decreases]: the bounds the two functions divide by and
    assert on were validated at construction. *)
Theorem constructed_handler_is_safe :
  forall acos sqrt np_divide radius_ratios condition_solve deformation_dim
         m config setup,
    init_mesh_handler acos sqrt np_divide radius_ratios condition_solve
                      deformation_dim m config = Ok setup ->
    (forall prior_solve t,
        test_a_priori prior_solve (handler setup) t
        <> Raise ZeroDivisionError)
    /\ (forall frobenius_solve np_log np_ceil beta_armijo search_direction
               stepsize,
           compute_decreases np_divide frobenius_solve np_log np_ceil
                             (handler setup) beta_armijo search_direction
                             stepsize
           <> Raise (AssertionError "Angle change has to be positive")).
Proof.
  intros acos sqrt np_divide rr cs dim m config setup H.
  destruct (init_mesh_handler_invariants acos sqrt np_divide rr cs dim m
              config setup H) as (_ & _ & _ & Hac & Hvc & _).
  split.
  - intros prior_solve t. unfold test_a_priori.
    destruct (volume_change (handler setup)) as [vc|] eqn:Ev;
      [|discriminate].
    destruct (negb _); [discriminate|].
    cbn [mesh transformation_container set_transformation_container].
    destruct (prior_solve (mesh (handler setup)) (vector t)) as [x reason].
    destruct (reason <? 0)%Z; [discriminate|].
    destruct x as [|a x]; [simpl; discriminate|].
    cbn [np_min np_max bind].
    rewrite pydiv_nonzero; [discriminate|].
    intros E. specialize (Hvc vc eq_refl). rewrite E in Hvc.
    discriminate Hvc.
  - intros fs np_log np_ceil beta d step. unfold compute_decreases.
    destruct (angle_change (handler setup)) as [ac|] eqn:Ea.
    + specialize (Hac ac eq_refl). simpl.
      replace (lt_float 0 ac) with true
        by (symmetry; apply lt_float_iff; exact Hac).
      cbn [negb].
      destruct (fs (mesh (handler setup)) d) as [x reason].
      destruct (reason <? 0)%Z; [discriminate|].
      destruct x as [|a x]; [simpl; discriminate|].
      cbn [np_max bind]. unfold pydiv.
      destruct (Qeq_bool step 0); [simpl; discriminate|]. cbn [bind].
      destruct (Qeq_bool (fallback beta 2) 0); simpl; discriminate.
    + simpl. discriminate.
Qed.

Lemma constructed_handler_is_safe_witness :
  exists setup,
    init_mesh_handler demo_sqrt demo_sqrt Qdiv demo_radius_ratios
                      demo_condition_solve 3 interval_mesh radius_config
    = Ok setup
    /\ test_a_priori demo_prior_solve (handler setup) stretching
       <> Raise ZeroDivisionError
    /\ compute_decreases Qdiv demo_frobenius_solve demo_log demo_ceil
                         (handler setup) None [1; 2; 3] 1
       <> Raise (AssertionError "Angle change has to be positive").
Proof.
  destruct (init_mesh_handler demo_sqrt demo_sqrt Qdiv demo_radius_ratios
              demo_condition_solve 3 interval_mesh radius_config)
    as [setup|e] eqn:E; [|vm_compute in E; discriminate E].
  exists setup. split; [reflexivity|].
  destruct (constructed_handler_is_safe demo_sqrt demo_sqrt Qdiv
              demo_radius_ratios demo_condition_solve 3 interval_mesh
              radius_config setup E) as (H1 & H2).
  split; [apply H1 | apply H2].
Defined.

(* ===================================================================== *)
(** ** Regular meshes                                                     *)
(* ===================================================================== *)

Lemma np_round_comp :
  forall q q', q == q' -> np_round q = np_round q'.
Proof.
  intros q q' H. unfold np_round.
  assert (Hf : Qfloor q = Qfloor q') by (rewrite H; reflexivity).
  rewrite Hf.
  assert (Hc : Qcompare (q - inject_Z (Qfloor q')) (1 # 2)
               = Qcompare (q' - inject_Z (Qfloor q')) (1 # 2))
    by (rewrite H; reflexivity).
  rewrite Hc. reflexivity.
Qed.

Lemma np_round_Z : forall k, np_round (inject_Z k) = k.
Proof.
  intros k. unfold np_round. rewrite Qfloor_Z.
  assert (H : Qcompare (inject_Z k - inject_Z k) (1 # 2) = Lt).
  { apply Qlt_alt.
    assert (E : inject_Z k - inject_Z k == 0) by ring.
    rewrite E. reflexivity. }
  rewrite H. reflexivity.
Qed.

Lemma np_round_lower :
  forall k q, inject_Z k <= q -> (k <= np_round q)%Z.
Proof.
  intros k q H. unfold np_round.
  assert (Hf : (k <= Qfloor q)%Z).
  { rewrite <- (Qfloor_Z k). apply Qfloor_resp_le. exact H. }
  destruct (Qcompare (q - inject_Z (Qfloor q)) (1 # 2)); [|lia|lia].
  destruct (Z.even (Qfloor q)); lia.
Qed.

Lemma Qmin_cases : forall a b, Qmin a b = a \/ Qmin a b = b.
Proof.
  intros a b. unfold Qmin, GenericMinMax.gmin.
  destruct (a ?= b); auto.
Qed.

Lemma fold_left_Qmin_In :
  forall l a, fold_left Qmin l a = a \/ In (fold_left Qmin l a) l.
Proof.
  induction l as [|x l IH]; intros a; simpl; [left; reflexivity|].
  destruct (IH (Qmin a x)) as [H | H].
  - rewrite H. destruct (Qmin_cases a x) as [E | E]; rewrite E; auto.
  - right. right. exact H.
Qed.

Lemma list_min_In :
  forall sizes, sizes <> [] -> In (list_min sizes) sizes.
Proof.
  intros [|a l] H; [contradiction|]. simpl.
  destruct (fold_left_Qmin_In l a) as [E | E]; [left; auto | right; exact E].
Qed.

Lemma list_min_le :
  forall sizes l, In l sizes -> list_min sizes <= l.
Proof.
  intros [|a rest] l H; [destruct H|]. simpl.
  pose proof (proj1 (fold_left_Qmin_glb rest a (fold_left Qmin rest a))
                    (Qle_refl _)) as [Ha Hrest].
  destruct H as [<-|H]; [exact Ha | exact (Hrest l H)].
Qed.

Lemma point_counts_positive :
  forall n size_min sizes,
    0 < size_min ->
    point_counts n size_min sizes
    = Return (map (fun length => np_round (length / size_min * inject_Z n))
                  sizes).
Proof.
  intros n m sizes Hm.
  assert (E : Qeq_bool m 0 = false).
  { destruct (Qeq_bool m 0) eqn:E; [|reflexivity].
    apply Qeq_bool_iff in E. rewrite E in Hm. discriminate Hm. }
  induction sizes as [|l rest IH]; simpl; [reflexivity|].
  unfold point_count. rewrite E, IH. reflexivity.
Qed.

(** The numbers of elements for a list of positive lengths: at least [n]
    in every direction, exactly [n] in a shortest one. *)
Lemma point_counts_shortest :
  forall n sizes,
    (0 <= n)%Z -> sizes <> [] ->
    Forall (fun l => 0 < l) sizes ->
    exists counts,
      point_counts n (list_min sizes) sizes = Return counts
      /\ length counts = length sizes
      /\ Forall (fun k => (n <= k)%Z) counts
      /\ In n counts.
Proof.
  intros n sizes Hn Hne Hpos.
  pose proof (list_min_In sizes Hne) as Hin.
  assert (Hm : 0 < list_min sizes).
  { rewrite Forall_forall in Hpos. exact (Hpos _ Hin). }
  rewrite (point_counts_positive n _ sizes Hm).
  eexists. split; [reflexivity|]. split; [apply length_map|]. split.
  - apply Forall_forall. intros k Hk. apply in_map_iff in Hk.
    destruct Hk as (l & <- & Hl). apply np_round_lower.
    assert (H1 : 1 <= l / list_min sizes).
    { apply Qle_shift_div_l; [exact Hm|].
      rewrite Qmult_1_l. apply list_min_le. exact Hl. }
    assert (H0 : 0 <= inject_Z n).
    { change 0 with (inject_Z 0). rewrite <- Zle_Qle. exact Hn. }
    setoid_replace (inject_Z n) with (1 * inject_Z n) at 1 by ring.
    apply Qmult_le_compat_r; assumption.
  - apply in_map_iff. exists (list_min sizes). split; [|exact Hin].
    rewrite <- (np_round_Z n) at 2. apply np_round_comp.
    field. intros E. rewrite E in Hm. discriminate Hm.
Qed.

(** X17.  Whenever [regular_box_mesh] returns, the intervals given are
    ordered ([S < E] in every direction), the mesh asked for is a
    rectangle exactly when [S_z] is [None] and a box otherwise, between
    the corners given; and for [int(n) >= 0] every direction gets at
    least [int(n)] elements and a shortest direction exactly [int(n)]. *)
Theorem regular_box_mesh_request :
  forall n S_x S_y S_z E_x E_y E_z request,
    regular_box_mesh n S_x S_y S_z E_x E_y E_z = Return request ->
    S_x < E_x /\ S_y < E_y
    /\ match S_z, E_z with
       | None, None =>
           request_dim request = 2%nat
           /\ lower_corner request = [S_x; S_y]
           /\ upper_corner request = [E_x; E_y]
       | Some sz, Some ez =>
           sz < ez /\ request_dim request = 3%nat
           /\ lower_corner request = [S_x; S_y; sz]
           /\ upper_corner request = [E_x; E_y; ez]
       | _, _ => False
       end
    /\ length (num_points request) = request_dim request
    /\ ((0 <= py_int n)%Z ->
        Forall (fun k => (py_int n <= k)%Z) (num_points request)
        /\ In (py_int n) (num_points request)).
Proof.
  intros n S_x S_y S_z E_x E_y E_z request H. unfold regular_box_mesh in H.
  destruct (lt_float S_x E_x) eqn:Ex; [|discriminate H].
  destruct (lt_float S_y E_y) eqn:Ey; [|discriminate H].
  cbn [negb] in H. apply lt_float_iff in Ex. apply lt_float_iff in Ey.
  split; [exact Ex|]. split; [exact Ey|].
  destruct S_z as [sz|], E_z as [ez|]; try discriminate H.
  - destruct (lt_float sz ez) eqn:Ez; [|discriminate H].
    cbn [negb] in H. apply lt_float_iff in Ez.
    destruct (point_counts (py_int n)
                (list_min [E_x - S_x; E_y - S_y; ez - sz])
                [E_x - S_x; E_y - S_y; ez - sz]) as [counts|e] eqn:Ec;
      [|discriminate H].
    injection H as <-. simpl.
    assert (Hpos : Forall (fun l => 0 < l) [E_x - S_x; E_y - S_y; ez - sz]).
    { repeat constructor; lra. }
    split; [auto|]. split.
    + rewrite point_counts_positive in Ec.
      * injection Ec as <-. reflexivity.
      * pose proof (list_min_In [E_x - S_x; E_y - S_y; ez - sz]
                      ltac:(discriminate)) as Hin.
        rewrite Forall_forall in Hpos. exact (Hpos _ Hin).
    + intros Hn.
      destruct (point_counts_shortest (py_int n)
                  [E_x - S_x; E_y - S_y; ez - sz] Hn ltac:(discriminate) Hpos)
        as (counts' & Ec' & _ & Hall & Hin).
      rewrite Ec in Ec'. injection Ec' as <-. auto.
  - destruct (point_counts (py_int n) (list_min [E_x - S_x; E_y - S_y])
                [E_x - S_x; E_y - S_y]) as [counts|e] eqn:Ec;
      [|discriminate H].
    injection H as <-. simpl.
    assert (Hpos : Forall (fun l => 0 < l) [E_x - S_x; E_y - S_y]).
    { repeat constructor; lra. }
    split; [auto|]. split.
    + rewrite point_counts_positive in Ec.
      * injection Ec as <-. reflexivity.
      * pose proof (list_min_In [E_x - S_x; E_y - S_y]
                      ltac:(discriminate)) as Hin.
        rewrite Forall_forall in Hpos. exact (Hpos _ Hin).
    + intros Hn.
      destruct (point_counts_shortest (py_int n)
                  [E_x - S_x; E_y - S_y] Hn ltac:(discriminate) Hpos)
        as (counts' & Ec' & _ & Hall & Hin).
      rewrite Ec in Ec'. injection Ec' as <-. auto.
Qed.

Lemma regular_box_mesh_request_witness :
  exists request,
    regular_box_mesh 4 0 0 None 1 (5 # 2) None = Return request
    /\ num_points request = [4%Z; 10%Z]
    /\ request_dim request = 2%nat
    /\ Forall (fun k => (py_int 4 <= k)%Z) (num_points request)
    /\ In (py_int 4) (num_points request).
Proof.
  destruct (regular_box_mesh 4 0 0 None 1 (5 # 2) None)
    as [request|e] eqn:E; [|vm_compute in E; discriminate E].
  exists request. split; [reflexivity|].
  destruct (regular_box_mesh_request 4 0 0 None 1 (5 # 2) None request E)
    as (_ & _ & (Hdim & _) & _ & Hcounts).
  assert (Hn : (0 <= py_int 4)%Z) by (vm_compute; discriminate).
  destruct (Hcounts Hn) as [Hall Hin].
  split; [|split; [exact Hdim | split; [exact Hall | exact Hin]]].
  vm_compute in E. injection E as <-. reflexivity.
Defined.

(** X18.  The failures of [regular_box_mesh], in the order of its checks:
    an x-interval that is not ordered fails the first assertion; then a
    y-interval that is not ordered the second; then, when exactly one of
    [S_z] and [E_z] is [None], the comparison inside the third assertion
    raises [TypeError] (not an assertion error); and a z-interval that is
    not ordered fails the third assertion. *)
Theorem regular_box_mesh_failures :
  forall n S_x S_y S_z E_x E_y E_z,
    (E_x <= S_x ->
     regular_box_mesh n S_x S_y S_z E_x E_y E_z
     = Throw (Builtin (AssertionError "Incorrect input for the x-coordinate")))
    /\ (S_x < E_x -> E_y <= S_y ->
        regular_box_mesh n S_x S_y S_z E_x E_y E_z
        = Throw (Builtin
                   (AssertionError "Incorrect input for the y-coordinate")))
    /\ (S_x < E_x -> S_y < E_y ->
        (S_z = None /\ E_z <> None) \/ (S_z <> None /\ E_z = None) ->
        regular_box_mesh n S_x S_y S_z E_x E_y E_z = Throw TypeError)
    /\ (forall sz ez,
           S_x < E_x -> S_y < E_y ->
           S_z = Some sz -> E_z = Some ez -> ez <= sz ->
           regular_box_mesh n S_x S_y S_z E_x E_y E_z
           = Throw (Builtin
                      (AssertionError "Incorrect input for the z-coordinate"))).
Proof.
  intros n S_x S_y S_z E_x E_y E_z.
  assert (Hno : forall a b, b <= a -> lt_float a b = false).
  { intros a b H. destruct (lt_float a b) eqn:E; [|reflexivity].
    apply lt_float_iff in E. exfalso. exact (Qlt_not_le _ _ E H). }
  assert (Hyes : forall a b, a < b -> lt_float a b = true)
    by (intros a b H; apply lt_float_iff; exact H).
  unfold regular_box_mesh. repeat split.
  - intros H. rewrite (Hno _ _ H). reflexivity.
  - intros Hx H. rewrite (Hyes _ _ Hx), (Hno _ _ H). reflexivity.
  - intros Hx Hy H. rewrite (Hyes _ _ Hx), (Hyes _ _ Hy). cbn [negb].
    destruct H as [[-> H] | [H ->]].
    + destruct E_z; [reflexivity | contradiction].
    + destruct S_z; [reflexivity | contradiction].
  - intros sz ez Hx Hy -> -> H.
    rewrite (Hyes _ _ Hx), (Hyes _ _ Hy), (Hno _ _ H). reflexivity.
Qed.

Lemma regular_box_mesh_failures_witness :
  regular_box_mesh 10 1 0 None 1 1 None
  = Throw (Builtin (AssertionError "Incorrect input for the x-coordinate"))
  /\ regular_box_mesh 10 0 0 None 1 1 (Some 2) = Throw TypeError
  /\ regular_box_mesh 10 0 0 (Some 3) 1 1 (Some 2)
     = Throw (Builtin (AssertionError "Incorrect input for the z-coordinate")).
Proof.
  split.
  - apply (proj1 (regular_box_mesh_failures 10 1 0 None 1 1 None)).
    discriminate.
  - split.
    + apply (proj1 (proj2 (proj2
               (regular_box_mesh_failures 10 0 0 None 1 1 (Some 2))))).
      * reflexivity.
      * reflexivity.
      * left. split; [reflexivity | discriminate].
    + apply (proj2 (proj2 (proj2
               (regular_box_mesh_failures 10 0 0 (Some 3) 1 1 (Some 2))))
               3 2); try reflexivity. discriminate.
Defined.

Lemma map_round_ext :
  forall n m m' (sizes sizes' : list Q),
    ~ m == 0 -> m == m' -> Forall2 Qeq sizes sizes' ->
    map (fun l => np_round (l / m * inject_Z n)) sizes
    = map (fun l => np_round (l / m' * inject_Z n)) sizes'.
Proof.
  intros n m m' sizes sizes' Hm Hmm H.
  induction H as [|l l' sizes sizes' Hl _ IH]; simpl; [reflexivity|].
  rewrite IH. f_equal. apply np_round_comp. rewrite Hl, Hmm. reflexivity.
Qed.

(** X19.  For positive lengths [regular_mesh] asks for the same numbers of
    elements and the same dimension as [regular_box_mesh] started at the
    origin, at least [int(n)] per direction and exactly [int(n)] in a
    shortest one (for [int(n) >= 0]).  When the shortest length is [0],
    [regular_mesh], which checks nothing, never returns: the conversion of
    an infinity or of nan to an integer raises. *)
Theorem regular_mesh_request :
  forall n L_x L_y L_z,
    (0 < L_x -> 0 < L_y -> (forall lz, L_z = Some lz -> 0 < lz) ->
     exists request box,
       regular_mesh n L_x L_y L_z = Return request
       /\ regular_box_mesh n 0 0 (option_map (fun _ => 0) L_z) L_x L_y L_z
          = Return box
       /\ num_points request = num_points box
       /\ request_dim request = request_dim box
       /\ ((0 <= py_int n)%Z ->
           Forall (fun k => (py_int n <= k)%Z) (num_points request)
           /\ In (py_int n) (num_points request)))
    /\ (list_min match L_z with
                 | None => [L_x; L_y]
                 | Some lz => [L_x; L_y; lz]
                 end == 0 ->
        regular_mesh n L_x L_y L_z = Throw (Builtin ValueError)
        \/ regular_mesh n L_x L_y L_z = Throw OverflowError).
Proof.
  intros n L_x L_y L_z. split.
  - intros Hx Hy Hz.
    assert (E0 : forall x, x - 0 == x) by (intros; ring).
    destruct L_z as [lz|].
    + specialize (Hz lz eq_refl).
      assert (Hpos : Forall (fun l => 0 < l) [L_x; L_y; lz])
        by (repeat constructor; assumption).
      assert (Hm : 0 < list_min [L_x; L_y; lz]).
      { rewrite Forall_forall in Hpos. apply Hpos.
        apply list_min_In. discriminate. }
      assert (Hm' : 0 < list_min [L_x - 0; L_y - 0; lz - 0]).
      { simpl. rewrite !E0. exact Hm. }
      unfold regular_mesh, regular_box_mesh. simpl option_map.
      rewrite (proj2 (lt_float_iff 0 L_x) Hx), (proj2 (lt_float_iff 0 L_y) Hy),
        (proj2 (lt_float_iff 0 lz) Hz). cbn [negb].
      rewrite (point_counts_positive _ _ _ Hm),
        (point_counts_positive _ _ _ Hm').
      eexists. eexists. split; [reflexivity|]. split; [reflexivity|].
      cbn [num_points request_dim]. split; [|split; [reflexivity|]].
      * apply map_round_ext.
        -- intros E. rewrite E in Hm. discriminate Hm.
        -- simpl. rewrite !E0. reflexivity.
        -- repeat constructor; symmetry; apply E0.
      * intros Hn.
        destruct (point_counts_shortest (py_int n) [L_x; L_y; lz] Hn
                    ltac:(discriminate) Hpos) as (counts & Ec & _ & Hall & Hin).
        rewrite (point_counts_positive _ _ _ Hm) in Ec.
        injection Ec as <-. auto.
    + assert (Hpos : Forall (fun l => 0 < l) [L_x; L_y])
        by (repeat constructor; assumption).
      assert (Hm : 0 < list_min [L_x; L_y]).
      { rewrite Forall_forall in Hpos. apply Hpos.
        apply list_min_In. discriminate. }
      assert (Hm' : 0 < list_min [L_x - 0; L_y - 0]).
      { simpl. rewrite !E0. exact Hm. }
      unfold regular_mesh, regular_box_mesh. simpl option_map.
      rewrite (proj2 (lt_float_iff 0 L_x) Hx), (proj2 (lt_float_iff 0 L_y) Hy).
      cbn [negb].
      rewrite (point_counts_positive _ _ _ Hm),
        (point_counts_positive _ _ _ Hm').
      eexists. eexists. split; [reflexivity|]. split; [reflexivity|].
      cbn [num_points request_dim]. split; [|split; [reflexivity|]].
      * apply map_round_ext.
        -- intros E. rewrite E in Hm. discriminate Hm.
        -- simpl. rewrite !E0. reflexivity.
        -- repeat constructor; symmetry; apply E0.
      * intros Hn.
        destruct (point_counts_shortest (py_int n) [L_x; L_y] Hn
                    ltac:(discriminate) Hpos) as (counts & Ec & _ & Hall & Hin).
        rewrite (point_counts_positive _ _ _ Hm) in Ec.
        injection Ec as <-. auto.
  - intros Hzero. apply Qeq_bool_iff in Hzero. unfold regular_mesh.
    destruct L_z as [lz|]; cbn [point_counts]; unfold point_count;
      rewrite Hzero;
      destruct (Qeq_bool L_x 0 || (py_int n =? 0)%Z); auto.
Qed.

Lemma regular_mesh_request_witness :
  exists request box,
    regular_mesh 10 1 2 None = Return request
    /\ regular_box_mesh 10 0 0 None 1 2 None = Return box
    /\ num_points request = [10%Z; 20%Z]
    /\ num_points request = num_points box
    /\ (regular_mesh 10 0 2 None = Throw (Builtin ValueError)
        \/ regular_mesh 10 0 2 None = Throw OverflowError).
Proof.
  destruct (regular_mesh_request 10 1 2 None) as [Hpos _].
  destruct Hpos as (request & box & Hr & Hb & Hn & _);
    [reflexivity | reflexivity | intros lz H; discriminate H |].
  exists request, box. split; [exact Hr|]. split; [exact Hb|].
  split; [|split; [exact Hn|]].
  - vm_compute in Hr. injection Hr as <-. reflexivity.
  - apply (proj2 (regular_mesh_request 10 0 2 None)). reflexivity.
Defined.

(* ===================================================================== *)
(** ** The gradient problems                                              *)
(* ===================================================================== *)

Lemma set_component_length :
  forall (g : control) i x, length (set_component g i x) = length g.
Proof.
  induction g as [|a g IH]; intros [|i] x; simpl; auto.
Qed.

Lemma set_component_same :
  forall (g : control) i x y,
    nth_error g i = Some y -> nth_error (set_component g i x) i = Some x.
Proof.
  induction g as [|a g IH]; intros [|i] x y H; simpl in *;
    try discriminate H; eauto.
Qed.

Lemma set_component_other :
  forall (g : control) i j x,
    i <> j -> nth_error (set_component g i x) j = nth_error g j.
Proof.
  induction g as [|a g IH]; intros [|i] [|j] x H; simpl; auto.
  contradiction.
Qed.

Section GradientProblemFacts.

Variable World : Type.
Variable rhs : Type.
Variable scalar_product : control -> control -> Q.
Variable state_problem_solve : World -> result World.
Variable adjoint_problem_solve : World -> result World.
Variable control_dim : nat.
Variable assemble_rhs : nat -> World -> result rhs.
Variable ksp_solve : nat -> rhs -> vec -> vec * Z.

Local Abbreviation components := (solve_components assemble_rhs ksp_solve).

Lemma solve_components_length :
  forall indices w g,
    length (fst (components indices w g)) = length g.
Proof.
  induction indices as [|i rest IH]; intros w g; simpl; [reflexivity|].
  destruct (assemble_rhs i w) as [b|e]; [|reflexivity].
  destruct (nth_error g i) as [x|]; [|reflexivity].
  destruct (ksp_solve i b x) as [x' reason].
  destruct (reason <? 0)%Z; simpl.
  - apply set_component_length.
  - rewrite IH. apply set_component_length.
Qed.

(** The loop stops at the first component whose Krylov solver reports a
    negative reason: the components before it hold their new solutions,
    the component itself the iterate of the failed solve, and the
    components after it are untouched. *)
Lemma solve_components_failure :
  forall n s w g i b x x' reason,
    (s <= i < s + n)%nat ->
    (forall j, (s <= j < i)%nat ->
       exists bj xj, assemble_rhs j w = Ok bj /\ nth_error g j = Some xj
                     /\ (0 <= snd (ksp_solve j bj xj))%Z) ->
    assemble_rhs i w = Ok b ->
    nth_error g i = Some x ->
    ksp_solve i b x = (x', reason) ->
    (reason < 0)%Z ->
    exists g',
      components (seq s n) w g
      = (g', Raise (SystemExit ("Krylov solver did not converge. Reason: "
                                ++ py_str_int reason)))
      /\ nth_error g' i = Some x'
      /\ (forall j, (i < j)%nat -> nth_error g' j = nth_error g j)
      /\ (forall j, (j < s)%nat -> nth_error g' j = nth_error g j)
      /\ (forall j bj xj, (s <= j < i)%nat ->
            assemble_rhs j w = Ok bj -> nth_error g j = Some xj ->
            nth_error g' j = Some (fst (ksp_solve j bj xj))).
Proof.
  induction n as [|n IH]; intros s w g i b x x' reason Hi Hbefore Hb Hx Hk Hr;
    [lia|].
  simpl. destruct (Nat.eq_dec s i) as [->|Hne].
  - rewrite Hb, Hx, Hk.
    destruct (Z.ltb_spec reason 0) as [_|Hge]; [|lia].
    eexists. split; [reflexivity|]. split; [|split; [|split]].
    + eapply set_component_same. exact Hx.
    + intros j Hj. apply set_component_other. lia.
    + intros j Hj. apply set_component_other. lia.
    + intros j bj xj Hj. lia.
  - destruct (Hbefore s) as (bs & xs & Hbs & Hxs & Hrs); [lia|].
    rewrite Hbs, Hxs. destruct (ksp_solve s bs xs) as [xs' rs] eqn:Hks.
    simpl in Hrs. destruct (Z.ltb_spec rs 0) as [Hlt|_]; [lia|].
    destruct (IH (S s) w (set_component g s xs') i b x x' reason)
      as (g' & Hrun & Hi' & Hafter & Hbelow & Hmid);
      try assumption; try lia.
    + intros j Hj. destruct (Hbefore j) as (bj & xj & H1 & H2 & H3); [lia|].
      exists bj, xj. split; [exact H1|]. split; [|exact H3].
      rewrite set_component_other; [exact H2 | lia].
    + rewrite set_component_other; [exact Hx | exact Hne].
    + exists g'. split; [exact Hrun|]. split; [exact Hi'|].
      split; [|split].
      * intros j Hj. rewrite Hafter; [|exact Hj].
        apply set_component_other. lia.
      * intros j Hj. rewrite Hbelow; [|lia].
        apply set_component_other. lia.
      * intros j bj xj Hj Hbj Hxj. destruct (Nat.eq_dec j s) as [->|Hjs].
        -- rewrite Hbelow; [|lia]. rewrite Hbj in Hbs. injection Hbs as <-.
           rewrite Hxj in Hxs. injection Hxs as <-. rewrite Hks. simpl.
           eapply set_component_same. exact Hxj.
        -- apply Hmid; [lia | exact Hbj |].
           rewrite set_component_other; [exact Hxj | lia].
Qed.

End GradientProblemFacts.

(** X20.  A [GradientProblem.solve] that starts without a solution and
    returns has set [has_solution], stored the scalar product of the
    returned gradients with themselves and kept the number of components;
    from then on every [solve] returns these same gradients and leaves the
    object as it is, whatever the state and adjoint solves made of the
    world: a gradient is only recomputed after [has_solution] is reset. *)
Theorem gradient_problem_solve_caches :
  forall (World rhs : Type) scalar_product
         (state_problem_solve adjoint_problem_solve : World -> result World)
         control_dim (assemble_rhs : nat -> World -> result rhs) ksp_solve
         self w self1 w1 g,
    has_solution self = false ->
    GradientProblem_solve scalar_product state_problem_solve
      adjoint_problem_solve control_dim assemble_rhs ksp_solve self w
    = (self1, Ok (w1, g)) ->
    has_solution self1 = true
    /\ gradients self1 = g
    /\ gradient_norm_squared self1 = Some (scalar_product g g)
    /\ length g = length (gradients self)
    /\ forall w2 w3 w4,
         state_problem_solve w2 = Ok w3 ->
         adjoint_problem_solve w3 = Ok w4 ->
         GradientProblem_solve scalar_product state_problem_solve
           adjoint_problem_solve control_dim assemble_rhs ksp_solve self1 w2
         = (self1, Ok (w4, g)).
Proof.
  intros World rhs sp sps aps control_dim assemble ksp self w self1 w1 g
         Hfresh H.
  unfold GradientProblem_solve in H.
  destruct (sps w) as [wa|e]; [|discriminate H].
  destruct (aps wa) as [wb|e]; [|discriminate H].
  rewrite Hfresh in H. cbn [negb] in H.
  pose proof (solve_components_length World rhs assemble ksp
                (seq 0 control_dim) wb (gradients self)) as Hlen.
  destruct (solve_components assemble ksp (seq 0 control_dim) wb
              (gradients self)) as [g' [[]|e]]; [|discriminate H].
  injection H as <- <- <-. simpl in Hlen.
  split; [reflexivity|]. split; [reflexivity|]. split; [reflexivity|].
  split; [exact Hlen|].
  intros w2 w3 w4 H2 H3. unfold GradientProblem_solve.
  rewrite H2, H3. reflexivity.
Qed.

Lemma gradient_problem_solve_caches_witness :
  exists self1 g,
    GradientProblem_solve dot counting_solve counting_solve 2 index_rhs
      demo_ksp_solve (GradientProblem_init [2%nat; 1%nat]) 0%nat
    = (self1, Ok (2%nat, g))
    /\ g = [[1; 1]; [2]]
    /\ GradientProblem_solve dot counting_solve counting_solve 2 index_rhs
         demo_ksp_solve self1 7%nat
       = (self1, Ok (9%nat, g)).
Proof.
  destruct (GradientProblem_solve dot counting_solve counting_solve 2
              index_rhs demo_ksp_solve (GradientProblem_init [2%nat; 1%nat])
              0%nat) as [self1 [[w1 g]|e]] eqn:E;
    [|vm_compute in E; discriminate E].
  assert (Hw : w1 = 2%nat).
  { pose proof E as E'. vm_compute in E'. injection E' as _ <- _.
    reflexivity. }
  subst w1. exists self1, g. split; [reflexivity|].
  destruct (gradient_problem_solve_caches nat nat dot counting_solve
              counting_solve 2%nat index_rhs demo_ksp_solve
              (GradientProblem_init [2%nat; 1%nat]) 0%nat self1 2%nat g
              eq_refl E) as (_ & _ & _ & _ & Hcache).
  split.
  - pose proof E as E'. vm_compute in E'. injection E' as _ <-.
    reflexivity.
  - apply (Hcache 7%nat 8%nat 9%nat); reflexivity.
Defined.

(** X21.  When the state and adjoint solves succeed and the Krylov solver
    of component [i] is the first to report a negative reason,
    [GradientProblem.solve] raises [SystemExit] with that reason in its
    message and leaves the object without a solution: [has_solution] and
    [gradient_norm_squared] are as before, but the components before [i]
    already hold their new solutions and component [i] the iterate of the
    failed solve; the components after [i] are untouched. *)
Theorem gradient_problem_solve_krylov_failure :
  forall (World rhs : Type) scalar_product
         (state_problem_solve adjoint_problem_solve : World -> result World)
         control_dim (assemble_rhs : nat -> World -> result rhs) ksp_solve
         self w w1 w2 i b x x' reason,
    has_solution self = false ->
    state_problem_solve w = Ok w1 ->
    adjoint_problem_solve w1 = Ok w2 ->
    (i < control_dim)%nat ->
    (forall j, (j < i)%nat ->
       exists bj xj, assemble_rhs j w2 = Ok bj
                     /\ nth_error (gradients self) j = Some xj
                     /\ (0 <= snd (ksp_solve j bj xj))%Z) ->
    assemble_rhs i w2 = Ok b ->
    nth_error (gradients self) i = Some x ->
    ksp_solve i b x = (x', reason) ->
    (reason < 0)%Z ->
    exists self',
      GradientProblem_solve scalar_product state_problem_solve
        adjoint_problem_solve control_dim assemble_rhs ksp_solve self w
      = (self', Raise (SystemExit ("Krylov solver did not converge. Reason: "
                                   ++ py_str_int reason)))
      /\ has_solution self' = false
      /\ gradient_norm_squared self' = gradient_norm_squared self
      /\ nth_error (gradients self') i = Some x'
      /\ (forall j, (i < j)%nat ->
            nth_error (gradients self') j = nth_error (gradients self) j)
      /\ (forall j bj xj, (j < i)%nat ->
            assemble_rhs j w2 = Ok bj ->
            nth_error (gradients self) j = Some xj ->
            nth_error (gradients self') j = Some (fst (ksp_solve j bj xj))).
Proof.
  intros World rhs sp sps aps control_dim assemble ksp self w w1 w2 i b x x'
         reason Hfresh H1 H2 Hi Hbefore Hb Hx Hk Hr.
  destruct (solve_components_failure World rhs assemble ksp control_dim 0 w2
              (gradients self) i b x x' reason)
    as (g' & Hrun & Hi' & Hafter & _ & Hmid); try assumption; try lia.
  { intros j Hj. apply Hbefore. lia. }
  unfold GradientProblem_solve. rewrite H1, H2, Hfresh. cbn [negb].
  rewrite Hrun. eexists. split; [reflexivity|]. cbn.
  split; [reflexivity|]. split; [reflexivity|]. split; [exact Hi'|].
  split; [exact Hafter|].
  intros j bj xj Hj. apply Hmid. lia.
Qed.

Lemma gradient_problem_solve_krylov_failure_witness :
  exists self',
    GradientProblem_solve dot counting_solve counting_solve 3 index_rhs
      diverging_ksp_solve (GradientProblem_init [2%nat; 1%nat; 1%nat]) 0%nat
    = (self', Raise (SystemExit "Krylov solver did not converge. Reason: -3"))
    /\ has_solution self' = false
    /\ gradient_norm_squared self' = None
    /\ nth_error (gradients self') 1 = Some [0 + inject_Z 1 + 1]
    /\ nth_error (gradients self') 2 = Some [0].
Proof.
  destruct (gradient_problem_solve_krylov_failure nat nat dot counting_solve
              counting_solve 3%nat index_rhs diverging_ksp_solve
              (GradientProblem_init [2%nat; 1%nat; 1%nat]) 0%nat 1%nat 2%nat
              1%nat 1%nat [0] [0 + inject_Z 1 + 1] (-3)%Z)
    as (self' & Hrun & Hsol & Hnorm & Hi & Hafter & _);
    try reflexivity; try lia.
  { intros j Hj. assert (j = 0%nat) as -> by lia.
    exists 0%nat, [0; 0]. split; [reflexivity|]. split; [reflexivity|].
    simpl. lia. }
  exists self'. split; [exact Hrun|]. split; [exact Hsol|].
  split; [exact Hnorm|]. split; [exact Hi|].
  rewrite (Hafter 2%nat); [reflexivity | lia].
Defined.

(** X22.  A [ShapeGradientProblem.solve] that starts without a solution and
    returns has set [has_solution] and stored the scalar product of the
    returned gradient with itself; from then on every [solve] returns this
    same gradient and leaves the object as it is, for any world in which
    the state and adjoint solves succeed, without a new linear solve. *)
Theorem shape_gradient_problem_solve_caches :
  forall (World rhs : Type) shape_scalar_product
         (state_problem_solve adjoint_problem_solve : World -> result World)
         update_geometric_quantities
         (assemble_shape_derivative : World -> result (World * rhs))
         solve_linear_problem self w self1 w1 g,
    shape_has_solution self = false ->
    ShapeGradientProblem_solve shape_scalar_product state_problem_solve
      adjoint_problem_solve update_geometric_quantities
      assemble_shape_derivative solve_linear_problem self w
    = Ok (self1, w1, g) ->
    shape_has_solution self1 = true
    /\ gradient self1 = g
    /\ shape_gradient_norm_squared self1 = shape_scalar_product g g
    /\ forall w2 w3 w4,
         state_problem_solve w2 = Ok w3 ->
         adjoint_problem_solve w3 = Ok w4 ->
         ShapeGradientProblem_solve shape_scalar_product state_problem_solve
           adjoint_problem_solve update_geometric_quantities
           assemble_shape_derivative solve_linear_problem self1 w2
         = Ok (self1, w4, g).
Proof.
  intros World rhs sp sps aps upd assemble lin self w self1 w1 g Hfresh H.
  unfold ShapeGradientProblem_solve in H.
  destruct (sps w) as [wa|e]; [|discriminate H]. cbn [bind] in H.
  destruct (aps wa) as [wb|e]; [|discriminate H]. cbn [bind] in H.
  rewrite Hfresh in H. cbn [negb] in H.
  destruct (upd wb) as [wc|e]; [|discriminate H]. cbn [bind] in H.
  destruct (assemble wc) as [[wd b]|e]; [|discriminate H]. cbn [bind] in H.
  destruct (lin wd b (gradient self)) as [x|e]; [|discriminate H].
  cbn [bind] in H. injection H as <- <- <-.
  split; [reflexivity|]. split; [reflexivity|]. split; [reflexivity|].
  intros w2 w3 w4 H2 H3. unfold ShapeGradientProblem_solve.
  rewrite H2. cbn [bind]. rewrite H3. reflexivity.
Qed.

Lemma shape_gradient_problem_solve_caches_witness :
  exists self1 g,
    ShapeGradientProblem_solve dot_vec counting_solve counting_solve
      counting_solve demo_shape_assemble demo_solve_linear_problem
      (ShapeGradientProblem_init 2) 0%nat
    = Ok (self1, 3%nat, g)
    /\ shape_gradient_norm_squared self1 = dot_vec g g
    /\ ShapeGradientProblem_solve dot_vec counting_solve counting_solve
         counting_solve demo_shape_assemble demo_solve_linear_problem
         self1 5%nat
       = Ok (self1, 7%nat, g).
Proof.
  destruct (ShapeGradientProblem_solve dot_vec counting_solve counting_solve
              counting_solve demo_shape_assemble demo_solve_linear_problem
              (ShapeGradientProblem_init 2) 0%nat)
    as [[[self1 w1] g]|e] eqn:E; [|vm_compute in E; discriminate E].
  assert (Hw : w1 = 3%nat).
  { pose proof E as E'. vm_compute in E'. injection E' as _ <- _.
    reflexivity. }
  subst w1. exists self1, g. split; [reflexivity|].
  destruct (shape_gradient_problem_solve_caches nat nat dot_vec
              counting_solve counting_solve counting_solve
              demo_shape_assemble demo_solve_linear_problem
              (ShapeGradientProblem_init 2) 0%nat self1 3%nat g eq_refl E)
    as (_ & _ & Hnorm & Hcache).
  split; [exact Hnorm|].
  apply (Hcache 5%nat 6%nat 7%nat); reflexivity.
Defined.

(* ===================================================================== *)
(** ** Strings and paths                                                  *)
(* ===================================================================== *)

Lemma str_take_drop :
  forall n s, (str_take n s ++ str_drop n s)%string = s.
Proof.
  induction n as [|n IH]; intros [|c s]; simpl; try reflexivity.
  rewrite IH. reflexivity.
Qed.

Lemma str_length_append :
  forall a b, String.length (a ++ b) = (String.length a + String.length b)%nat.
Proof.
  induction a as [|c a IH]; intros b; simpl; [reflexivity|].
  rewrite IH. reflexivity.
Qed.

Lemma str_take_append :
  forall a b, str_take (String.length a) (a ++ b) = a.
Proof.
  induction a as [|c a IH]; intros b; simpl.
  - destruct b; reflexivity.
  - rewrite IH. reflexivity.
Qed.

Lemma str_drop_append :
  forall a b, str_drop (String.length a) (a ++ b) = b.
Proof.
  induction a as [|c a IH]; intros b; simpl; [|apply IH].
  destruct b; reflexivity.
Qed.

Lemma str_last_append :
  forall a t, str_last (String.length t) (a ++ t) = t.
Proof.
  intros a t. unfold str_last. rewrite str_length_append.
  replace (String.length a + String.length t - String.length t)%nat
    with (String.length a) by lia.
  apply str_drop_append.
Qed.

Lemma str_but_last_append :
  forall a t, str_but_last (String.length t) (a ++ t) = a.
Proof.
  intros a t. unfold str_but_last. rewrite str_length_append.
  replace (String.length a + String.length t - String.length t)%nat
    with (String.length a) by lia.
  apply str_take_append.
Qed.

Lemma str_last_split :
  forall n s, s = (str_but_last n s ++ str_last n s)%string.
Proof.
  intros n s. unfold str_but_last, str_last. symmetry. apply str_take_drop.
Qed.

Lemma str_append_assoc :
  forall a b c : string, ((a ++ b) ++ c)%string = (a ++ (b ++ c))%string.
Proof.
  induction a as [|x a IH]; intros b c; simpl; [reflexivity|].
  rewrite IH. reflexivity.
Qed.

Lemma str_take_prefix :
  forall pre line,
    String.eqb (str_take (String.length pre) line) pre = String.prefix pre line.
Proof.
  induction pre as [|a pre IH]; intros [|b line]; simpl; try reflexivity.
  destruct (ascii_dec a b) as [->|Hne].
  - rewrite Ascii.eqb_refl. apply IH.
  - destruct (Ascii.eqb_spec b a) as [->|_]; [contradiction Hne|];
      reflexivity.
Qed.

Lemma has_slash_append :
  forall a b, has_slash (a ++ b) = has_slash a || has_slash b.
Proof.
  induction a as [|c a IH]; intros b; simpl; [reflexivity|].
  rewrite IH. apply orb_assoc.
Qed.

Lemma basename_no_slash :
  forall p, has_slash p = false -> basename p = p.
Proof.
  intros [|c p] H; [reflexivity|]. unfold basename; fold basename.
  rewrite H. reflexivity.
Qed.

Lemma basename_after_slash :
  forall directory name,
    has_slash name = false ->
    basename (directory ++ String "/" name) = name.
Proof.
  induction directory as [|c d IH]; intros name H.
  - cbn. apply basename_no_slash. exact H.
  - change (basename (String c (d ++ String "/" name)) = name).
    unfold basename; fold basename.
    assert (Hs : has_slash (String c (d ++ String "/" name)) = true).
    { simpl. rewrite has_slash_append. simpl.
      rewrite !orb_true_r. reflexivity. }
    rewrite Hs. apply IH. exact H.
Qed.

Lemma py_str_int_no_slash : forall k, has_slash (py_str_int k) = false.
Proof.
  assert (Hu : forall d, has_slash (NilEmpty.string_of_uint d) = false)
    by (induction d; simpl; auto).
  assert (Hz : forall d, has_slash (NilZero.string_of_uint d) = false)
    by (intros d; destruct d; try apply Hu; reflexivity).
  intros k. unfold py_str_int, NilZero.string_of_int.
  destruct (Z.to_int k); simpl; apply Hz.
Qed.

(** A line passes at most one of the three tests of [copies]: it is copied
    once if it starts with [lc], [Field] or [Background Field], and not
    at all otherwise. *)
Lemma copies_once :
  forall line,
    copies line
    = if String.prefix "lc" line || String.prefix "Field" line
         || String.prefix "Background Field" line
      then [line] else [].
Proof.
  intros line. unfold copies.
  rewrite (str_take_prefix "lc"), (str_take_prefix "Field"),
    (str_take_prefix "Background Field").
  destruct line as [|c line]; [reflexivity|].
  cbn [String.prefix].
  destruct (ascii_dec "l" c) as [<-|H1].
  - cbn. destruct (String.prefix "c" line); reflexivity.
  - destruct (ascii_dec "F" c) as [<-|H2].
    + cbn. destruct (String.prefix "ield" line); reflexivity.
    + destruct (ascii_dec "B" c) as [<-|H3].
      * cbn. destruct (String.prefix "ackground Field" line); reflexivity.
      * reflexivity.
Qed.

Lemma flat_map_copies :
  forall lines,
    flat_map copies lines
    = filter (fun line => String.prefix "lc" line
                          || String.prefix "Field" line
                          || String.prefix "Background Field" line) lines.
Proof.
  induction lines as [|line lines IH]; [reflexivity|].
  cbn [flat_map filter]. rewrite IH, copies_once.
  destruct (String.prefix "lc" line || String.prefix "Field" line
            || String.prefix "Background Field" line); reflexivity.
Qed.

(* ===================================================================== *)
(** ** [import_mesh] and the remeshing                                    *)
(* ===================================================================== *)

(** X23.  [import_mesh] on a file name that does not end with [.xdmf]
    raises ['Not a suitable mesh file format'] whatever the files are.  On
    a name that ends with [.xdmf] it has dolfin read that file: it raises
    [RuntimeError] when there is no such file, it returns only the mesh
    that dolfin read from it, and when the file can be read and there are
    no files with markers it returns that mesh with empty mesh functions.
    The marker files looked for are named like the mesh file with [.xdmf]
    replaced by [_subdomains.xdmf] and [_boundaries.xdmf]. *)
Theorem import_mesh_needs_xdmf_suffix :
  forall (Collection MeshFunction : Type) MeshValueCollection
         (mesh_function : Mesh -> Collection -> MeshFunction)
         xdmf_read_mesh xdmf_read_values s p,
    ((forall file_string, s <> (file_string ++ ".xdmf")%string) ->
     import_mesh MeshValueCollection mesh_function xdmf_read_mesh
                 xdmf_read_values (ArgStr s) p
     = Throw (Exception "Not a suitable mesh file format"))
    /\ (forall file_string,
          s = (file_string ++ ".xdmf")%string ->
          (files p s = None ->
           import_mesh MeshValueCollection mesh_function xdmf_read_mesh
                       xdmf_read_values (ArgStr s) p
           = Throw (Builtin RuntimeError))
          /\ (forall r,
                import_mesh MeshValueCollection mesh_function xdmf_read_mesh
                            xdmf_read_values (ArgStr s) p
                = Return r ->
                _cestrel_generator r = "str"%string
                /\ exists f,
                     files p s = Some f
                     /\ xdmf_read_mesh f = Return (imported_mesh r))
          /\ (forall f m,
                files p s = Some f ->
                xdmf_read_mesh f = Return m ->
                path_exists p (file_string ++ "_subdomains.xdmf") = false ->
                path_exists p (file_string ++ "_boundaries.xdmf") = false ->
                import_mesh MeshValueCollection mesh_function xdmf_read_mesh
                            xdmf_read_values (ArgStr s) p
                = Return
                    {| imported_mesh := m;
                       subdomains :=
                         mesh_function m
                           (MeshValueCollection m
                              (Z.of_nat (geometric_dimension m)));
                       boundaries :=
                         mesh_function m
                           (MeshValueCollection m
                              (Z.of_nat (geometric_dimension m) - 1)%Z);
                       _cestrel_generator := "str" |})).
Proof.
  intros Collection MeshFunction mvc mf read_m read_v s p.
  unfold import_mesh. cbn [select_mesh_file outcome_bind]. split.
  - intros Hno.
    destruct (String.eqb_spec (str_last 5 s) ".xdmf") as [E|_];
      [|reflexivity].
    exfalso. apply (Hno (str_but_last 5 s)).
    rewrite <- E. apply str_last_split.
  - intros file_string ->.
    change 5%nat with (String.length ".xdmf").
    rewrite str_last_append, str_but_last_append.
    rewrite String.eqb_refl. unfold read_mesh. split; [|split].
    + intros Hnone. rewrite Hnone. reflexivity.
    + intros r H.
      destruct (files p (file_string ++ ".xdmf")) as [f|];
        [|discriminate H].
      destruct (read_m f) as [m|e] eqn:Hm; [|discriminate H].
      cbn [outcome_bind] in H.
      destruct (read_values read_v p (file_string ++ "_subdomains.xdmf")
                            "subdomains" _) as [c1|e]; [|discriminate H].
      cbn [outcome_bind] in H.
      destruct (read_values read_v p (file_string ++ "_boundaries.xdmf")
                            "boundaries" _) as [c2|e]; [|discriminate H].
      cbn [outcome_bind] in H. injection H as <-.
      split; [reflexivity|]. exists f. split; [reflexivity | exact Hm].
    + intros f m Hf Hm Hsub Hbound. rewrite Hf, Hm.
      cbn [outcome_bind]. unfold read_values. rewrite Hsub, Hbound.
      reflexivity.
Qed.

Lemma import_mesh_needs_xdmf_suffix_witness :
  import_mesh demo_collection demo_mesh_function demo_xdmf_read_mesh
              demo_xdmf_read_values (ArgStr "/work/mesh.msh") demo_process
  = Throw (Exception "Not a suitable mesh file format")
  /\ import_mesh demo_collection demo_mesh_function demo_xdmf_read_mesh
                 demo_xdmf_read_values (ArgStr "/work/mesh.xdmf") demo_process
     = Throw (Builtin RuntimeError)
  /\ import_mesh demo_collection demo_mesh_function demo_xdmf_read_mesh
                 demo_xdmf_read_values (ArgStr "/work/mesh.xdmf")
                 (set_files demo_process
                    (write_file "/work/mesh.xdmf"
                       {| text := ["<Xdmf>"%string]; decoded := None |}
                       demo_files))
     = Return {| imported_mesh := triangle_mesh;
                 subdomains := [];
                 boundaries := [];
                 _cestrel_generator := "str" |}.
Proof.
  split; [|split].
  - apply (proj1 (import_mesh_needs_xdmf_suffix
                    (list string) (list string) demo_collection
                    demo_mesh_function demo_xdmf_read_mesh
                    demo_xdmf_read_values "/work/mesh.msh" demo_process)).
    intros file_string H.
    assert (E : str_last 5 "/work/mesh.msh"
                = str_last (String.length ".xdmf") (file_string ++ ".xdmf"))
      by (rewrite <- H; reflexivity).
    rewrite str_last_append in E. discriminate E.
  - apply (proj1 (proj2 (import_mesh_needs_xdmf_suffix
                           (list string) (list string) demo_collection
                           demo_mesh_function demo_xdmf_read_mesh
                           demo_xdmf_read_values "/work/mesh.xdmf"
                           demo_process) "/work/mesh"%string eq_refl)).
    reflexivity.
  - apply (proj2 (proj2 (proj2 (import_mesh_needs_xdmf_suffix
                           (list string) (list string) demo_collection
                           demo_mesh_function demo_xdmf_read_mesh
                           demo_xdmf_read_values "/work/mesh.xdmf"
                           (set_files demo_process
                              (write_file "/work/mesh.xdmf"
                                 {| text := ["<Xdmf>"%string];
                                    decoded := None |}
                                 demo_files)))
                         "/work/mesh"%string eq_refl))
             {| text := ["<Xdmf>"%string]; decoded := None |} triangle_mesh);
      reflexivity.
Defined.

(** X24.  When the original .geo file can be read, [__generate_remesh_geo]
    returns and leaves in the remesh .geo file the three header lines
    followed by exactly those lines of the original that start with [lc],
    [Field] or [Background Field], in their order and each once (no line
    passes two of the three tests); no other file, argument or command is
    touched.  If the original is the remesh .geo file itself, it was
    emptied when opened for writing, and only the header is left. *)
Theorem remesh_geo_file_contents :
  forall input_mesh_file self p a geo_file f,
    attributes self = Some a ->
    key_geo_file (temp_dict a) = Some geo_file ->
    files p geo_file = Some f ->
    exists p' written,
      generate_remesh_geo input_mesh_file (self, p) = ((self, p'), Returns tt)
      /\ files p' (remesh_geo_file a)
         = Some {| text := written; decoded := None |}
      /\ (geo_file <> remesh_geo_file a ->
          written
          = geo_header input_mesh_file
            ++ filter (fun line => String.prefix "lc" line
                                   || String.prefix "Field" line
                                   || String.prefix "Background Field" line)
                      (text f))
      /\ (geo_file = remesh_geo_file a ->
          written = geo_header input_mesh_file)
      /\ (forall path, path <> remesh_geo_file a ->
                       files p' path = files p path)
      /\ argv p' = argv p
      /\ commands p' = commands p.
Proof.
  intros input_mesh_file self p a geo_file f Ha Hgeo Hf.
  unfold generate_remesh_geo. cbn [fst snd]. rewrite Ha, Hgeo.
  unfold write_file at 1.
  destruct (String.eqb_spec geo_file (remesh_geo_file a)) as [E|E].
  - eexists. eexists. split; [reflexivity|]. cbn [files set_files].
    split; [unfold write_file; rewrite String.eqb_refl; reflexivity|].
    split; [intros Hne; contradiction|].
    split; [intros _; apply app_nil_r|].
    split; [|split; reflexivity].
    intros path Hne. unfold write_file.
    destruct (String.eqb_spec path (remesh_geo_file a)); [contradiction|].
    reflexivity.
  - rewrite Hf. eexists. eexists. split; [reflexivity|].
    cbn [files set_files].
    split; [unfold write_file; rewrite String.eqb_refl; reflexivity|].
    split; [intros _; cbn [text]; rewrite flat_map_copies; reflexivity|].
    split; [intros Heq; contradiction|].
    split; [|split; reflexivity].
    intros path Hne. unfold write_file.
    destruct (String.eqb_spec path (remesh_geo_file a)); [contradiction|].
    reflexivity.
Qed.

Lemma remesh_geo_file_contents_witness :
  exists p',
    generate_remesh_geo "/work/cestrel_remesh/mesh_1_pre_remesh.msh"
                        (demo_remeshing, demo_process)
    = ((demo_remeshing, p'), Returns tt)
    /\ option_map text (files p' "/work/cestrel_remesh/remesh.geo")
       = Some [("Merge 'mesh_1_pre_remesh.msh';" ++ newline)%string;
               ("CreateGeometry;" ++ newline)%string;
               newline;
               ("lc = 0.1;" ++ newline)%string;
               ("Field[1] = Distance;" ++ newline)%string;
               ("Background Field = 1;" ++ newline)%string].
Proof.
  destruct (remesh_geo_file_contents
              "/work/cestrel_remesh/mesh_1_pre_remesh.msh" demo_remeshing
              demo_process demo_attributes "/work/mesh.geo"
              {| text := demo_geo_lines; decoded := None |}
              eq_refl eq_refl eq_refl)
    as (p' & written & Hrun & Hfile & Hwritten & _).
  exists p'. split; [exact Hrun|].
  unfold demo_attributes in Hfile. cbn [remesh_geo_file] in Hfile.
  rewrite Hfile. cbn [option_map text]. rewrite Hwritten; [reflexivity|].
  discriminate.
Defined.

Lemma deque_get_last {A} :
  forall (l : list A) x, deque_get (l ++ [x]) (-1) = Ok x.
Proof.
  intros l x.
  destruct (deque_get_back (l ++ [x]) 0) as (y & Hget & Hnth).
  { rewrite length_app. simpl. lia. }
  change (-1 - Z.of_nat 0)%Z with (-1)%Z in Hget. rewrite Hget. f_equal.
  rewrite length_app in Hnth. simpl in Hnth.
  rewrite nth_error_app2 in Hnth by lia.
  replace (length l + 1 - 1 - 0 - length l)%nat with 0%nat in Hnth by lia.
  simpl in Hnth. congruence.
Qed.

Lemma str_in_app :
  forall x l l', str_in x (l ++ l') = str_in x l || str_in x l'.
Proof.
  intros x l l'. unfold str_in. apply existsb_app.
Qed.

Lemma but_last_app {A} :
  forall (l l' : list A), but_last (length l') (l ++ l') = l.
Proof.
  intros l l'. unfold but_last. rewrite length_app.
  replace (length l + length l' - length l')%nat with (length l + 0)%nat
    by lia.
  rewrite firstn_app_2. simpl. apply app_nil_r.
Qed.

Ltac step H :=
  cbn -[append py_str_int str_in write_file Z.eqb Z.add but_last] in H;
  try discriminate H.

Ltac remesh_unfold H :=
  unfold remesh in H;
  cbv [and_then get_state put_state get_attributes put_attributes pure raise
       execv item from_outcome system generate_remesh_geo] in H;
  step H.

Section RemeshFacts.

Variable write_out_mesh :
  Mesh -> string -> string -> (string -> option file)
  -> outcome (string -> option file).
Variable run_command :
  string -> (string -> option file) -> (string -> option file).
Variable json_dumps : TempDict -> list string.

Local Abbreviation remesh_run :=
  (remesh write_out_mesh run_command json_dumps).

Ltac remesh_steps H :=
  step H;
  destruct (attributes _) as [a|] eqn:Ha; step H;
  destruct (write_out_mesh _ _ _ _) as [fs|?] eqn:Hw; step H;
  destruct (key_geo_file (temp_dict _)) as [geo_file|] eqn:Hgeo; step H;
  destruct (write_file _ _ fs geo_file) as [f|] eqn:Hf; step H;
  destruct (config_getboolean _ _ _) as [show|?] eqn:Hshow; step H;
  destruct show; step H;
  (destruct (key_OptimizationRoutine (temp_dict _)) as [routine|] eqn:Hroutine;
   step H;
   destruct (key_iteration_counter _) as [counter|] eqn:Hcounter; step H;
   destruct (counter =? _)%Z eqn:Hmoved; step H;
   destruct (key_temp_dir (temp_dict _)) as [td|] eqn:Htd; step H).

(** With [do_remesh] set, [remesh] has no path to a normal return. *)
Lemma remesh_no_return :
  forall sop self p s,
    do_remesh self = true -> remesh_run sop (self, p) <> (s, Returns tt).
Proof.
  intros sop self p s Hdo H.
  remesh_unfold H. rewrite Hdo in H.
  remesh_steps H;
    destruct (str_in "_cestrel_remesh_flag" (argv p)); step H.
Qed.

(** What a [remesh] that ends in [os.execv] has done. *)
Lemma remesh_replaces :
  forall sop self p self' p' path args,
    remesh_run sop (self, p) = ((self', p'), Replaces path args) ->
    exists a a' td routine counter show,
      do_remesh self = true
      /\ attributes self = Some a
      /\ attributes self' = Some a'
      /\ key_temp_dir (temp_dict a) = Some td
      /\ key_OptimizationRoutine (temp_dict a) = Some routine
      /\ key_iteration_counter routine = Some counter
      /\ counter <> solver_iteration sop
      /\ config_getboolean (remeshing_config self) option_show_gmsh_output
                           false = Return show
      /\ remesh_counter a' = (remesh_counter a + 1)%Z
      /\ remesh_directory a' = remesh_directory a
      /\ key_mesh_file (temp_dict a')
         = Some (remesh_directory a ++ "/mesh_"
                 ++ py_str_int (remesh_counter a + 1) ++ ".xdmf")%string
      /\ key_gmsh_file (temp_dict a')
         = Some (remesh_directory a ++ "/mesh_"
                 ++ py_str_int (remesh_counter a + 1) ++ ".msh")%string
      /\ key_remesh_counter (temp_dict a') = Some (remesh_counter a + 1)%Z
      /\ key_OptimizationRoutine (temp_dict a')
         = Some {| key_iteration_counter := Some (solver_iteration sop);
                   key_gradient_norm_initial :=
                     Some (solver_gradient_norm_initial sop) |}
      /\ key_temp_dir (temp_dict a') = Some td
      /\ key_geo_file (temp_dict a') = key_geo_file (temp_dict a)
      /\ key_output_dict (temp_dict a')
         = Some {| out_state_solves := state_problem_number_of_solves sop;
                   out_adjoint_solves := adjoint_problem_number_of_solves sop;
                   out_iterations := solver_iteration sop;
                   out_cost_function_value :=
                     but_last 1 (solver_cost_function_value sop);
                   out_gradient_norm := but_last 1 (solver_gradient_norm sop);
                   out_stepsize := but_last 1 (solver_stepsize sop);
                   out_MeshQuality := but_last 1 (solver_MeshQuality sop) |}
      /\ files p' (td ++ "/temp_dict.json")%string
         = Some {| text := json_dumps (temp_dict a');
                   decoded := Some (temp_dict a') |}
      /\ argv p' = argv p
      /\ executable p' = executable p
      /\ directories p' = directories p
      /\ commands p'
         = commands p
           ++ [if show
               then ("gmsh " ++ remesh_geo_file a ++ " -"
                     ++ py_str_int
                          (Z.of_nat (geometric_dimension (remeshing_mesh self)))
                     ++ " -o " ++ remesh_directory a ++ "/mesh_"
                     ++ py_str_int (remesh_counter a + 1) ++ ".msh")%string
               else (("gmsh " ++ remesh_geo_file a ++ " -"
                      ++ py_str_int
                           (Z.of_nat
                              (geometric_dimension (remeshing_mesh self)))
                      ++ " -o " ++ remesh_directory a ++ "/mesh_"
                      ++ py_str_int (remesh_counter a + 1) ++ ".msh")
                     ++ " >/dev/null 2>&1")%string;
               ("mesh-convert "
                ++ (remesh_directory a ++ "/mesh_"
                    ++ py_str_int (remesh_counter a + 1) ++ ".msh")
                ++ " "
                ++ remesh_directory a ++ "/mesh_"
                ++ py_str_int (remesh_counter a + 1) ++ ".xdmf")%string]
      /\ path = executable p
      /\ args = executable p
                :: (if str_in "_cestrel_remesh_flag" (argv p)
                    then but_last 2 (argv p) else argv p)
                   ++ ["_cestrel_remesh_flag"%string; td].
Proof.
  intros sop self p self' p' path args H.
  remesh_unfold H.
  destruct (do_remesh self) eqn:Hdo; step H.
  remesh_steps H;
    (destruct (str_in "_cestrel_remesh_flag" (argv p)) eqn:Hflag; step H;
     injection H as <- <- <- <-;
     eexists a, _, td, routine, counter, _;
     (split; [reflexivity|]); (split; [reflexivity|]);
     (split; [cbn; reflexivity|]);
     (split; [first [reflexivity | exact Htd]|]);
     (split; [first [reflexivity | exact Hroutine]|]);
     (split; [first [reflexivity | exact Hcounter]|]);
     (split; [apply Z.eqb_neq; exact Hmoved|]);
     (split; [first [reflexivity | exact Hshow]|]);
     cbn -[append py_str_int str_in write_file Z.eqb Z.add but_last];
     repeat split;
     try (unfold write_file; rewrite String.eqb_refl; reflexivity);
     try (rewrite <- app_assoc; reflexivity); try exact Htd).
Qed.

End RemeshFacts.

(** X25.  [remesh] does nothing when [do_remesh] is [False], and with
    [do_remesh] set it never returns: it ends in an exception or in
    [os.execv].  The process is then replaced by the same interpreter, and
    its arguments end with the flag [_cestrel_remesh_flag] and the
    directory stored under [temp_dir]: appended to [sys.argv] on the first
    remeshing, and put in the place of the last two arguments when the
    flag is already there, so that the arguments do not grow. *)
Theorem remesh_restarts_or_raises :
  forall write_out_mesh run_command json_dumps sop self p,
    (do_remesh self = false ->
     remesh write_out_mesh run_command json_dumps sop (self, p)
     = ((self, p), Returns tt))
    /\ (do_remesh self = true ->
        forall s, remesh write_out_mesh run_command json_dumps sop (self, p)
                  <> (s, Returns tt))
    /\ (forall self' p' path args,
          remesh write_out_mesh run_command json_dumps sop (self, p)
          = ((self', p'), Replaces path args) ->
          path = executable p
          /\ exists a td,
               attributes self = Some a
               /\ key_temp_dir (temp_dict a) = Some td
               /\ (str_in "_cestrel_remesh_flag" (argv p) = false ->
                   args = executable p
                          :: argv p ++ ["_cestrel_remesh_flag"%string; td])
               /\ (forall base d0,
                     argv p = base ++ ["_cestrel_remesh_flag"%string; d0] ->
                     args = executable p
                            :: base ++ ["_cestrel_remesh_flag"%string; td])).
Proof.
  intros wom rc jd sop self p. split; [|split].
  - intros Hdo. unfold remesh, and_then, get_state. cbn [fst].
    rewrite Hdo. reflexivity.
  - intros Hdo s. apply remesh_no_return. exact Hdo.
  - intros self' p' path args H.
    destruct (remesh_replaces wom rc jd sop self p self' p' path args H)
      as (a & a' & td & routine & counter & show & _ & Ha & _ & Htd & Hrest).
    do 18 (destruct Hrest as [_ Hrest]). destruct Hrest as [Hpath Hargs].
    split; [exact Hpath|]. exists a, td.
    split; [exact Ha|]. split; [exact Htd|]. split.
    + intros Hflag. rewrite Hflag in Hargs. exact Hargs.
    + intros base d0 Hargv. rewrite Hargv in Hargs.
      rewrite str_in_app in Hargs.
      replace (str_in "_cestrel_remesh_flag"
                      ["_cestrel_remesh_flag"%string; d0]) with true in Hargs
        by reflexivity.
      rewrite orb_true_r in Hargs.
      change 2%nat with (length ["_cestrel_remesh_flag"%string; d0]) in Hargs.
      rewrite but_last_app in Hargs. exact Hargs.
Qed.

Lemma remesh_restarts_or_raises_witness :
  exists self' p',
    remesh demo_write_out_mesh demo_run_command demo_json_dumps demo_problem
           (demo_remeshing, demo_process)
    = ((self', p'),
       Replaces "/usr/bin/python3"
                ["/usr/bin/python3"; "script.py"; "_cestrel_remesh_flag";
                 "/tmp/cestrel"]%string).
Proof.
  destruct (remesh demo_write_out_mesh demo_run_command demo_json_dumps
                   demo_problem (demo_remeshing, demo_process))
    as [[self' p'] [[]|e|path args]] eqn:E.
  - exfalso.
    exact (proj1 (proj2 (remesh_restarts_or_raises
                           demo_write_out_mesh demo_run_command
                           demo_json_dumps demo_problem demo_remeshing
                           demo_process)) eq_refl _ E).
  - vm_compute in E. discriminate E.
  - exists self', p'.
    destruct (proj2 (proj2 (remesh_restarts_or_raises
                              demo_write_out_mesh demo_run_command
                              demo_json_dumps demo_problem demo_remeshing
                              demo_process)) self' p' path args E)
      as (-> & a & td & Ha & Htd & Hfirst & _).
    injection Ha as <-. injection Htd as <-.
    rewrite (Hfirst eq_refl). reflexivity.
Defined.



Lemma load_temp_dict_restarted :
  forall p base td f d,
    argv p = base ++ ["_cestrel_remesh_flag"%string; td] ->
    files p (td ++ "/temp_dict.json")%string = Some f ->
    decoded f = Some d ->
    load_temp_dict p = Return d
    /\ str_in "_cestrel_remesh_flag" (argv p) = true.
Proof.
  intros p base td f d Hargv Hfile Hdecoded. split.
  - unfold load_temp_dict. rewrite Hargv.
    change (base ++ ["_cestrel_remesh_flag"%string; td])
      with (base ++ ["_cestrel_remesh_flag"%string] ++ [td]).
    rewrite app_assoc, deque_get_last. cbn [outcome_bind].
    rewrite Hfile. cbn [outcome_bind]. rewrite Hdecoded. reflexivity.
  - rewrite Hargv, str_in_app. apply orb_true_r.
Qed.

Lemma numbered_file_suffix :
  forall directory number suffix,
    str_last (String.length suffix)
             (directory ++ "/mesh_" ++ number ++ suffix) = suffix
    /\ str_but_last (String.length suffix)
                    (directory ++ "/mesh_" ++ number ++ suffix)
       = (directory ++ "/mesh_" ++ number)%string.
Proof.
  intros directory number suffix.
  assert (E : (directory ++ "/mesh_" ++ number ++ suffix)%string
              = ((directory ++ "/mesh_" ++ number) ++ suffix)%string).
  { rewrite (str_append_assoc directory).
    rewrite (str_append_assoc "/mesh_"%string). reflexivity. }
  rewrite E. split; [apply str_last_append | apply str_but_last_append].
Qed.

(** X27.  The restart looks for the new mesh: after a [remesh] that
    replaces the process, [import_mesh], called with a configuration in
    which [remesh] is on, in a process that has the files as they were
    left and the arguments after the interpreter as [sys.argv], reads the
    dictionary dumped by [remesh] and has dolfin read the [.xdmf] file
    numbered with the advanced counter in the remesh directory.  It
    raises [RuntimeError] when [gmsh] and [mesh-convert] have left no such
    file, it returns only the mesh read from that file, and it returns
    that mesh when the file can be read and has no marker files beside
    it. *)
Theorem import_mesh_after_remesh :
  forall (Collection MeshFunction : Type) MeshValueCollection
         (mesh_function : Mesh -> Collection -> MeshFunction)
         xdmf_read_mesh xdmf_read_values
         write_out_mesh run_command json_dumps sop self p self' p' path args
         config p2,
    remesh write_out_mesh run_command json_dumps sop (self, p)
    = ((self', p'), Replaces path args) ->
    config_getboolean config option_remesh false = Return true ->
    files p2 = files p' ->
    argv p2 = tl args ->
    exists a,
      attributes self = Some a
      /\ let file_string :=
           (remesh_directory a ++ "/mesh_"
            ++ py_str_int (remesh_counter a + 1))%string in
         let new_xdmf_file :=
           (remesh_directory a ++ "/mesh_"
            ++ py_str_int (remesh_counter a + 1) ++ ".xdmf")%string in
         (files p' new_xdmf_file = None ->
          import_mesh MeshValueCollection mesh_function xdmf_read_mesh
                      xdmf_read_values (ArgConfig config) p2
          = Throw (Builtin RuntimeError))
         /\ (forall r,
               import_mesh MeshValueCollection mesh_function xdmf_read_mesh
                           xdmf_read_values (ArgConfig config) p2
               = Return r ->
               _cestrel_generator r = "config"%string
               /\ exists f,
                    files p' new_xdmf_file = Some f
                    /\ xdmf_read_mesh f = Return (imported_mesh r))
         /\ (forall f m,
               files p' new_xdmf_file = Some f ->
               xdmf_read_mesh f = Return m ->
               path_exists p2 (file_string ++ "_subdomains.xdmf") = false ->
               path_exists p2 (file_string ++ "_boundaries.xdmf") = false ->
               import_mesh MeshValueCollection mesh_function xdmf_read_mesh
                           xdmf_read_values (ArgConfig config) p2
               = Return
                   {| imported_mesh := m;
                      subdomains :=
                        mesh_function m
                          (MeshValueCollection m
                             (Z.of_nat (geometric_dimension m)));
                      boundaries :=
                        mesh_function m
                          (MeshValueCollection m
                             (Z.of_nat (geometric_dimension m) - 1)%Z);
                      _cestrel_generator := "config" |}).
Proof.
  intros Collection MeshFunction mvc mf read_m read_v
         wom rc jd sop self p self' p' path args config p2 H Hconfig Hfiles
         Hargv.
  destruct (remesh_replaces wom rc jd sop self p self' p' path args H)
    as (a & a' & td & routine & counter & show & _ & Ha & _ & _ & _ & _ & _
        & _ & _ & _ & Hmesh & _ & _ & _ & _ & _ & _ & Hfile & _ & _ & _ & _
        & _ & Hargs).
  exists a. split; [exact Ha|]. cbv zeta.
  rewrite Hargs in Hargv. cbn [tl] in Hargv.
  rewrite <- Hfiles in Hfile.
  destruct (load_temp_dict_restarted p2 _ td _ (temp_dict a') Hargv Hfile
              eq_refl) as [Hload Hflag].
  unfold import_mesh, select_mesh_file.
  rewrite Hconfig. cbn [outcome_bind negb]. rewrite Hflag. cbn [negb].
  rewrite Hload. cbn [outcome_bind]. rewrite Hmesh. cbn [outcome_bind].
  destruct (numbered_file_suffix (remesh_directory a)
              (py_str_int (remesh_counter a + 1)) ".xdmf") as [Hlast Hbut].
  change (String.length ".xdmf") with 5%nat in Hlast, Hbut.
  rewrite Hlast, Hbut, String.eqb_refl. unfold read_mesh.
  rewrite Hfiles. split; [|split].
  - intros Hnone. rewrite Hnone. reflexivity.
  - intros r Hr.
    destruct (files p' (remesh_directory a ++ "/mesh_"
                        ++ py_str_int (remesh_counter a + 1) ++ ".xdmf"))
      as [f|]; [|discriminate Hr].
    destruct (read_m f) as [m|e] eqn:Hm; [|discriminate Hr].
    cbn [outcome_bind] in Hr.
    destruct (read_values read_v p2 _ "subdomains" _) as [c1|e];
      [|discriminate Hr].
    cbn [outcome_bind] in Hr.
    destruct (read_values read_v p2 _ "boundaries" _) as [c2|e];
      [|discriminate Hr].
    cbn [outcome_bind] in Hr. injection Hr as <-.
    split; [reflexivity|]. exists f. split; [reflexivity | exact Hm].
  - intros f m Hf Hm Hsub Hbound. rewrite Hf, Hm.
    cbn [outcome_bind]. unfold read_values. rewrite Hsub, Hbound.
    reflexivity.
Qed.

Lemma import_mesh_after_remesh_witness :
  (exists self' p' path args,
      remesh demo_write_out_mesh converting_run_command demo_json_dumps
             demo_problem (demo_remeshing, demo_process)
      = ((self', p'), Replaces path args)
      /\ import_mesh demo_collection demo_mesh_function demo_xdmf_read_mesh
                     demo_xdmf_read_values (ArgConfig demo_config)
                     (restarted p' args)
         = Return {| imported_mesh := triangle_mesh;
                     subdomains := [];
                     boundaries := [];
                     _cestrel_generator := "config" |})
  /\ (exists self' p' path args,
        remesh demo_write_out_mesh demo_run_command demo_json_dumps
               demo_problem (demo_remeshing, demo_process)
        = ((self', p'), Replaces path args)
        /\ import_mesh demo_collection demo_mesh_function
                       demo_xdmf_read_mesh demo_xdmf_read_values
                       (ArgConfig demo_config) (restarted p' args)
           = Throw (Builtin RuntimeError)).
Proof.
  split.
  - destruct (remesh demo_write_out_mesh converting_run_command
                     demo_json_dumps demo_problem
                     (demo_remeshing, demo_process))
      as [[self' p'] [[]|e|path args]] eqn:E;
      [vm_compute in E; discriminate E | vm_compute in E; discriminate E |].
    exists self', p', path, args. split; [reflexivity|].
    destruct (import_mesh_after_remesh
                (list string) (list string) demo_collection
                demo_mesh_function demo_xdmf_read_mesh demo_xdmf_read_values
                _ _ _ _ _ _ _ _ _ _ demo_config
                (restarted p' args) E eq_refl eq_refl eq_refl)
      as (a & Ha & _ & _ & Himport).
    injection Ha as <-. cbv zeta in Himport.
    pose proof E as E'. vm_compute in E'. injection E' as _ <- _ _.
    apply (Himport {| text := ["<Xdmf>"%string]; decoded := None |}
                   triangle_mesh); reflexivity.
  - destruct (remesh demo_write_out_mesh demo_run_command demo_json_dumps
                     demo_problem (demo_remeshing, demo_process))
      as [[self' p'] [[]|e|path args]] eqn:E;
      [vm_compute in E; discriminate E | vm_compute in E; discriminate E |].
    exists self', p', path, args. split; [reflexivity|].
    destruct (import_mesh_after_remesh
                (list string) (list string) demo_collection
                demo_mesh_function demo_xdmf_read_mesh demo_xdmf_read_values
                _ _ _ _ _ _ _ _ _ _ demo_config
                (restarted p' args) E eq_refl eq_refl eq_refl)
      as (a & Ha & Hmissing & _).
    injection Ha as <-. cbv zeta in Hmissing.
    pose proof E as E'. vm_compute in E'. injection E' as _ <- _ _.
    apply Hmissing. reflexivity.
Defined.

(** X28.  The restart continues the numbering: when the restarted process
    has loaded the dictionary dumped by [remesh] as the [temp_dict] of its
    problem, the remeshing initialisations of [__init__] pass the
    assertion on the [.msh] suffix, take over the advanced counter and the
    new [.msh] file, and, the flag being among the arguments and the
    counter not [0], neither empty the remesh directory nor copy an
    initial mesh: they issue no command and touch no file. *)
Theorem init_after_remesh :
  forall write_out_mesh run_command json_dumps realpath sop self p self' p'
         path args m config configured sop2 p2 a,
    remesh write_out_mesh run_command json_dumps sop (self, p)
    = ((self', p'), Replaces path args) ->
    attributes self = Some a ->
    (remesh_counter a + 1 <> 0)%Z ->
    config_getboolean config option_remesh false = Return true ->
    config_get config option_gmsh_file = Return configured ->
    files p2 = files p' ->
    argv p2 = tl args ->
    load_temp_dict p2 = Return (problem_temp_dict sop2) ->
    exists p3 self2 a2,
      init_remeshing run_command realpath m config sop2 p2
      = (p3, Returns self2)
      /\ do_remesh self2 = true
      /\ attributes self2 = Some a2
      /\ remesh_counter a2 = (remesh_counter a + 1)%Z
      /\ gmsh_file a2
         = (remesh_directory a ++ "/mesh_"
            ++ py_str_int (remesh_counter a + 1) ++ ".msh")%string
      /\ gmsh_file_init a2 = None
      /\ remesh_directory a2
         = (dirname (realpath configured) ++ "/cestrel_remesh")%string
      /\ temp_dict a2 = problem_temp_dict sop2
      /\ commands p3 = commands p2
      /\ files p3 = files p2.
Proof.
  intros wom rc jd realpath sop self p self' p' path args m config configured
         sop2 p2 a0 H Ha0 Hk Hconfig Hconfigured Hfiles Hargv Hloaded.
  destruct (remesh_replaces wom rc jd sop self p self' p' path args H)
    as (a & a' & td & routine & counter & show & _ & Ha & _ & _ & _ & _ & _
        & _ & _ & _ & _ & Hgmsh & Hcounter & _ & _ & _ & _ & Hfile & _ & _ & _
        & _ & _ & Hargs).
  rewrite Ha0 in Ha. injection Ha as <-.
  rewrite Hargs in Hargv. cbn [tl] in Hargv.
  rewrite <- Hfiles in Hfile.
  destruct (load_temp_dict_restarted p2 _ td _ (temp_dict a') Hargv Hfile
              eq_refl) as [Hload Hflag].
  rewrite Hload in Hloaded. injection Hloaded as Hdict.
  destruct (numbered_file_suffix (remesh_directory a0)
              (py_str_int (remesh_counter a0 + 1)) ".msh") as [Hlast _].
  change (String.length ".msh") with 4%nat in Hlast.
  unfold init_remeshing.
  cbv [and_then get_state put_state pure raise item from_outcome].
  rewrite Hconfig. rewrite <- Hdict, Hgmsh, Hcounter, Hlast.
  cbn [negb fallback]. rewrite String.eqb_refl. cbn [negb].
  rewrite Hconfigured.
  destruct (Z.eqb_spec (remesh_counter a0 + 1) 0) as [E|_]; [contradiction|].
  destruct (path_exists p2 (dirname (realpath configured) ++ "/cestrel_remesh"));
    cbn [negb argv]; rewrite Hflag; cbn [negb];
    eexists _, _, _; (split; [reflexivity|]); cbn; repeat split.
Qed.

Lemma init_after_remesh_witness :
  exists self' p' path args p3 self2 a2,
    remesh demo_write_out_mesh demo_run_command demo_json_dumps demo_problem
           (demo_remeshing, demo_process)
    = ((self', p'), Replaces path args)
    /\ init_remeshing demo_run_command demo_realpath triangle_mesh
         demo_config
         {| problem_temp_dict :=
              match load_temp_dict (restarted p' args) with
              | Return d => d
              | Throw _ => demo_temp_dict
              end;
            state_problem_number_of_solves := 0;
            adjoint_problem_number_of_solves := 0;
            solver_iteration := 4;
            solver_gradient_norm_initial := 2;
            solver_cost_function_value := [];
            solver_gradient_norm := [];
            solver_stepsize := [];
            solver_MeshQuality := [] |}
         (restarted p' args)
       = (p3, Returns self2)
    /\ attributes self2 = Some a2
    /\ remesh_counter a2 = 1%Z
    /\ gmsh_file a2 = "/work/cestrel_remesh/mesh_1.msh"%string
    /\ commands p3 = [].
Proof.
  destruct (remesh demo_write_out_mesh demo_run_command demo_json_dumps
                   demo_problem (demo_remeshing, demo_process))
    as [[self' p'] [[]|e|path args]] eqn:E;
    [vm_compute in E; discriminate E | vm_compute in E; discriminate E |].
  assert (Hload : exists d, load_temp_dict (restarted p' args) = Return d).
  { pose proof E as E'. vm_compute in E'. injection E' as _ <- _ <-.
    vm_compute. eexists. reflexivity. }
  destruct Hload as [d Hload].
  destruct (init_after_remesh
              demo_write_out_mesh demo_run_command demo_json_dumps
              demo_realpath demo_problem demo_remeshing demo_process self' p'
              path args triangle_mesh demo_config "/work/mesh.msh"%string
              {| problem_temp_dict :=
                   match load_temp_dict (restarted p' args) with
                   | Return d => d
                   | Throw _ => demo_temp_dict
                   end;
                 state_problem_number_of_solves := 0;
                 adjoint_problem_number_of_solves := 0;
                 solver_iteration := 4;
                 solver_gradient_norm_initial := 2;
                 solver_cost_function_value := [];
                 solver_gradient_norm := [];
                 solver_stepsize := [];
                 solver_MeshQuality := [] |}
              (restarted p' args) demo_attributes E eq_refl)
    as (p3 & self2 & a2 & Hinit & _ & Ha2 & Hcounter & Hgmsh & _ & _ & _
        & Hcommands & _);
    try reflexivity.
  - discriminate.
  - cbn [problem_temp_dict]. rewrite Hload. reflexivity.
  - exists self', p', path, args, p3, self2, a2.
    split; [reflexivity|]. split; [exact Hinit|]. split; [exact Ha2|].
    split; [exact Hcounter|]. split; [exact Hgmsh|]. exact Hcommands.
Defined.


(** X29.  When the solver is still in the iteration stored in [temp_dict]
    (and the mesh could be written and the original .geo file read),
    [remesh] raises ['Remeshing the geometry failed.'], but only after its
    work is done: [gmsh] and [mesh-convert] have been run, the counter of
    the handler and of [temp_dict] is advanced and [temp_dict] already
    names the new mesh file, while its stored iteration is unchanged;
    nothing is written to [temp_dict.json] and the process is not
    replaced. *)
Theorem remesh_detects_stuck_solver :
  forall write_out_mesh run_command json_dumps
         sop self p a fs geo_file f show routine,
    do_remesh self = true ->
    attributes self = Some a ->
    write_out_mesh (remeshing_mesh self) (gmsh_file a)
      (remesh_directory a ++ "/mesh_" ++ py_str_int (remesh_counter a + 1)
       ++ "_pre_remesh.msh")%string (files p) = Return fs ->
    key_geo_file (temp_dict a) = Some geo_file ->
    fs geo_file = Some f ->
    config_getboolean (remeshing_config self) option_show_gmsh_output false
    = Return show ->
    key_OptimizationRoutine (temp_dict a) = Some routine ->
    key_iteration_counter routine = Some (solver_iteration sop) ->
    exists self' p' a',
      remesh write_out_mesh run_command json_dumps sop (self, p)
      = ((self', p'), Raises (Exception "Remeshing the geometry failed."))
      /\ attributes self' = Some a'
      /\ remesh_counter a' = (remesh_counter a + 1)%Z
      /\ key_remesh_counter (temp_dict a') = Some (remesh_counter a + 1)%Z
      /\ key_mesh_file (temp_dict a')
         = Some (remesh_directory a ++ "/mesh_"
                 ++ py_str_int (remesh_counter a + 1) ++ ".xdmf")%string
      /\ key_OptimizationRoutine (temp_dict a') = Some routine
      /\ length (commands p') = (length (commands p) + 2)%nat
      /\ exists geo,
           files p'
           = run_command
               ("mesh-convert "
                ++ (remesh_directory a ++ "/mesh_"
                    ++ py_str_int (remesh_counter a + 1) ++ ".msh")
                ++ " "
                ++ remesh_directory a ++ "/mesh_"
                ++ py_str_int (remesh_counter a + 1) ++ ".xdmf")%string
               (run_command
                  (if show
                   then ("gmsh " ++ remesh_geo_file a ++ " -"
                         ++ py_str_int
                              (Z.of_nat
                                 (geometric_dimension (remeshing_mesh self)))
                         ++ " -o " ++ remesh_directory a ++ "/mesh_"
                         ++ py_str_int (remesh_counter a + 1)
                         ++ ".msh")%string
                   else (("gmsh " ++ remesh_geo_file a ++ " -"
                          ++ py_str_int
                               (Z.of_nat
                                  (geometric_dimension (remeshing_mesh self)))
                          ++ " -o " ++ remesh_directory a ++ "/mesh_"
                          ++ py_str_int (remesh_counter a + 1) ++ ".msh")
                         ++ " >/dev/null 2>&1")%string)
                  (write_file (remesh_geo_file a) geo fs)).
Proof.
  intros write_out_mesh run_command json_dumps sop self p a fs geo_file f
         show routine Hdo Ha Hw Hgeo Hf Hshow Hroutine Hcounter.
  destruct (remesh write_out_mesh run_command json_dumps sop (self, p))
    as [[self' p'] c] eqn:H.
  remesh_unfold H. rewrite Hdo in H. step H.
  rewrite Ha in H. step H.
  change ("_pre_remesh" ++ ".msh")%string with "_pre_remesh.msh"%string in H.
  rewrite Hw in H. step H.
  rewrite Hgeo in H. step H.
  assert (Hopen : exists f0,
             write_file (remesh_geo_file a)
                        {| text := []; decoded := None |} fs geo_file
             = Some f0).
  { unfold write_file. destruct (String.eqb geo_file (remesh_geo_file a));
      eauto. }
  destruct Hopen as [f0 Hopen]. rewrite Hopen in H. step H.
  rewrite Hshow in H. step H.
  destruct show; step H;
    rewrite Hroutine in H; step H;
    rewrite Hcounter in H; step H;
    rewrite Z.eqb_refl in H; step H;
    injection H as <- <- <-;
    eexists _, _, _; (split; [reflexivity|]);
    cbn -[append py_str_int str_in write_file Z.eqb Z.add but_last];
    (split; [reflexivity|]); (split; [reflexivity|]);
    (split; [reflexivity|]); (split; [reflexivity|]);
    (split; [exact Hroutine|]);
    (split; [rewrite !length_app; simpl; lia|]);
    eexists; reflexivity.
Qed.


Lemma remesh_detects_stuck_solver_witness :
  exists self' p' a',
    remesh demo_write_out_mesh demo_run_command demo_json_dumps stuck_problem
           (demo_remeshing, demo_process)
    = ((self', p'), Raises (Exception "Remeshing the geometry failed."))
    /\ attributes self' = Some a'
    /\ remesh_counter a' = 1%Z
    /\ key_mesh_file (temp_dict a')
       = Some "/work/cestrel_remesh/mesh_1.xdmf"%string
    /\ length (commands p') = 2%nat.
Proof.
  destruct (remesh_detects_stuck_solver
              demo_write_out_mesh demo_run_command demo_json_dumps
              stuck_problem demo_remeshing demo_process demo_attributes
              _ "/work/mesh.geo"%string _ false _
              eq_refl eq_refl eq_refl eq_refl eq_refl eq_refl eq_refl eq_refl)
    as (self' & p' & a' & Hrun & Ha' & Hcounter & _ & Hmesh & _ & Hcommands
        & _).
  exists self', p', a'. split; [exact Hrun|]. split; [exact Ha'|].
  split; [exact Hcounter|]. split; [exact Hmesh|]. exact Hcommands.
Defined.
